(** * Custom hooks: [usePagination] and [useDebounce]

  A shallow embedding of the two hooks of the repository and of the part
  of their host (React's hook cells, the timer table of the event loop)
  that their behaviour depends on.

  Numbers: the hooks are called with integer counts, page numbers and
  millisecond delays.  A JavaScript [number] holding an integer is
  modelled as [Z]; the one quotient of the source,
  [totalItems / itemsPerPage], is a rational ([Q]) and [Math.ceil] takes
  it back to [Z].  The source computes on binary64 numbers: the two
  agree while the divisor is not 0 and the integers are safe integers
  (below [2^53] in absolute value).  Outside, the source has [Infinity]
  or [NaN] (division by zero, where [Q] gives 0) or a rounded value
  ([2^53 + 1] is [2^53]; [2^54 / 3] rounds down to an integer).
  [Pagination.exact_props] and [Pagination.exact_run] delimit the props
  and the runs on which the two agree, and the statements about the
  values of [usePagination] are made there. *)

From Stdlib Require Import ZArith QArith Qround Lia.
From stdpp Require Import base option list gmap strings.

Local Open Scope Z_scope.

(** ** JavaScript primitives used by the hooks *)

Module Js.

(** [Math.max(a, b)] and [Math.min(a, b)] on integers. *)
Definition Math_max (a b : Z) : Z := Z.max a b.
Definition Math_min (a b : Z) : Z := Z.min a b.

(** [Number.MAX_SAFE_INTEGER].  Up to it, in absolute value, every
    integer is a number of the source, and a sum, difference or product
    that stays within it is exact. *)
Definition MAX_SAFE_INTEGER : Z := 2 ^ 53 - 1.

(** [Number.isSafeInteger(n)] for an integer [n]. *)
Definition isSafeInteger (n : Z) : Prop :=
  - MAX_SAFE_INTEGER <= n <= MAX_SAFE_INTEGER.

(** [a / b] on two integers: the exact quotient, for [b] other than 0
    (the source gives [Infinity] or [NaN] for [b = 0]; [Q] gives 0).
    The source rounds the quotient to a binary64 number; for safe
    integers [0 <= a] and [1 <= b] the rounding does not cross an
    integer (a quotient that is not an integer is at least [1 / b] away
    from the integer below it, more than half the spacing of the numbers
    there), so [Math.ceil] of it is the ceiling of this quotient. *)
Definition div (a b : Z) : Q := (inject_Z a / inject_Z b)%Q.

(** The largest array length: [Array.from] raises a [RangeError] for a
    longer one. *)
Definition MAX_ARRAY_LENGTH : Z := 2 ^ 32 - 1.

(** [Math.ceil(x)]. *)
Definition Math_ceil (x : Q) : Z := Qceiling x.

(** [Array.prototype.slice(start, end)]: negative indices count from
    the end of the array, both are clamped to [0, length], and the
    result is empty when the range is. *)
Definition relative_index (len i : Z) : Z :=
  if i <? 0 then Z.max (len + i) 0 else Z.min i len.

Definition slice {A : Type} (l : list A) (start end_ : Z) : list A :=
  let len := Z.of_nat (length l) in
  let k := relative_index len start in
  let final := relative_index len end_ in
  let count := Z.max (final - k) 0 in
  take (Z.to_nat count) (drop (Z.to_nat k) l).

End Js.

(** ** React's hook cells, as far as [usePagination] uses them *)

Module React.

(** The argument of a state setter: a new value, or a function of the
    previous one ([setCurrentPage(v)] and [setCurrentPage(prev => ...)]). *)
Inductive SetStateAction : Type :=
| SetValue (v : Z)
| SetUpdater (f : Z -> Z).

(** (The updaters of the hook add or subtract 1: exact on a safe
    integer.) *)
Definition apply_action (s : Z) (a : SetStateAction) : Z :=
  match a with
  | SetValue v => v
  | SetUpdater f => f s
  end.

(** The queued setter calls of one event handler are applied in order
    before the next render. *)
Definition reduce_queue (s : Z) (q : list SetStateAction) : Z :=
  foldl apply_action s q.

(** [useState(initial)]: the initial value is used on the first render
    only; later renders read the cell. *)
Definition useState (initial : Z) (cell : option Z) : Z :=
  match cell with
  | Some s => s
  | None => initial
  end.

(** A [useMemo] cell: the dependency array of the render that computed
    the value, and the value. *)
Record Memo : Type := { memo_deps : list Z; memo_value : Z }.

(** [useMemo(factory, deps)]: the stored value is reused when every
    dependency is the same as at the render that stored it. *)
Definition useMemo (factory : unit -> Z) (deps : list Z)
    (cell : option Memo) : Memo :=
  match cell with
  | Some m =>
      if bool_decide (memo_deps m = deps) then m
      else {| memo_deps := deps; memo_value := factory tt |}
  | None => {| memo_deps := deps; memo_value := factory tt |}
  end.

End React.

(** ** [usePagination] *)

Module Pagination.
Import Js React.

(** [interface UsePaginationProps]; the optional fields have defaults
    in the parameter list of the hook. *)
Record UsePaginationProps : Type := {
  totalItems : Z;
  itemsPerPage : option Z;
  initialPage : option Z
}.

(** [interface UsePaginationReturn].  A call of one of the three
    functions runs its body against the values of this render and
    yields the setter calls it made. *)
Record UsePaginationReturn : Type := {
  currentPage : Z;
  totalPages : Z;
  startIndex : Z;
  endIndex : Z;
  itemsOnCurrentPage : Z;
  setPage : Z -> list SetStateAction;
  nextPage : list SetStateAction;
  prevPage : list SetStateAction;
  canNextPage : bool;
  canPrevPage : bool
}.

(** The hook cells of one mounted [usePagination], in call order. *)
Record Hooks : Type := {
  cell_currentPage : Z;
  cell_totalPages : Memo;
  cell_startIndex : Memo;
  cell_endIndex : Memo;
  cell_itemsOnCurrentPage : Memo
}.

(** One render of the hook.  [cells] is [None] on the first render.
    (The numbers are integers here and binary64 numbers in the source;
    [exact_props] and [exact_run] below say where the two agree.) *)
Definition usePagination (props : UsePaginationProps)
    (cells : option Hooks) : Hooks * UsePaginationReturn :=
  let totalItems := totalItems props in
  let itemsPerPage := default 10 (itemsPerPage props) in
  let initialPage := default 1 (initialPage props) in
  let currentPage :=
    useState (Math_max 1 initialPage) (cell_currentPage <$> cells) in
  let m_totalPages :=
    useMemo (fun _ => Math_max 1 (Math_ceil (div totalItems itemsPerPage)))
      [totalItems; itemsPerPage] (cell_totalPages <$> cells) in
  let totalPages := memo_value m_totalPages in
  let m_startIndex :=
    useMemo (fun _ => (currentPage - 1) * itemsPerPage)
      [currentPage; itemsPerPage] (cell_startIndex <$> cells) in
  let startIndex := memo_value m_startIndex in
  let m_endIndex :=
    useMemo (fun _ => Math_min (startIndex + itemsPerPage) totalItems)
      [startIndex; itemsPerPage; totalItems] (cell_endIndex <$> cells) in
  let endIndex := memo_value m_endIndex in
  let m_itemsOnCurrentPage :=
    useMemo (fun _ => endIndex - startIndex)
      [endIndex; startIndex] (cell_itemsOnCurrentPage <$> cells) in
  let itemsOnCurrentPage := memo_value m_itemsOnCurrentPage in
  let canPrevPage := currentPage >? 1 in
  let canNextPage := currentPage <? totalPages in
  let setPage := fun page : Z =>
    let validPage := Math_max 1 (Math_min page totalPages) in
    [SetValue validPage] in
  let nextPage :=
    if canNextPage then [SetUpdater (fun prev => prev + 1)] else [] in
  let prevPage :=
    if canPrevPage then [SetUpdater (fun prev => prev - 1)] else [] in
  ({| cell_currentPage := currentPage;
      cell_totalPages := m_totalPages;
      cell_startIndex := m_startIndex;
      cell_endIndex := m_endIndex;
      cell_itemsOnCurrentPage := m_itemsOnCurrentPage |},
   {| currentPage := currentPage;
      totalPages := totalPages;
      startIndex := startIndex;
      endIndex := endIndex;
      itemsOnCurrentPage := itemsOnCurrentPage;
      setPage := setPage;
      nextPage := nextPage;
      prevPage := prevPage;
      canNextPage := canNextPage;
      canPrevPage := canPrevPage |}).

(** *** The component that owns the hook *)

(** A mounted caller: the props of its last render, the hook cells and
    what the hook returned at that render. *)
Record Component : Type := {
  props : UsePaginationProps;
  hooks : Hooks;
  view : UsePaginationReturn
}.

Definition render (p : UsePaginationProps) (cells : option Hooks)
    : Component :=
  let '(h, v) := usePagination p cells in
  {| props := p; hooks := h; view := v |}.

Definition mount (p : UsePaginationProps) : Component := render p None.

(** What an event handler can call on the returned surface. *)
Inductive Call : Type :=
| CallSetPage (page : Z)
| CallNextPage
| CallPrevPage.

Definition invoke (v : UsePaginationReturn) (c : Call)
    : list SetStateAction :=
  match c with
  | CallSetPage page => setPage v page
  | CallNextPage => nextPage v
  | CallPrevPage => prevPage v
  end.

Definition set_cell_currentPage (h : Hooks) (s : Z) : Hooks :=
  {| cell_currentPage := s;
     cell_totalPages := cell_totalPages h;
     cell_startIndex := cell_startIndex h;
     cell_endIndex := cell_endIndex h;
     cell_itemsOnCurrentPage := cell_itemsOnCurrentPage h |}.

(** An event handler runs its calls against the closures of the last
    render; the queued updates are then applied and the component
    renders again with the same props. *)
Definition handle (c : Component) (calls : list Call) : Component :=
  let queue := flat_map (invoke (view c)) calls in
  let s := reduce_queue (cell_currentPage (hooks c)) queue in
  render (props c) (Some (set_cell_currentPage (hooks c) s)).

(** The parent renders the caller again with other props. *)
Definition update_props (c : Component) (p : UsePaginationProps)
    : Component :=
  render p (Some (hooks c)).

Inductive Event : Type :=
| Handler (calls : list Call)
| NewProps (p : UsePaginationProps).

Definition step (c : Component) (e : Event) : Component :=
  match e with
  | Handler calls => handle c calls
  | NewProps p => update_props c p
  end.

(** Every state a caller can be in is [run (mount p) es] for some props
    [p] and events [es]. *)
Definition run (c : Component) (es : list Event) : Component :=
  foldl step c es.

(** *** What the hook cells and the returned surface satisfy *)

(** The page size in effect: [itemsPerPage = 10] when the prop is absent. *)
Definition ipp_of (p : UsePaginationProps) : Z := default 10 (itemsPerPage p).

(** A memo cell is sound for [f] when its value is [f] of the
    dependencies it was computed from. *)
Definition memo_ok (f : list Z -> Z) (m : Memo) : Prop :=
  memo_value m = f (memo_deps m).

(** The four factories of the hook, as functions of their dependency
    arrays. *)
Definition calc_totalPages (d : list Z) : Z :=
  match d with
  | [ti; ipp] => Math_max 1 (Math_ceil (div ti ipp))
  | _ => 0
  end.

Definition calc_startIndex (d : list Z) : Z :=
  match d with
  | [cp; ipp] => (cp - 1) * ipp
  | _ => 0
  end.

Definition calc_endIndex (d : list Z) : Z :=
  match d with
  | [s; ipp; ti] => Math_min (s + ipp) ti
  | _ => 0
  end.

Definition calc_itemsOnCurrentPage (d : list Z) : Z :=
  match d with
  | [e; s] => e - s
  | _ => 0
  end.

Definition hooks_ok (h : Hooks) : Prop :=
  memo_ok calc_totalPages (cell_totalPages h) /\
  memo_ok calc_startIndex (cell_startIndex h) /\
  memo_ok calc_endIndex (cell_endIndex h) /\
  memo_ok calc_itemsOnCurrentPage (cell_itemsOnCurrentPage h).

Definition cells_ok (cells : option Hooks) : Prop :=
  forall h, cells = Some h -> hooks_ok h.

(** The returned surface [v] is the one derived from the props [p] and
    the state [cp], with nothing stale. *)
Record derived (p : UsePaginationProps) (cp : Z) (v : UsePaginationReturn)
    : Prop := {
  d_currentPage : currentPage v = cp;
  d_totalPages :
    totalPages v = Math_max 1 (Math_ceil (div (totalItems p) (ipp_of p)));
  d_startIndex : startIndex v = (cp - 1) * ipp_of p;
  d_endIndex : endIndex v = Math_min (startIndex v + ipp_of p) (totalItems p);
  d_itemsOnCurrentPage : itemsOnCurrentPage v = endIndex v - startIndex v;
  d_canPrevPage : canPrevPage v = (cp >? 1);
  d_canNextPage : canNextPage v = (cp <? totalPages v);
  d_setPage : forall page,
    setPage v page = [SetValue (Math_max 1 (Math_min page (totalPages v)))];
  d_nextPage :
    nextPage v =
    if cp <? totalPages v then [SetUpdater (fun prev => prev + 1)] else [];
  d_prevPage :
    prevPage v = if cp >? 1 then [SetUpdater (fun prev => prev - 1)] else []
}.

(** A component as some render left it. *)
Definition rendered (c : Component) : Prop :=
  exists cells, cells_ok cells /\ c = render (props c) cells.

(** *** Where the numbers of the hook are exact *)

(** Props on which [totalPages] and the indices of every page from 1 to
    [totalPages] are computed exactly: a count of items, at least one
    item per page, and [totalItems + itemsPerPage] a safe integer (the
    largest number the hook computes for such a page is
    [startIndex + itemsPerPage], below that sum). *)
Definition exact_props (p : UsePaginationProps) : Prop :=
  0 <= totalItems p /\ 1 <= ipp_of p /\
  totalItems p + ipp_of p <= MAX_SAFE_INTEGER.

(** A page, valid or not, whose indices are computed exactly under the
    props [p]: [startIndex] and [startIndex + itemsPerPage] are safe
    integers. *)
Definition exact_page (p : UsePaginationProps) (page : Z) : Prop :=
  - MAX_SAFE_INTEGER <= (page - 1) * ipp_of p /\
  page * ipp_of p <= MAX_SAFE_INTEGER.

(** A state of the caller: exact props and a safe integer for the
    page. *)
Definition exact (c : Component) : Prop :=
  exact_props (props c) /\ isSafeInteger (currentPage (view c)).

(** Every page the queued updates of a handler go through, from [page],
    is a safe integer. *)
Fixpoint exact_queue (page : Z) (queue : list SetStateAction) : Prop :=
  match queue with
  | [] => True
  | a :: queue' =>
      isSafeInteger (apply_action page a) /\
      exact_queue (apply_action page a) queue'
  end.

Definition exact_step (c : Component) (e : Event) : Prop :=
  match e with
  | Handler calls =>
      exact_queue (currentPage (view c)) (flat_map (invoke (view c)) calls)
  | NewProps _ => True
  end.

(** A run from [c] all of whose states, and the pages inside its
    handlers, are exact: on such a run the numbers of the source are the
    integers of the embedding. *)
Fixpoint exact_run (c : Component) (es : list Event) : Prop :=
  match es with
  | [] => exact c
  | e :: es' => exact c /\ exact_step c e /\ exact_run (step c e) es'
  end.

(** *** Sample callers *)

(** The demo screen: 47 items, 10 per page, starting at page 1. *)
Definition demo : UsePaginationProps :=
  {| totalItems := 47; itemsPerPage := Some 10; initialPage := Some 1 |}.

(** An empty collection opened at page 5. *)
Definition empty_from_5 : UsePaginationProps :=
  {| totalItems := 0; itemsPerPage := Some 10; initialPage := Some 5 |}.

(** The collection shrinks to 5 items; defaults for the rest. *)
Definition shrunk : UsePaginationProps :=
  {| totalItems := 5; itemsPerPage := None; initialPage := None |}.

End Pagination.

(** ** [useDebounce] *)

(** Time is counted in milliseconds on the host's clock.  The debounced
    value has any type [T]; React compares effect dependencies with
    [Object.is], which is the decidable equality of [T] here.  A render
    with the effects it commits is one step: nothing happens between the
    cleanup of the previous effect and the new effect. *)

Module Debounce.

Section Hook.
Context {T : Type} `{EqDecision T}.

(** *** The host's timers *)

(** A scheduled callback.  The hook schedules one kind of callback,
    [() => setDebouncedValue(value)]; a timer holds the time it is due
    and the [value] the closure captured. *)
Record Timer : Type := { due : Z; captured : T }.

(** The event loop as the hook sees it: the clock (milliseconds), the
    next timer handle to hand out and the table of pending timers. *)
Record Host : Type := {
  now : Z;
  next_handle : nat;
  timers : gmap nat Timer
}.

(** [setTimeout(callback, delay)]: a fresh handle; the callback is due
    [delay] from now (a negative delay counts as 0) and never runs
    inside this call. *)
Definition setTimeout (value : T) (delay : Z) (h : Host) : nat * Host :=
  let handle := next_handle h in
  (handle,
   {| now := now h;
      next_handle := S handle;
      timers := <[handle := {| due := now h + Z.max 0 delay;
                               captured := value |}]> (timers h) |}).

(** [clearTimeout(handle)]: the timer is dropped if it is still
    pending; otherwise nothing happens. *)
Definition clearTimeout (handle : nat) (h : Host) : Host :=
  {| now := now h;
     next_handle := next_handle h;
     timers := delete handle (timers h) |}.

(** *** The hook instance *)

(** The cells of a mounted [useDebounce]: the [useState] cell, and for
    the [useEffect] the dependencies of its last run and the [handler]
    its cleanup closure will clear. *)
Record Cells : Type := {
  cell_debouncedValue : T;
  effect_deps : T * Z;
  effect_cleanup : nat
}.

Inductive Lifecycle : Type :=
| NotMounted
| Mounted (c : Cells)
| Discarded.

(** One execution of the timer callback, as the log keeps it. *)
Record Fired : Type := {
  fired_at : Z;
  fired_handle : nat;
  fired_value : T
}.

Record World : Type := {
  host : Host;
  inst : Lifecycle;
  log : list Fired
}.

(** The body of the effect: schedule the update and keep the handle
    for the cleanup. *)
Definition run_effect (value : T) (delay : Z) (debounced : T)
    (h : Host) (l : list Fired) : World :=
  let '(handler, h') := setTimeout value delay h in
  {| host := h';
     inst := Mounted {| cell_debouncedValue := debounced;
                        effect_deps := (value, delay);
                        effect_cleanup := handler |};
     log := l |}.

(** One render of [useDebounce(value, delay)] with the effects it
    commits.  The first render initialises the state with [value] and
    runs the effect; a later render runs the cleanup of the previous
    effect and the effect again when [value] or [delay] is not what
    it was.  The hook returns the state it read at this render.  A
    discarded instance is not rendered. *)
Definition useDebounce (value : T) (delay : option Z) (w : World)
    : option (T * World) :=
  let delay := default 500 delay in
  match inst w with
  | NotMounted =>
      Some (value, run_effect value delay value (host w) (log w))
  | Mounted c =>
      let debouncedValue := cell_debouncedValue c in
      if bool_decide (effect_deps c = (value, delay)) then
        Some (debouncedValue, w)
      else
        let h := clearTimeout (effect_cleanup c) (host w) in
        Some (debouncedValue,
              run_effect value delay debouncedValue h (log w))
  | Discarded => None
  end.

(** Unmounting runs the cleanup of the last effect. *)
Definition unmount (w : World) : option World :=
  match inst w with
  | Mounted c =>
      Some {| host := clearTimeout (effect_cleanup c) (host w);
              inst := Discarded;
              log := log w |}
  | _ => None
  end.

(** *** Firing *)

(** Timers fire in the order they are due, and in the order they were
    set when due together. *)
Definition earlier (a b : nat * Timer) : bool :=
  (due a.2 <? due b.2) || ((due a.2 =? due b.2) && (a.1 <? b.1)%nat).

Definition pick_earlier (a : nat * Timer) (acc : option (nat * Timer))
    : option (nat * Timer) :=
  match acc with
  | None => Some a
  | Some b => if earlier a b then Some a else Some b
  end.

Definition next_due (tm : gmap nat Timer) : option (nat * Timer) :=
  foldr pick_earlier None (map_to_list tm).

(** The timer [handle] fires: it leaves the table and its callback
    calls [setDebouncedValue(captured)].  The render that follows a
    state update calls the hook with the arguments of the last render,
    so its effect does not run again. *)
Definition run_callback (handle : nat) (tmr : Timer) (w : World) : World :=
  let t := Z.max (now (host w)) (due tmr) in
  {| host := {| now := t;
                next_handle := next_handle (host w);
                timers := delete handle (timers (host w)) |};
     inst := match inst w with
             | Mounted c =>
                 Mounted {| cell_debouncedValue := captured tmr;
                            effect_deps := effect_deps c;
                            effect_cleanup := effect_cleanup c |}
             | other => other
             end;
     log := log w ++ [{| fired_at := t;
                         fired_handle := handle;
                         fired_value := captured tmr |}] |}.

Fixpoint fire_due (fuel : nat) (limit : Z) (w : World) : World :=
  match fuel with
  | O => w
  | S fuel' =>
      match next_due (timers (host w)) with
      | Some (handle, tmr) =>
          if due tmr <=? limit
          then fire_due fuel' limit (run_callback handle tmr w)
          else w
      | None => w
      end
  end.

(** [dt] milliseconds pass: every timer due by then fires, and the
    clock ends at the new time.  A callback schedules nothing, so one
    round per pending timer is enough (see [elapse_fires_all_due]). *)
Definition elapse (dt : Z) (w : World) : option World :=
  if dt <? 0 then None
  else
    let limit := now (host w) + dt in
    let w' := fire_due (size (timers (host w))) limit w in
    Some {| host := {| now := limit;
                       next_handle := next_handle (host w');
                       timers := timers (host w') |};
            inst := inst w';
            log := log w' |}.

(** *** Runs *)

Inductive Event : Type :=
| Render (value : T) (delay : option Z)
| Elapse (dt : Z)
| Unmount.

Definition step (w : World) (e : Event) : option World :=
  match e with
  | Render value delay => snd <$> useDebounce value delay w
  | Elapse dt => elapse dt w
  | Unmount => unmount w
  end.

Fixpoint run (w : World) (es : list Event) : option World :=
  match es with
  | [] => Some w
  | e :: es' =>
      match step w e with
      | Some w' => run w' es'
      | None => None
      end
  end.

(** A tracker that has not rendered yet, on a host whose clock reads
    [t0] and whose next handle is [h0]. *)
Definition init (t0 : Z) (h0 : nat) : World :=
  {| host := {| now := t0; next_handle := h0; timers := ∅ |};
     inst := NotMounted;
     log := [] |}.

Definition reachable (w : World) : Prop :=
  exists t0 h0 es, run (init t0 h0) es = Some w.

(** The value the hook returns at a render of [w], for a mounted
    instance. *)
Definition debouncedValue (w : World) : option T :=
  match inst w with
  | Mounted c => Some (cell_debouncedValue c)
  | _ => None
  end.

(** A run in which the value changes again and again: each entry is
    the time since the previous render and the new value. *)
Definition changes (delay : option Z) (cs : list (Z * T)) : list Event :=
  flat_map (fun c => [Elapse c.1; Render c.2 delay]) cs.


(** *** Invariants of a run *)

(** Every pending timer carries a handle that was handed out. *)
Definition handles_fresh (w : World) : Prop :=
  forall i t, timers (host w) !! i = Some t -> (i < next_handle (host w))%nat.

(** A pending timer is the one the current cleanup will clear; without a
    mounted instance nothing is pending. *)
Definition timers_owned (w : World) : Prop :=
  match inst w with
  | Mounted c =>
      (effect_cleanup c < next_handle (host w))%nat /\
      forall i t, timers (host w) !! i = Some t -> i = effect_cleanup c
  | _ => timers (host w) = ∅
  end.

(** A timer that fired is not pending again. *)
Definition log_spent (w : World) : Prop :=
  forall f, f ∈ log w ->
    (fired_handle f < next_handle (host w))%nat /\
    timers (host w) !! fired_handle f = None.

Definition invariant (w : World) : Prop :=
  handles_fresh w /\ timers_owned w /\ log_spent w.

Definition fired_handles (w : World) : list nat :=
  fired_handle <$> log w.

(** *** The two shapes of a mounted tracker *)

(** Pending: the value [v] was rendered at time [ts] with delay [d], its
    timer [h] is the only one, and the hook still returns [vd]. *)
Definition pending (d tn ts : Z) (h : nat) (v vd : T) (l : list Fired)
    : World :=
  {| host := {| now := tn;
                next_handle := S h;
                timers := {[ h := {| due := ts + Z.max 0 d;
                                     captured := v |} ]} |};
     inst := Mounted {| cell_debouncedValue := vd;
                        effect_deps := (v, d);
                        effect_cleanup := h |};
     log := l |}.

(** Idle: the timer [h] has fired and the hook returns [v]. *)
Definition settled (d tn : Z) (h : nat) (v : T) (l : list Fired) : World :=
  {| host := {| now := tn; next_handle := S h; timers := ∅ |};
     inst := Mounted {| cell_debouncedValue := v;
                        effect_deps := (v, d);
                        effect_cleanup := h |};
     log := l |}.

(** Each value of the list differs from the one before it, starting
    from [v]: every render is a change. *)
Fixpoint changing (v : T) (vs : list T) : Prop :=
  match vs with
  | [] => True
  | v' :: vs' => v <> v' /\ changing v' vs'
  end.

Definition total_gap (cs : list (Z * T)) : Z :=
  foldr (fun c acc => c.1 + acc) 0 cs.

Fixpoint last_value (v : T) (cs : list (Z * T)) : T :=
  match cs with
  | [] => v
  | c :: cs' => last_value c.2 cs'
  end.

End Hook.

Arguments Timer : clear implicits.
Arguments Host : clear implicits.
Arguments Cells : clear implicits.
Arguments Lifecycle : clear implicits.
Arguments Fired : clear implicits.
Arguments World : clear implicits.
Arguments Event : clear implicits.

(** *** A sample session *)

(** The user types [a], [ab], [abc] into a field that started empty,
    100 ms apart, 200 ms after the field was mounted (the default delay
    of 500 ms). *)
Definition typing : list (Z * string) :=
  [(200, "a"); (100, "ab"); (100, "abc")]%string.

Definition typing_session : list (Event string) :=
  Render ""%string None :: changes None typing.

(** The tracker after [typing_session], from a host at time 0 whose
    next handle is 1: the timer for [abc] is pending. *)
Definition typed : World string :=
  pending 500 400 400 4 "abc"%string ""%string [].

End Debounce.

(** ** The pagination screen ([PaginationDemo]) *)

From stdpp Require Import pretty.

Local Open Scope Z_scope.

Module PaginationScreen.
Import Js React Pagination.

(** [Array.from({ length: n }, (_, i) => f(i))]: the values of [f] at
    [0 .. n - 1]; no element for a length below 1.  (For a length above
    [MAX_ARRAY_LENGTH] the source raises a [RangeError]; the statements
    about page buttons carry that bound.) *)
Definition Array_from {A : Type} (n : Z) (f : Z -> A) : list A :=
  (fun i : nat => f (Z.of_nat i)) <$> seq 0 (Z.to_nat n).

(** An element of [sampleItems]. *)
Record Item : Type := {
  id : Z;
  name : string;
  description : string
}.

(** [sampleItems]: 47 items numbered from 1. *)
Definition sampleItems : list Item :=
  Array_from 47 (fun index =>
    {| id := index + 1;
       name := "Item " +:+ pretty (index + 1);
       description :=
         "This is the description for item " +:+ pretty (index + 1) |}).

(** What the component computes at a render, before any markup: the
    surface of the hook, the items of the current page and the numbers
    on the page buttons. *)
Record Screen : Type := {
  pagination : UsePaginationReturn;
  currentItems : list Item;
  pageNumbers : list Z
}.

(** One render of [PaginationDemo]. *)
Definition PaginationDemo (cells : option Hooks) : Hooks * Screen :=
  let '(h, v) :=
    usePagination {| totalItems := Z.of_nat (length sampleItems);
                     itemsPerPage := Some 10;
                     initialPage := Some 1 |} cells in
  let currentItems := slice sampleItems (startIndex v) (endIndex v) in
  let pageNumbers := Array_from (totalPages v) (fun i => i + 1) in
  (h, {| pagination := v;
         currentItems := currentItems;
         pageNumbers := pageNumbers |}).

(** The buttons of the screen.  A disabled button ([disabled] is
    [!canPrevPage], [!canNextPage]) and a page button that is not
    rendered deliver no click. *)
Inductive Click : Type :=
| ClickPrevious
| ClickNext
| ClickPage (pageNum : Z).

Definition onClick (s : Screen) (b : Click) : option (list SetStateAction) :=
  match b with
  | ClickPrevious =>
      if canPrevPage (pagination s) then Some (prevPage (pagination s))
      else None
  | ClickNext =>
      if canNextPage (pagination s) then Some (nextPage (pagination s))
      else None
  | ClickPage pageNum =>
      if bool_decide (pageNum ∈ pageNumbers s)
      then Some (setPage (pagination s) pageNum)
      else None
  end.

(** A mounted screen: its hook cells and what the last render computed. *)
Record Mounted : Type := { cells : Hooks; screen : Screen }.

Definition mount_screen : Mounted :=
  let '(h, s) := PaginationDemo None in {| cells := h; screen := s |}.

(** A click runs its handler; the queued update is applied and the
    component renders again. *)
Definition click (m : Mounted) (b : Click) : option Mounted :=
  match onClick (screen m) b with
  | Some queue =>
      let state := reduce_queue (cell_currentPage (cells m)) queue in
      let '(h, s) :=
        PaginationDemo (Some (set_cell_currentPage (cells m) state)) in
      Some {| cells := h; screen := s |}
  | None => None
  end.

Fixpoint clicks (m : Mounted) (bs : list Click) : option Mounted :=
  match bs with
  | [] => Some m
  | b :: bs' =>
      match click m b with
      | Some m' => clicks m' bs'
      | None => None
      end
  end.

(** The screen whose state is [page], rendered from the cells of a fresh
    mount. *)
Definition screen_at (page : Z) : Mounted :=
  let '(h, s) :=
    PaginationDemo (Some (set_cell_currentPage (cells mount_screen) page)) in
  {| cells := h; screen := s |}.

End PaginationScreen.

(** ** More about callers of [usePagination] *)

Module PaginationRuns.
Import Js React Pagination.

(** The component with props [p] whose state is [page], rendered from
    scratch. *)
Definition at_page (p : UsePaginationProps) (page : Z) : Component :=
  render p (Some (set_cell_currentPage (hooks (mount p)) page)).

(** Every handler of the run calls at most one function of the surface. *)
Definition one_call_each (es : list Event) : Prop :=
  Forall (fun e => match e with
                   | Handler calls => (length calls <= 1)%nat
                   | NewProps _ => True
                   end) es.

(** The props never change during the run. *)
Definition fixed_props (es : list Event) : Prop :=
  Forall (fun e => match e with
                   | Handler _ => True
                   | NewProps _ => False
                   end) es.


End PaginationRuns.

(** ** More about runs of [useDebounce] *)

Module DebounceRuns.
Import Debounce.

Section Runs.
Context {T : Type} `{EqDecision T}.

(** A mounted tracker is either idle, returning the input of its last
    effect, or waiting for the one timer of that effect, which captured
    that input and is due no later than the delay from now. *)
Definition in_step (w : World T) : Prop :=
  match inst w with
  | Mounted c =>
      (timers (host w) = ∅ /\ cell_debouncedValue c = (effect_deps c).1) \/
      (exists t,
         timers (host w)
         = {[ effect_cleanup c := {| due := t;
                                     captured := (effect_deps c).1 |} ]} /\
         t <= now (host w) + Z.max 0 (effect_deps c).2)
  | _ => True
  end.

(** The tracker is mounted on the input [value] with delay [d], and its
    timer, if one is pending, is due by [bound]. *)
Definition settling (value : T) (d bound : Z) (w : World T) : Prop :=
  exists c,
    inst w = Mounted c /\ effect_deps c = (value, d) /\
    ((timers (host w) = ∅ /\ cell_debouncedValue c = value) \/
     (exists t,
        timers (host w)
        = {[ effect_cleanup c := {| due := t; captured := value |} ]} /\
        t <= bound)).

(** A stretch in which the input stays [value] and the delay [d]: the
    caller may render again, and time passes. *)
Definition quiet (value : T) (d : Z) (es : list (Event T)) : Prop :=
  Forall (fun e => match e with
                   | Render value' delay => value' = value /\ default 500 delay = d
                   | Elapse dt => 0 <= dt
                   | Unmount => False
                   end) es.

(** The time that passes during a run. *)
Definition elapsed (es : list (Event T)) : Z :=
  foldr (fun e acc => match e with Elapse dt => dt + acc | _ => acc end) 0 es.

(** The renders of a run. *)
Definition renders (es : list (Event T)) : nat :=
  foldr (fun e n => match e with Render _ _ => S n | _ => n end) 0%nat es.

(** The callbacks that ran and the timers that wait are no more than the
    handles handed out since [h0]. *)
Definition accounted (h0 : nat) (w : World T) : Prop :=
  (h0 <= next_handle (host w))%nat /\
  (length (log w) + size (timers (host w))
   <= next_handle (host w) - h0)%nat.

End Runs.

End DebounceRuns.

(** ** The search screen ([DebounceSearchDemo]) *)

Module SearchScreen.
Import Debounce.

(** The double quote character of the template literals. *)
Definition quote : string :=
  String (Ascii.Ascii false true false false false true false false)
    EmptyString.

(** [mockResults] for a term: [Result 1 for], the term between double
    quotes, and so on up to 5. *)
Definition mockResults (term : string) : list string :=
  [ "Result 1 for " +:+ quote +:+ term +:+ quote;
    "Result 2 for " +:+ quote +:+ term +:+ quote;
    "Result 3 for " +:+ quote +:+ term +:+ quote;
    "Result 4 for " +:+ quote +:+ term +:+ quote;
    "Result 5 for " +:+ quote +:+ term +:+ quote ].

(** A string in a condition: the empty string is false. *)
Definition truthy (s : string) : bool :=
  match s with
  | EmptyString => false
  | String _ _ => true
  end.

(** The callbacks the screen itself schedules: the 0 ms timer of the
    effect for a term, the 300 ms timer that one sets, and the 0 ms timer
    of the effect for the empty term. *)
Inductive Callback : Type :=
| StartSearch (debouncedSearchTerm : string)
| ShowResults (mockResults : list string)
| ClearResults.

(** The state cells of the screen, and for its effect the dependency of
    the last run ([debouncedSearchTerm]) and the [timer] its cleanup
    clears. *)
Record Cells : Type := {
  searchTerm : string;
  apiCallCount : Z;
  searchResults : list string;
  isSearching : bool;
  effect_term : string;
  effect_timer : nat
}.

(** The screen and its host.  [tracker] is the world of the
    [useDebounce] inside the screen; its host keeps the clock and the
    handle counter, which the timers of the screen share.  [searches]
    lists the searches started, with their times. *)
Record World : Type := {
  tracker : Debounce.World string;
  own : gmap nat (Timer Callback);
  cells : option Cells;
  searches : list (Z * string)
}.

Definition clock (w : World) : Z := now (host (tracker w)).

Definition with_host (t : Debounce.World string) (time : Z) (next : nat)
    : Debounce.World string :=
  {| host := {| now := time; next_handle := next;
                timers := timers (host t) |};
     inst := inst t;
     log := log t |}.

(** [setTimeout(callback, delay)] by the screen. *)
Definition schedule (cb : Callback) (delay : Z) (w : World) : nat * World :=
  let handle := next_handle (host (tracker w)) in
  (handle,
   {| tracker := with_host (tracker w) (clock w) (S handle);
      own := <[handle := {| due := clock w + Z.max 0 delay;
                            captured := cb |}]> (own w);
      cells := cells w;
      searches := searches w |}).

(** The body of the effect of the screen. *)
Definition search_effect (debouncedSearchTerm : string) (w : World)
    : nat * World :=
  if truthy debouncedSearchTerm
  then schedule (StartSearch debouncedSearchTerm) 0 w
  else schedule ClearResults 0 w.

Definition set_cells (w : World) (c : Cells) : World :=
  {| tracker := tracker w; own := own w; cells := Some c;
     searches := searches w |}.

(** One render of [DebounceSearchDemo] with the effects it commits, for
    the state [st] (the four [useState] cells; [None] for the effect
    cells on the first render). *)
Definition DebounceSearchDemo (searchTerm : string) (apiCallCount : Z)
    (searchResults : list string) (isSearching : bool)
    (effect : option (string * nat)) (w : World) : option World :=
  match useDebounce searchTerm (Some 500) (tracker w) with
  | Some (debouncedSearchTerm, t) =>
      let w1 := {| tracker := t; own := own w; cells := cells w;
                   searches := searches w |} in
      let cell term timer :=
        {| searchTerm := searchTerm; apiCallCount := apiCallCount;
           searchResults := searchResults; isSearching := isSearching;
           effect_term := term; effect_timer := timer |} in
      match effect with
      | None =>
          let '(timer, w2) := search_effect debouncedSearchTerm w1 in
          Some (set_cells w2 (cell debouncedSearchTerm timer))
      | Some (term, timer) =>
          if bool_decide (term = debouncedSearchTerm)
          then Some (set_cells w1 (cell term timer))
          else
            let w2 := {| tracker := tracker w1;
                         own := delete timer (own w1);
                         cells := cells w1;
                         searches := searches w1 |} in
            let '(timer', w3) := search_effect debouncedSearchTerm w2 in
            Some (set_cells w3 (cell debouncedSearchTerm timer'))
      end
  | None => None
  end.

(** The render that follows a state update. *)
Definition rerender (c : Cells) (w : World) : option World :=
  DebounceSearchDemo (searchTerm c) (apiCallCount c) (searchResults c)
    (isSearching c) (Some (effect_term c, effect_timer c)) w.

(** State updates on a component that is gone are dropped. *)
Definition update (f : Cells -> Cells) (w : World) : option World :=
  match cells w with
  | Some c => rerender (f c) w
  | None => Some w
  end.

(** *** The timers fire *)

Definition with_tracker (w : World) (t : Debounce.World string) : World :=
  {| tracker := t; own := own w; cells := cells w; searches := searches w |}.

(** A timer of the tracker fires. *)
Definition fire_tracker (handle : nat) (tmr : Timer string) (w : World)
    : option World :=
  update (fun c => c) (with_tracker w (run_callback handle tmr (tracker w))).

(** A timer of the screen fires and its callback runs. *)
Definition fire_own (handle : nat) (tmr : Timer Callback) (w : World)
    : option World :=
  let t := Z.max (clock w) (due tmr) in
  let w1 := {| tracker := with_host (tracker w) t
                            (next_handle (host (tracker w)));
               own := delete handle (own w);
               cells := cells w;
               searches := searches w |} in
  match captured tmr with
  | StartSearch debouncedSearchTerm =>
      let '(_, w2) :=
        schedule (ShowResults (mockResults debouncedSearchTerm)) 300 w1 in
      update (fun c =>
                {| searchTerm := searchTerm c;
                   apiCallCount := apiCallCount c + 1;
                   searchResults := searchResults c;
                   isSearching := true;
                   effect_term := effect_term c;
                   effect_timer := effect_timer c |})
        {| tracker := tracker w2; own := own w2; cells := cells w2;
           searches := searches w2 ++ [(t, debouncedSearchTerm)] |}
  | ShowResults mockResults =>
      update (fun c =>
                {| searchTerm := searchTerm c;
                   apiCallCount := apiCallCount c;
                   searchResults := mockResults;
                   isSearching := false;
                   effect_term := effect_term c;
                   effect_timer := effect_timer c |}) w1
  | ClearResults =>
      update (fun c =>
                {| searchTerm := searchTerm c;
                   apiCallCount := apiCallCount c;
                   searchResults := [];
                   isSearching := false;
                   effect_term := effect_term c;
                   effect_timer := effect_timer c |}) w1
  end.

(** The next timer of the two tables: the earlier due, and the earlier
    set when due together. *)
Definition fire_next (limit : Z) (w : World) : option (option World) :=
  match next_due (timers (host (tracker w))), next_due (own w) with
  | Some (h, tmr), Some (h', tmr') =>
      if (due tmr <? due tmr') || ((due tmr =? due tmr') && (h <? h')%nat)
      then if due tmr <=? limit then Some (fire_tracker h tmr w) else None
      else if due tmr' <=? limit then Some (fire_own h' tmr' w) else None
  | Some (h, tmr), None =>
      if due tmr <=? limit then Some (fire_tracker h tmr w) else None
  | None, Some (h', tmr') =>
      if due tmr' <=? limit then Some (fire_own h' tmr' w) else None
  | None, None => None
  end.

Fixpoint fire_all (fuel : nat) (limit : Z) (w : World) : option World :=
  match fuel with
  | O => Some w
  | S fuel' =>
      match fire_next limit w with
      | Some (Some w') => fire_all fuel' limit w'
      | Some None => None
      | None => Some w
      end
  end.

(** [dt] milliseconds pass.  A timer of the tracker sets at most one
    timer of the screen, which sets at most one more: three rounds per
    timer of the tracker and two per timer of the screen are enough. *)
Definition elapse (dt : Z) (w : World) : option World :=
  if dt <? 0 then None
  else
    let limit := clock w + dt in
    match fire_all (3 * size (timers (host (tracker w))) + 2 * size (own w))
            limit w with
    | Some w' =>
        Some (with_tracker w'
                (with_host (tracker w') limit
                   (next_handle (host (tracker w')))))
    | None => None
    end.

(** *** Runs *)

Inductive Event : Type :=
| Mount
| Type_ (value : string)
| Reset
| Elapse (dt : Z)
| Unmount.

Definition step (w : World) (e : Event) : option World :=
  match e, cells w with
  | Mount, None =>
      match inst (tracker w) with
      | NotMounted => DebounceSearchDemo "" 0 [] false None w
      | _ => None
      end
  | Type_ value, Some c =>
      (* handleSearchChange *)
      rerender {| searchTerm := value;
                  apiCallCount := apiCallCount c;
                  searchResults := searchResults c;
                  isSearching := isSearching c;
                  effect_term := effect_term c;
                  effect_timer := effect_timer c |} w
  | Reset, Some c =>
      (* handleReset *)
      rerender {| searchTerm := "";
                  apiCallCount := 0;
                  searchResults := [];
                  isSearching := false;
                  effect_term := effect_term c;
                  effect_timer := effect_timer c |} w
  | Elapse dt, _ => elapse dt w
  | Unmount, Some c =>
      match Debounce.unmount (tracker w) with
      | Some t =>
          Some {| tracker := t;
                  own := delete (effect_timer c) (own w);
                  cells := None;
                  searches := searches w |}
      | None => None
      end
  | _, _ => None
  end.

Fixpoint run (w : World) (es : list Event) : option World :=
  match es with
  | [] => Some w
  | e :: es' =>
      match step w e with
      | Some w' => run w' es'
      | None => None
      end
  end.

Definition init (t0 : Z) (h0 : nat) : World :=
  {| tracker := Debounce.init t0 h0; own := ∅; cells := None;
     searches := [] |}.

(** Keystrokes: each entry is the time since the previous event and the
    new content of the input. *)
Definition typing (cs : list (Z * string)) : list Event :=
  flat_map (fun c => [Elapse c.1; Type_ c.2]) cs.

End SearchScreen.

(** ** More about runs of the search screen *)

Module SearchRuns.
Import Debounce SearchScreen.

Definition reachable (w : World) : Prop :=
  exists t0 h0 es, run (init t0 h0) es = Some w.

(** The search timer of the effect, if it waits: 1, else 0. *)
Definition pending_search (w : World) : nat :=
  match cells w with
  | Some c =>
      match own w !! effect_timer c with
      | Some {| captured := StartSearch _ |} => 1
      | _ => 0
      end
  | None => 0
  end.

(** A write of the tracker that the effect of the screen has not seen
    yet: 1, else 0. *)
Definition unseen_write (w : World) : nat :=
  match cells w, inst (tracker w) with
  | Some c, Mounted tc =>
      if bool_decide (effect_term c = cell_debouncedValue tc) then 0 else 1
  | _, _ => 0
  end.

(** What a run keeps true, also between a state update and the render
    that follows it.  The tracker is mounted exactly while the screen is;
    the tracker returns the last value a callback of its own wrote, and
    the empty string before; a search timer that waits is the timer of
    the effect of the screen and is for the value that effect last ran
    for, which is not empty; the searches started were for values that
    are not empty and that the tracker had written; and the searches
    started, with the one that may wait and the one a write not yet seen
    may start, are no more than the writes of the tracker; and the
    counter on the screen is at most the number of searches started. *)
Record screen_pre (w : World) : Prop := {
  ok_mounted : forall c, cells w = Some c ->
    exists tc, inst (tracker w) = Mounted tc;
  ok_unmounted : cells w = None ->
    forall tc, inst (tracker w) <> Mounted tc;
  ok_tracker : inst (tracker w) = NotMounted ->
    log (tracker w) = [] /\ timers (host (tracker w)) = ∅;
  ok_written : forall tc, inst (tracker w) = Mounted tc ->
    cell_debouncedValue tc
    = List.last (fired_value <$> log (tracker w)) ""%string;
  ok_pending : forall h tm term,
    own w !! h = Some tm -> captured tm = StartSearch term ->
    truthy term = true /\
    exists c, cells w = Some c /\ h = effect_timer c /\ term = effect_term c;
  ok_term : forall c, cells w = Some c ->
    effect_term c = ""%string \/
    effect_term c ∈ fired_value <$> log (tracker w);
  ok_searches : forall t term, (t, term) ∈ searches w ->
    truthy term = true /\ term ∈ fired_value <$> log (tracker w);
  ok_count :
    (length (searches w) + pending_search w + unseen_write w
     <= length (log (tracker w)))%nat;
  ok_api : forall c, cells w = Some c ->
    0 <= apiCallCount c <= Z.of_nat (length (searches w))
}.

(** After a render: the tracker was rendered with the content of the
    input, and the effect of the screen has run for the value the
    tracker returns. *)
Definition in_sync (w : World) : Prop :=
  forall c, cells w = Some c ->
    exists tc,
      inst (tracker w) = Mounted tc /\
      effect_deps tc = (searchTerm c, 500) /\
      effect_term c = cell_debouncedValue tc.

Definition screen_ok (w : World) : Prop := screen_pre w /\ in_sync w.

(** The rounds the timers of a world can still take: 3 for a timer of
    the tracker, 2 for a search timer of the screen, 1 for its other
    timers. *)
Definition rounds_of (tm : Timer Callback) : nat :=
  match captured tm with
  | StartSearch _ => 2
  | _ => 1
  end.

Definition own_rounds (m : gmap nat (Timer Callback)) : nat :=
  map_fold (fun _ tm acc => rounds_of tm + acc)%nat 0%nat m.

Definition rounds (w : World) : nat :=
  3 * size (timers (host (tracker w))) + own_rounds (own w).

(** The writes of the tracker and its waiting timers. *)
Definition tracker_load (w : World) : nat :=
  length (log (tracker w)) + size (timers (host (tracker w))).

(** The events of a run that render the screen with a new state of its
    own: the mount, the keystrokes and the resets. *)
Definition presses (es : list Event) : nat :=
  foldr (fun e n => match e with
                    | Mount | Type_ _ | Reset => S n
                    | _ => n
                    end) 0%nat es.

(** No timer of either table is due by [limit]. *)
Definition none_due (limit : Z) (w : World) : Prop :=
  (forall h tm, timers (host (tracker w)) !! h = Some tm -> limit < due tm) /\
  (forall h tm, own w !! h = Some tm -> limit < due tm).

End SearchRuns.


(** ** Shapes of the search screen in a typing session *)

Module SearchScenes.
Import Debounce SearchScreen.

Local Open Scope Z_scope.

(** Between keystrokes, before any search: the input holds [v], the
    tracker was rendered with it and still returns the empty string, its
    timers are [tt], and the screen has no timer of its own. *)
Definition calm (tn : Z) (next : nat) (tt : gmap nat (Timer string))
    (h et : nat) (v : string) (l : list (Fired string)) : World :=
  {| tracker := {| host := {| now := tn; next_handle := next; timers := tt |};
                   inst := Mounted {| cell_debouncedValue := "";
                                      effect_deps := (v, 500);
                                      effect_cleanup := h |};
                   log := l |};
     own := ∅;
     cells := Some {| searchTerm := v;
                      apiCallCount := 0;
                      searchResults := [];
                      isSearching := false;
                      effect_term := "";
                      effect_timer := et |};
     searches := [] |}.

(** The first search, for [v], started at [T]: the tracker returns [v]
    and is idle, the timer [hr] will show the results at [T + 300], and
    [hs] was the timer of the effect. *)
Definition searching (tn T : Z) (next h hs hr : nat) (v : string)
    (l : list (Fired string)) : World :=
  {| tracker := {| host := {| now := tn; next_handle := next; timers := ∅ |};
                   inst := Mounted {| cell_debouncedValue := v;
                                      effect_deps := (v, 500);
                                      effect_cleanup := h |};
                   log := l |};
     own := {[ hr := {| due := T + 300;
                        captured := ShowResults (mockResults v) |} ]};
     cells := Some {| searchTerm := v;
                      apiCallCount := 1;
                      searchResults := [];
                      isSearching := true;
                      effect_term := v;
                      effect_timer := hs |};
     searches := [(T, v)] |}.

(** The results of that search are on the screen. *)
Definition shown (tn T : Z) (next h hs : nat) (v : string)
    (l : list (Fired string)) : World :=
  {| tracker := {| host := {| now := tn; next_handle := next; timers := ∅ |};
                   inst := Mounted {| cell_debouncedValue := v;
                                      effect_deps := (v, 500);
                                      effect_cleanup := h |};
                   log := l |};
     own := ∅;
     cells := Some {| searchTerm := v;
                      apiCallCount := 1;
                      searchResults := mockResults v;
                      isSearching := false;
                      effect_term := v;
                      effect_timer := hs |};
     searches := [(T, v)] |}.

End SearchScenes.
(** * Facts about [usePagination] *)

(** Exact props and exact runs of a sample caller: the bounds are
    checked by computing. *)
Ltac exact_here :=
  vm_compute; repeat split; (discriminate || exact I).

Section PaginationFacts.
Import Js React Pagination.

(** ** The quotient and its ceiling *)

Lemma Math_ceil_div (a b : Z) :
  0 < b -> Math_ceil (div a b) = - ((- a) / b).
Proof.
  intros Hb. destruct b as [|b|b]; try lia.
  unfold Math_ceil, div, Qceiling, Qfloor, Qdiv, Qmult, Qinv, Qopp. simpl.
  rewrite Z.mul_1_r. reflexivity.
Qed.

Lemma Math_ceil_div_bounds (a b : Z) :
  0 < b ->
  (Math_ceil (div a b) - 1) * b < a <= Math_ceil (div a b) * b.
Proof.
  intros Hb. rewrite Math_ceil_div by done.
  pose proof (Z.div_mod (- a) b ltac:(lia)).
  pose proof (Z.mod_pos_bound (- a) b Hb). nia.
Qed.

Lemma Math_ceil_div_le (a b n : Z) :
  0 < b -> Math_ceil (div a b) <= n <-> a <= n * b.
Proof.
  intros Hb. pose proof (Math_ceil_div_bounds a b Hb). split; intros; nia.
Qed.

(** ** Memo cells *)

Lemma useMemo_deps f d cell : memo_deps (useMemo f d cell) = d.
Proof.
  unfold useMemo. destruct cell as [m|]; [|done].
  case_bool_decide; done.
Qed.

Lemma useMemo_value f g d cell :
  f tt = g d ->
  (forall m, cell = Some m -> memo_ok g m) ->
  memo_value (useMemo f d cell) = g d.
Proof.
  intros Hf Hc. unfold useMemo. destruct cell as [m|]; [|done].
  case_bool_decide as Hd; [|done].
  rewrite (Hc m eq_refl). by rewrite Hd.
Qed.

Lemma useMemo_again f g d cell :
  useMemo g d (Some (useMemo f d cell)) = useMemo f d cell.
Proof.
  unfold useMemo at 1. rewrite bool_decide_eq_true_2; [done|].
  apply useMemo_deps.
Qed.

(** ** A render returns the derived surface *)

Lemma usePagination_ok p cells :
  cells_ok cells ->
  let hv := usePagination p cells in
  hooks_ok hv.1 /\
  derived p (useState (Math_max 1 (default 1 (initialPage p))) (cell_currentPage <$> cells)) hv.2.
Proof.
  intros Hc.
  assert (Ht : forall (g : list Z -> Z) (proj : Hooks -> Memo),
    (forall h, hooks_ok h -> memo_ok g (proj h)) ->
    forall m, proj <$> cells = Some m -> memo_ok g m).
  { intros g proj Hg m Hm. destruct cells as [h|]; [|done].
    injection Hm as <-. apply Hg, Hc. done. }
  set (cp := useState _ _).
  pose proof (useMemo_value
    (fun _ => Math_max 1 (Math_ceil (div (totalItems p) (ipp_of p))))
    calc_totalPages [totalItems p; ipp_of p] (cell_totalPages <$> cells)
    eq_refl (Ht calc_totalPages cell_totalPages ltac:(by intros ? (?&?&?&?)))) as Htp.
  pose proof (useMemo_value
    (fun _ => (cp - 1) * ipp_of p)
    calc_startIndex [cp; ipp_of p] (cell_startIndex <$> cells)
    eq_refl (Ht calc_startIndex cell_startIndex ltac:(by intros ? (?&?&?&?)))) as Hsi.
  simpl in Htp, Hsi.
  cbv zeta. unfold usePagination. fold (ipp_of p). fold cp. cbv zeta. simpl.
  set (mtp := useMemo _ [totalItems p; ipp_of p] _) in *.
  set (msi := useMemo _ [cp; ipp_of p] _) in *.
  set (mei := useMemo _ [memo_value msi; _; _] _).
  set (mic := useMemo _ [memo_value mei; _] _).
  assert (Hei : memo_value mei = Math_min (memo_value msi + ipp_of p) (totalItems p)).
  { apply (useMemo_value _ calc_endIndex); [done|].
    apply (Ht calc_endIndex cell_endIndex). by intros ? (?&?&?&?). }
  assert (Hic : memo_value mic = memo_value mei - memo_value msi).
  { apply (useMemo_value _ calc_itemsOnCurrentPage); [done|].
    apply (Ht calc_itemsOnCurrentPage cell_itemsOnCurrentPage).
    by intros ? (?&?&?&?). }
  split.
  - unfold hooks_ok, memo_ok; simpl.
    subst mtp msi mei mic. rewrite !useMemo_deps; simpl.
    repeat split; try assumption.
  - split; simpl; try done.
Qed.


Lemma render_hooks_ok p cells :
  cells_ok cells -> hooks_ok (hooks (render p cells)).
Proof. intros Hc. exact (proj1 (usePagination_ok p cells Hc)). Qed.

Lemma render_view p cells :
  cells_ok cells ->
  derived p (cell_currentPage (hooks (render p cells))) (view (render p cells)).
Proof. intros Hc. exact (proj2 (usePagination_ok p cells Hc)). Qed.

Lemma render_again p cells :
  render p (Some (hooks (render p cells))) = render p cells.
Proof.
  unfold render, usePagination.
  cbv beta zeta iota delta [hooks fmap option_fmap option_map
    cell_currentPage cell_totalPages cell_startIndex cell_endIndex
    cell_itemsOnCurrentPage useState].
  rewrite !useMemo_again. reflexivity.
Qed.

Lemma rendered_render p cells : cells_ok cells -> rendered (render p cells).
Proof. intros Hc. exists cells. split; [done|]. reflexivity. Qed.

Lemma rendered_hooks_ok c : rendered c -> hooks_ok (hooks c).
Proof. intros (cells & Hc & ->). by apply render_hooks_ok. Qed.

Lemma rendered_view c :
  rendered c -> derived (props c) (cell_currentPage (hooks c)) (view c).
Proof. intros (cells & Hc & ->). by apply render_view. Qed.

Lemma rendered_again c : rendered c -> render (props c) (Some (hooks c)) = c.
Proof. intros (cells & Hc & ->). apply render_again. Qed.

Lemma cells_ok_Some h : hooks_ok h -> cells_ok (Some h).
Proof. intros Hh h' [= <-]. done. Qed.

Lemma hooks_ok_set h s : hooks_ok h -> hooks_ok (set_cell_currentPage h s).
Proof. intros Hh. exact Hh. Qed.

Lemma set_cell_same h : set_cell_currentPage h (cell_currentPage h) = h.
Proof. by destruct h. Qed.

Lemma rendered_step c e : rendered c -> rendered (step c e).
Proof.
  intros Hc. pose proof (rendered_hooks_ok c Hc) as Hh.
  destruct e as [calls|p]; simpl.
  - apply rendered_render, cells_ok_Some, hooks_ok_set, Hh.
  - apply rendered_render, cells_ok_Some, Hh.
Qed.

Lemma rendered_run c es : rendered c -> rendered (run c es).
Proof.
  revert c. induction es as [|e es IH]; intros c Hc; [done|].
  simpl. apply IH, rendered_step, Hc.
Qed.

Lemma rendered_mount p : rendered (mount p).
Proof. apply rendered_render. intros h [=]. Qed.

Lemma rendered_reachable p es : rendered (run (mount p) es).
Proof. apply rendered_run, rendered_mount. Qed.

Lemma totalPages_least (a b n : Z) :
  0 < b ->
  Math_max 1 (Math_ceil (div a b)) <= n <-> 1 <= n /\ a <= n * b.
Proof.
  intros Hb. unfold Math_max.
  rewrite <- (Math_ceil_div_le a b n Hb). lia.
Qed.

Lemma handle_currentPage c calls :
  currentPage (view (handle c calls)) =
  reduce_queue (cell_currentPage (hooks c)) (flat_map (invoke (view c)) calls).
Proof. reflexivity. Qed.


Lemma handle_nothing c calls :
  rendered c ->
  flat_map (invoke (view c)) calls = [] ->
  handle c calls = c.
Proof.
  intros Hc Hq. unfold handle. rewrite Hq. simpl.
  rewrite set_cell_same. by apply rendered_again.
Qed.

Lemma handle_totalPages c calls :
  rendered c -> totalPages (view (handle c calls)) = totalPages (view c).
Proof.
  intros Hc.
  pose proof (rendered_step c (Handler calls) Hc) as Hc'. simpl in Hc'.
  rewrite (d_totalPages _ _ _ (rendered_view _ Hc')).
  rewrite (d_totalPages _ _ _ (rendered_view _ Hc)). reflexivity.
Qed.

Lemma rendered_currentPage c :
  rendered c -> currentPage (view c) = cell_currentPage (hooks c).
Proof. intros Hc. exact (d_currentPage _ _ _ (rendered_view c Hc)). Qed.

Lemma handle_setPage c page :
  rendered c ->
  handle c [CallSetPage page] =
  render (props c)
    (Some (set_cell_currentPage (hooks c)
             (Z.max 1 (Z.min page (totalPages (view c)))))).
Proof.
  intros Hc. unfold handle. cbn [flat_map invoke].
  rewrite app_nil_r, (d_setPage _ _ _ (rendered_view c Hc)). reflexivity.
Qed.

Lemma slice_past_end {A : Type} (l : list A) (start : Z) :
  Z.of_nat (length l) <= start ->
  slice l start (Z.of_nat (length l)) = [].
Proof.
  intros Hs. unfold slice, relative_index.
  destruct (Z.ltb_spec start 0); [lia|].
  destruct (Z.ltb_spec (Z.of_nat (length l)) 0); [lia|].
  replace (Z.max _ 0) with 0 by lia. reflexivity.
Qed.

Lemma run_snoc c es e : run c (es ++ [e]) = step (run c es) e.
Proof. unfold run. by rewrite foldl_app. Qed.

(** The last state of an exact run is exact. *)
Lemma exact_run_last c es : exact_run c es -> exact (run c es).
Proof.
  revert c. induction es as [|e es IH]; intros c; simpl; [done|].
  intros (_ & _ & Hes). by apply IH.
Qed.



(** ** Initial page *)

(** C1 as stated fails.  An empty collection ([totalItems = 0],
    [itemsPerPage = 10], so [totalPages = 1]) mounted with
    [initialPage = 5] shows [currentPage = 5] right after construction:
    the page is above [totalPages]. *)
Lemma initial_page_not_bounded_above :
  let v := view (mount empty_from_5) in
  0 <= totalItems empty_from_5 /\
  1 <= ipp_of empty_from_5 /\
  currentPage v = 5 /\
  totalPages v = 1 /\
  ~ (1 <= currentPage v <= totalPages v).
Proof.
  cbv zeta.
  assert (Hcp : currentPage (view (mount empty_from_5)) = 5) by reflexivity.
  assert (Htp : totalPages (view (mount empty_from_5)) = 1) by reflexivity.
  rewrite Hcp, Htp. cbn. lia.
Qed.

(** C1, amended.  At initialisation every integer [initialPage] is
    accepted and the initial [currentPage] is [max(1, initialPage)]: for
    [totalItems >= 0] and [itemsPerPage >= 1] it is at least 1, and it is
    at most [totalPages] exactly when [initialPage] is; no upper bound is
    applied at construction. *)
Theorem initial_page_clamped_below (p : UsePaginationProps) :
  0 <= totalItems p -> 1 <= ipp_of p ->
  let v := view (mount p) in
  currentPage v = Z.max 1 (default 1 (initialPage p)) /\
  1 <= currentPage v /\
  (currentPage v <= totalPages v <-> default 1 (initialPage p) <= totalPages v).
Proof.
  intros Hti Hipp v.
  destruct (rendered_view _ (rendered_mount p)) as [Hcp Htp _ _ _ _ _ _ _ _].
  fold v in Hcp, Htp. change (props (mount p)) with p in Htp.
  assert (currentPage v = Z.max 1 (default 1 (initialPage p))) as E
    by reflexivity.
  unfold Math_max in Htp. lia.
Qed.

Lemma initial_page_clamped_below_witness :
  let v := view (mount empty_from_5) in
  currentPage v = Z.max 1 (default 1 (initialPage empty_from_5)) /\
  1 <= currentPage v /\
  (currentPage v <= totalPages v <->
   default 1 (initialPage empty_from_5) <= totalPages v).
Proof. apply (initial_page_clamped_below empty_from_5); cbn; lia. Defined.

(** ** Derived values *)

(** C3.  For [totalItems >= 0] and [itemsPerPage >= 1] that are safe
    integers ([totalItems + itemsPerPage <= 2^53 - 1], where the
    quotient of the source rounds to the right side of every integer),
    in every state of the caller, [totalPages] is
    [max(1, ceil(totalItems / itemsPerPage))]: the least [n >= 1] with
    [totalItems <= n * itemsPerPage]; it is 1 for an empty collection. *)
Theorem totalPages_is_ceiling (p : UsePaginationProps) (es : list Event) :
  let c := run (mount p) es in
  let ti := totalItems (props c) in
  let ipp := ipp_of (props c) in
  exact_props (props c) ->
  totalPages (view c) = Z.max 1 (Qceiling (inject_Z ti / inject_Z ipp)) /\
  (forall n, totalPages (view c) <= n <-> 1 <= n /\ ti <= n * ipp) /\
  (ti = 0 -> totalPages (view c) = 1).
Proof.
  intros c ti ipp (Hti & Hipp & _). fold ti ipp in Hti, Hipp.
  destruct (rendered_view c (rendered_reachable p es))
    as [_ Htp _ _ _ _ _ _ _ _].
  fold ti ipp in Htp.
  assert (Hl := fun n => totalPages_least ti ipp n ltac:(lia)).
  rewrite <- Htp in Hl.
  split; [exact Htp|]. split; [exact Hl|].
  intros H0. pose proof (proj2 (Hl 1) ltac:(lia)).
  pose proof (proj1 (Hl (totalPages (view c))) ltac:(lia)). lia.
Qed.

Lemma totalPages_is_ceiling_witness :
  totalPages (view (mount demo)) = 5 /\
  totalPages (view (mount empty_from_5)) = 1.
Proof.
  split.
  - destruct (totalPages_is_ceiling demo []) as (E & _ & _);
      [exact_here|].
    exact E.
  - destruct (totalPages_is_ceiling empty_from_5 []) as (_ & _ & E);
      [exact_here|].
    apply E. reflexivity.
Defined.

(** C4.  In every state of a run on which the numbers are exact (at
    every render [totalItems >= 0], [itemsPerPage >= 1] and
    [totalItems + itemsPerPage <= 2^53 - 1]), on a valid page
    ([1 <= currentPage <= totalPages]):
    [startIndex = (currentPage - 1) * itemsPerPage],
    [endIndex = min(startIndex + itemsPerPage, totalItems)],
    [0 <= startIndex <= endIndex <= totalItems] and
    [endIndex - startIndex <= itemsPerPage]. *)
Theorem indices_in_range (p : UsePaginationProps) (es : list Event) :
  let c := run (mount p) es in
  let v := view c in
  let ti := totalItems (props c) in
  let ipp := ipp_of (props c) in
  exact_run (mount p) es ->
  1 <= currentPage v <= totalPages v ->
  startIndex v = (currentPage v - 1) * ipp /\
  endIndex v = Z.min (startIndex v + ipp) ti /\
  0 <= startIndex v <= endIndex v /\
  endIndex v <= ti /\
  endIndex v - startIndex v <= ipp.
Proof.
  intros c v ti ipp Hex Hcp.
  destruct (exact_run_last _ _ Hex) as [(Hti & Hipp & _) _].
  fold c ti ipp in Hti, Hipp.
  destruct (rendered_view c (rendered_reachable p es))
    as [Ecp Htp Hsi Hei _ _ _ _ _ _].
  fold v ti ipp in Ecp, Htp, Hsi, Hei. rewrite <- Ecp in Hsi.
  unfold Math_min in Hei.
  pose proof (proj1 (totalPages_least ti ipp (totalPages v) ltac:(lia))
                ltac:(lia)) as [_ Hup].
  assert (Hlow : (totalPages v - 1) * ipp < ti \/ totalPages v = 1).
  { destruct (Z.eq_dec (totalPages v) 1) as [|Hne]; [by right|left].
    destruct (Z_lt_le_dec ((totalPages v - 1) * ipp) ti) as [|Hge]; [done|].
    pose proof (proj2 (totalPages_least ti ipp (totalPages v - 1) ltac:(lia))
                  ltac:(unfold Math_max in Htp; lia)).
    lia. }
  split; [exact Hsi|]. split; [exact Hei|].
  assert (startIndex v <= ti) by (destruct Hlow; nia).
  assert (0 <= startIndex v) by nia.
  lia.
Qed.

Lemma indices_in_range_witness :
  let v := view (run (mount demo) [Handler [CallSetPage 5]]) in
  startIndex v = (currentPage v - 1) * 10 /\
  endIndex v = Z.min (startIndex v + 10) 47 /\
  0 <= startIndex v <= endIndex v /\
  endIndex v <= 47 /\
  endIndex v - startIndex v <= 10.
Proof.
  apply (indices_in_range demo [Handler [CallSetPage 5]]);
    [exact_here | split; intros H; vm_compute in H; discriminate H].
Defined.

(** ** Navigation *)

(** C5.  In every state of the caller whose props are exact
    ([totalItems >= 0], [itemsPerPage >= 1],
    [totalItems + itemsPerPage <= 2^53 - 1]: [totalPages] is then a
    number from 1 on) and for every integer [page], [setPage(page)]
    leaves [currentPage = max(1, min(page, totalPages))], which lies in
    [1, totalPages]; the call is a total function of its argument
    (nothing is raised for a page out of range); and calling it again
    with the same [page], after the render that followed or inside the
    same event handler, leaves the same state as calling it once. *)
Theorem setPage_clamps (p : UsePaginationProps) (es : list Event) (page : Z) :
  let c := run (mount p) es in
  let c' := handle c [CallSetPage page] in
  exact_props (props c) ->
  currentPage (view c') = Z.max 1 (Z.min page (totalPages (view c))) /\
  1 <= currentPage (view c') <= totalPages (view c') /\
  handle c' [CallSetPage page] = c' /\
  handle c [CallSetPage page; CallSetPage page] = c'.
Proof.
  intros c c' _.
  pose proof (rendered_reachable p es) as Hc. fold c in Hc.
  pose proof (rendered_step c (Handler [CallSetPage page]) Hc) as Hc'.
  simpl in Hc'. fold c' in Hc'.
  pose proof (rendered_view c Hc) as D.
  pose proof (rendered_view c' Hc') as D'.
  assert (Ecur : currentPage (view c') =
                 Z.max 1 (Z.min page (totalPages (view c)))).
  { unfold c'. rewrite handle_currentPage. simpl.
    rewrite app_nil_r, (d_setPage _ _ _ D). reflexivity. }
  assert (Etp : totalPages (view c') = totalPages (view c))
    by apply handle_totalPages, Hc.
  split; [exact Ecur|]. split.
  { pose proof (d_totalPages _ _ _ D) as Htp. unfold Math_max in Htp. lia. }
  split.
  - rewrite (handle_setPage c' page Hc').
    rewrite Etp, <- Ecur, (rendered_currentPage c' Hc').
    rewrite set_cell_same. by apply rendered_again.
  - unfold c', handle. simpl. rewrite (d_setPage _ _ _ D). reflexivity.
Qed.

Lemma setPage_clamps_witness :
  let c' := handle (mount demo) [CallSetPage 9] in
  currentPage (view c') = 5 /\ handle c' [CallSetPage 9] = c'.
Proof.
  cbv zeta.
  destruct (setPage_clamps demo [] 9) as (E & _ & Hsame & _); [exact_here|].
  split; [exact E|exact Hsame].
Defined.

(** C9.  In every state of a run on which the numbers are exact (the
    props at every render, and every page a safe integer):
    [nextPage()] changes nothing when [canNextPage] is false, as it is
    at [currentPage = totalPages], and otherwise adds exactly 1 to
    [currentPage]; [prevPage()] changes nothing when [canPrevPage] is
    false, as it is at [currentPage = 1], and otherwise subtracts exactly
    1.  In the two no-op cases the whole component is unchanged. *)
Theorem nextPage_prevPage_guarded (p : UsePaginationProps) (es : list Event) :
  let c := run (mount p) es in
  let v := view c in
  exact_run (mount p) es ->
  (canNextPage v = (currentPage v <? totalPages v)) /\
  (canPrevPage v = (currentPage v >? 1)) /\
  (currentPage v = totalPages v -> handle c [CallNextPage] = c) /\
  (canNextPage v = false -> handle c [CallNextPage] = c) /\
  (canNextPage v = true ->
     currentPage (view (handle c [CallNextPage])) = currentPage v + 1) /\
  (currentPage v = 1 -> handle c [CallPrevPage] = c) /\
  (canPrevPage v = false -> handle c [CallPrevPage] = c) /\
  (canPrevPage v = true ->
     currentPage (view (handle c [CallPrevPage])) = currentPage v - 1).
Proof.
  intros c v _.
  pose proof (rendered_reachable p es) as Hc. fold c in Hc.
  destruct (rendered_view c Hc) as [Ecp _ _ _ _ Hprev Hnext _ Hn Hp].
  fold v in Ecp, Hprev, Hnext, Hn, Hp. rewrite <- Ecp in *.
  assert (Nn : canNextPage v = false -> handle c [CallNextPage] = c).
  { intros Hf. apply handle_nothing; [done|]. simpl. fold v.
    rewrite Hn, <- Hnext, Hf. reflexivity. }
  assert (Np : canPrevPage v = false -> handle c [CallPrevPage] = c).
  { intros Hf. apply handle_nothing; [done|]. simpl. fold v.
    rewrite Hp, <- Hprev, Hf. reflexivity. }
  repeat split; try assumption.
  - intros E. apply Nn. rewrite Hnext. lia.
  - intros Ht. rewrite handle_currentPage. simpl. fold v.
    rewrite Hn, <- Hnext, Ht. simpl. by rewrite Ecp.
  - intros E. apply Np. rewrite Hprev. lia.
  - intros Ht. rewrite handle_currentPage. simpl. fold v.
    rewrite Hp, <- Hprev, Ht. simpl. by rewrite Ecp.
Qed.

Lemma nextPage_prevPage_guarded_witness :
  handle (mount demo) [CallPrevPage] = mount demo /\
  currentPage (view (handle (mount demo) [CallNextPage])) = 2.
Proof.
  destruct (nextPage_prevPage_guarded demo [])
    as (_ & _ & _ & _ & Hnext & Hprev & _ & _); [exact_here|].
  split; [apply Hprev; reflexivity | apply Hnext; reflexivity].
Defined.

(** ** Props that change under the caller *)

(** C8.  When the parent passes other [totalItems] or [itemsPerPage],
    [currentPage] is what it was, also when it now exceeds [totalPages],
    and the two flags compare it with 1 and with the new [totalPages].
    Where the numbers are exact (the run up to and with the new props
    is, and the indices of the old page under the new props are safe
    integers) the derived values are those of the new props and the old
    page; and when the page exceeds [totalPages] there is no next page,
    [startIndex] is at or past the end of the collection, [endIndex] is
    [totalItems], and [slice(startIndex, endIndex)] of the collection is
    empty. *)
Theorem props_change_keeps_currentPage
    (p : UsePaginationProps) (es : list Event) (p' : UsePaginationProps) :
  let c := run (mount p) es in
  let v := view c in
  let v' := view (update_props c p') in
  let ti := totalItems p' in
  let ipp := ipp_of p' in
  currentPage v' = currentPage v /\
  canNextPage v' = (currentPage v <? totalPages v') /\
  canPrevPage v' = (currentPage v >? 1) /\
  (exact_run (mount p) (es ++ [NewProps p']) ->
   exact_page p' (currentPage v) ->
   totalPages v' = Z.max 1 (Qceiling (inject_Z ti / inject_Z ipp)) /\
   startIndex v' = (currentPage v - 1) * ipp /\
   endIndex v' = Z.min (startIndex v' + ipp) ti /\
   itemsOnCurrentPage v' = endIndex v' - startIndex v' /\
   (totalPages v' < currentPage v ->
    canNextPage v' = false /\
    ti <= startIndex v' /\ endIndex v' = ti /\
    forall (A : Type) (items : list A),
      Z.of_nat (length items) = ti ->
      slice items (startIndex v') (endIndex v') = [])).
Proof.
  intros c v v' ti ipp.
  pose proof (rendered_reachable p es) as Hc. fold c in Hc.
  pose proof (rendered_step c (NewProps p') Hc) as Hc'. simpl in Hc'.
  destruct (rendered_view _ Hc') as [Ecp Htp Hsi Hei Hic Hprev Hnext _ _ _].
  fold v' in Ecp, Htp, Hsi, Hei, Hic, Hprev, Hnext.
  change (props (update_props c p')) with p' in *. fold ti ipp in Htp, Hsi, Hei.
  assert (E : currentPage v' = currentPage v).
  { unfold v. rewrite (rendered_currentPage c Hc). reflexivity. }
  rewrite <- Ecp, E in Hsi, Hprev, Hnext.
  do 3 (split; [assumption|]).
  intros Hex _.
  destruct (exact_run_last _ _ Hex) as [(Hti & Hipp & _) _].
  rewrite run_snoc in Hti, Hipp. cbn [step] in Hti, Hipp.
  change (props (update_props (run (mount p) es) p')) with p' in Hti, Hipp.
  fold ti ipp in Hti, Hipp.
  repeat (split; [assumption|]).
  intros Hgt.
  pose proof (proj1 (totalPages_least ti ipp (totalPages v') ltac:(lia))
                ltac:(unfold Math_max in *; lia)) as [H1 Hup].
  assert (Hs : ti <= startIndex v') by nia.
  assert (He : endIndex v' = ti) by (unfold Math_min in Hei; lia).
  split; [rewrite Hnext; lia|]. split; [exact Hs|]. split; [exact He|].
  intros A items Hlen. rewrite He, <- Hlen. apply slice_past_end. lia.
Qed.

Lemma props_change_keeps_currentPage_witness :
  let c := run (mount demo) [Handler [CallSetPage 5]] in
  let v' := view (update_props c shrunk) in
  currentPage v' = 5 /\
  totalPages v' = 1 /\
  slice [1; 2; 3; 4; 5] (startIndex v') (endIndex v') = [].
Proof.
  cbv zeta.
  destruct (props_change_keeps_currentPage
              demo [Handler [CallSetPage 5]] shrunk)
    as (Ecp & _ & _ & Hex).
  split; [exact Ecp|].
  destruct Hex as (Etp & _ & _ & _ & Hout);
    [exact_here | split; vm_compute; discriminate |].
  split; [exact Etp|].
  destruct Hout as (_ & _ & _ & Hslice); [vm_compute; reflexivity|].
  apply Hslice. reflexivity.
Defined.

End PaginationFacts.

(** * Facts about [useDebounce] *)

Section DebounceFacts.
Import Debounce.
Context {T : Type} `{EqDecision T}.
Implicit Types (w : World T) (tm : gmap nat (Timer T)).
Implicit Types (v : T) (l : list (Fired T)).

(** ** The next timer to fire *)


Lemma next_due_singleton i (t : Timer T) : next_due {[ i := t ]} = Some (i, t).
Proof. unfold next_due. by rewrite map_to_list_singleton. Qed.

Lemma pick_earlier_elem (l : list (nat * Timer T)) x :
  foldr pick_earlier None l = Some x -> x ∈ l.
Proof.
  revert x. induction l as [|a l IH]; intros x; simpl; [done|].
  unfold pick_earlier at 1.
  destruct (foldr pick_earlier None l) as [b|] eqn:E.
  - destruct (earlier a b); intros [= <-]; [left|right; by apply IH].
  - intros [= <-]. left.
Qed.

Lemma pick_earlier_None (l : list (nat * Timer T)) :
  foldr pick_earlier None l = None -> l = [].
Proof.
  destruct l as [|a l]; [done|]. simpl. unfold pick_earlier at 1.
  destruct (foldr pick_earlier None l) as [b|]; [|done].
  by destruct (earlier a b).
Qed.

Lemma pick_earlier_least (l : list (nat * Timer T)) x y :
  foldr pick_earlier None l = Some x -> y ∈ l -> due x.2 <= due y.2.
Proof.
  revert x. induction l as [|a l IH]; intros x; simpl; [done|].
  unfold pick_earlier at 1.
  destruct (foldr pick_earlier None l) as [b|] eqn:E.
  - intros Hx Hy.
    assert (Hab : earlier a b = true -> due a.2 <= due b.2).
    { unfold earlier. intros [?%Z.ltb_lt|[?%Z.eqb_eq _]%andb_true_iff]%orb_true_iff; lia. }
    assert (Hba : earlier a b = false -> due b.2 <= due a.2).
    { unfold earlier. intros [?%Z.ltb_ge _]%orb_false_iff. lia. }
    apply elem_of_cons in Hy as [->|Hy].
    + destruct (earlier a b) eqn:Eab; injection Hx as <-; [lia|]. by apply Hba.
    + specialize (IH b eq_refl Hy).
      destruct (earlier a b) eqn:Eab; injection Hx as <-; [|done].
      specialize (Hab eq_refl). lia.
  - intros [= <-] Hy. apply pick_earlier_None in E. subst l.
    apply list_elem_of_singleton in Hy as ->. lia.
Qed.

Lemma next_due_Some tm i t :
  next_due tm = Some (i, t) -> tm !! i = Some t.
Proof. intros Hn. by apply elem_of_map_to_list, pick_earlier_elem. Qed.

Lemma next_due_None tm : next_due tm = None -> tm = ∅.
Proof. intros Hn. by apply map_to_list_empty_iff, pick_earlier_None. Qed.

Lemma next_due_least tm i t j u :
  next_due tm = Some (i, t) -> tm !! j = Some u -> due t <= due u.
Proof.
  intros Hn Hj. apply elem_of_map_to_list in Hj.
  exact (pick_earlier_least _ (i, t) (j, u) Hn Hj).
Qed.
(** ** The invariants hold along every run *)

Lemma invariant_init t0 h0 : invariant (init (T:=T) t0 h0).
Proof.
  split; [|split].
  - intros i t. simpl. by rewrite lookup_empty.
  - reflexivity.
  - intros f Hf. simpl in Hf. by apply elem_of_nil in Hf.
Qed.

Lemma invariant_run_callback w i t :
  timers (host w) !! i = Some t ->
  invariant w -> invariant (run_callback i t w).
Proof.
  intros Hi (Hfresh & Hown & Hlog). split; [|split].
  - intros j u. simpl. intros Hj%lookup_delete_Some. apply (Hfresh j u), Hj.
  - unfold timers_owned in *. simpl.
    destruct (inst w) as [|c|]; simpl.
    + rewrite Hown. apply delete_empty.
    + split; [apply Hown|].
      intros j u Hj%lookup_delete_Some. apply (proj2 Hown j u), Hj.
    + rewrite Hown. apply delete_empty.
  - intros f. simpl. intros [Hf|Hf%list_elem_of_singleton]%elem_of_app.
    + destruct (Hlog f Hf) as [? Hn]. split; [done|].
      apply lookup_delete_None. by right.
    + subst f. simpl. split; [by apply (Hfresh i t)|].
      apply lookup_delete_eq.
Qed.

Lemma invariant_fire_due fuel limit w :
  invariant w -> invariant (fire_due fuel limit w).
Proof.
  revert w. induction fuel as [|fuel IH]; intros w Hw; simpl; [done|].
  destruct (next_due (timers (host w))) as [[i t]|] eqn:Hn; [|done].
  destruct (due t <=? limit); [|done].
  apply IH, invariant_run_callback; [|done]. by apply next_due_Some.
Qed.

Lemma invariant_run_effect v d vd (h : Host T) l :
  (forall i t, timers h !! i = Some t -> (i < next_handle h)%nat) ->
  timers h = ∅ ->
  (forall f, f ∈ l -> (fired_handle f < next_handle h)%nat) ->
  invariant (run_effect v d vd h l).
Proof.
  intros Hfresh Hempty Hlog. unfold run_effect. simpl. split; [|split].
  - intros i t. simpl. intros [[<- _]|[_ Hi]]%lookup_insert_Some; [lia|].
    specialize (Hfresh i t Hi). lia.
  - split; [simpl; lia|]. intros i t. simpl. rewrite Hempty.
    intros [[<- _]|[_ Hi]]%lookup_insert_Some; [done|].
    by rewrite lookup_empty in Hi.
  - intros f Hf. simpl. specialize (Hlog f Hf). split; [lia|].
    rewrite Hempty. apply lookup_insert_None. split; [apply lookup_empty|lia].
Qed.

Lemma owned_cleared w c :
  inst w = Mounted c -> timers_owned w ->
  delete (effect_cleanup c) (timers (host w)) = ∅.
Proof.
  intros Hi Hown. unfold timers_owned in Hown. rewrite Hi in Hown.
  destruct Hown as [_ Hown]. apply map_empty. intros i. apply lookup_delete_None.
  destruct (timers (host w) !! i) as [t|] eqn:E; [|by right].
  left. symmetry. by apply (Hown i t).
Qed.

Lemma invariant_step w e w' :
  step w e = Some w' -> invariant w -> invariant w'.
Proof.
  intros Hs Hw. pose proof Hw as (Hfresh & Hown & Hlog).
  destruct e as [v delay|dt|]; simpl in Hs.
  - unfold useDebounce in Hs.
    destruct (inst w) as [|c|] eqn:Hi; simpl in Hs; [| |done].
    + injection Hs as <-. unfold timers_owned in Hown. rewrite Hi in Hown.
      apply invariant_run_effect; [done..|].
      intros f Hf. apply (Hlog f Hf).
    + case_bool_decide; simpl in Hs; injection Hs as <-; [done|].
      apply invariant_run_effect; simpl.
      * intros i t Hd%lookup_delete_Some. apply (Hfresh i t), Hd.
      * by apply owned_cleared.
      * intros f Hf. apply (Hlog f Hf).
  - unfold elapse in Hs. destruct (dt <? 0); [done|]. injection Hs as <-.
    pose proof (invariant_fire_due (size (timers (host w)))
                  (now (host w) + dt) w Hw) as (Hf' & Ho' & Hl').
    split; [|split]; [exact Hf'|exact Ho'|exact Hl'].
  - unfold unmount in Hs.
    destruct (inst w) as [|c|] eqn:Hi; [done| |done]. injection Hs as <-.
    split; [|split].
    + intros i t. simpl. intros Hd%lookup_delete_Some. apply (Hfresh i t), Hd.
    + unfold timers_owned. simpl. by apply owned_cleared.
    + intros f Hf. simpl. destruct (Hlog f Hf) as [? Hn]. split; [done|].
      apply lookup_delete_None. by right.
Qed.

Lemma invariant_run w es w' :
  run w es = Some w' -> invariant w -> invariant w'.
Proof.
  revert w. induction es as [|e es IH]; intros w; simpl.
  - by intros [= <-].
  - destruct (step w e) as [w1|] eqn:Hs; [|done].
    intros Hr Hw. apply (IH w1 Hr). by apply (invariant_step w e).
Qed.

Lemma invariant_reachable w : reachable w -> invariant w.
Proof.
  intros (t0 & h0 & es & Hr). apply (invariant_run _ _ _ Hr), invariant_init.
Qed.

Lemma owned_at_most_one w : timers_owned w -> (size (timers (host w)) <= 1)%nat.
Proof.
  unfold timers_owned. destruct (inst w) as [|c|].
  - intros ->. rewrite map_size_empty. lia.
  - intros [_ Hown].
    destruct (timers (host w) !! effect_cleanup c) as [t|] eqn:E.
    + assert (timers (host w) = {[ effect_cleanup c := t ]}) as ->.
      { apply map_eq. intros i.
        destruct (decide (i = effect_cleanup c)) as [->|Hne].
        - by rewrite lookup_singleton_eq.
        - rewrite lookup_singleton_ne by done.
          destruct (timers (host w) !! i) as [u|] eqn:Ei; [|done].
          exfalso. apply Hne. by apply (Hown i u). }
      rewrite map_size_singleton. lia.
    + assert (timers (host w) = ∅) as ->.
      { apply map_empty. intros i.
        destruct (timers (host w) !! i) as [u|] eqn:Ei; [|done].
        rewrite (Hown i u Ei) in Ei. congruence. }
      rewrite map_size_empty. lia.
  - intros ->. rewrite map_size_empty. lia.
Qed.
(** ** Time passing *)

Lemma fire_due_complete fuel limit w :
  (size (timers (host w)) <= fuel)%nat ->
  forall i t, timers (host (fire_due fuel limit w)) !! i = Some t ->
    limit < due t.
Proof.
  revert w. induction fuel as [|fuel IH]; intros w Hsz i t; simpl.
  - assert (timers (host w) = ∅) as -> by (apply map_size_empty_inv; lia).
    by rewrite lookup_empty.
  - destruct (next_due (timers (host w))) as [[j u]|] eqn:Hn.
    + destruct (Z.leb_spec (due u) limit) as [Hle|Hgt].
      * apply IH. simpl.
        rewrite map_size_delete_Some by (rewrite (next_due_Some _ _ _ Hn); eauto).
        lia.
      * intros Hi. pose proof (next_due_least _ _ _ _ _ Hn Hi). lia.
    + rewrite (next_due_None _ Hn). by rewrite lookup_empty.
Qed.

Lemma elapse_fires_all_due dt w w' :
  elapse dt w = Some w' ->
  forall i t, timers (host w') !! i = Some t -> now (host w') < due t.
Proof.
  unfold elapse. destruct (dt <? 0); [done|]. intros [= <-] i t. simpl.
  by apply fire_due_complete.
Qed.

Lemma elapse_total dt w : 0 <= dt -> is_Some (elapse dt w).
Proof.
  intros Hdt. unfold elapse. destruct (Z.ltb_spec dt 0); [lia|]. eauto.
Qed.

(** Handles that are no longer pending never fire. *)
Lemma spent_run_callback w i t h :
  i <> h ->
  timers (host w) !! h = None ->
  timers (host (run_callback i t w)) !! h = None /\
  forall f, f ∈ log (run_callback i t w) -> fired_handle f = h -> f ∈ log w.
Proof.
  intros Hne Hh. split.
  - simpl. apply lookup_delete_None. by right.
  - intros f. simpl. intros [Hf|Hf%list_elem_of_singleton]%elem_of_app; [done|].
    subst f. simpl. done.
Qed.

Lemma spent_fire_due fuel limit w h :
  timers (host w) !! h = None ->
  timers (host (fire_due fuel limit w)) !! h = None /\
  next_handle (host (fire_due fuel limit w)) = next_handle (host w) /\
  forall f, f ∈ log (fire_due fuel limit w) -> fired_handle f = h -> f ∈ log w.
Proof.
  revert w. induction fuel as [|fuel IH]; intros w Hh; simpl; [done|].
  destruct (next_due (timers (host w))) as [[i t]|] eqn:Hn; [|done].
  destruct (due t <=? limit); [|done].
  assert (i <> h) as Hne.
  { intros ->. apply next_due_Some in Hn. congruence. }
  destruct (spent_run_callback w i t h Hne Hh) as [Hh' Hlog'].
  destruct (IH (run_callback i t w) Hh') as (H1 & H2 & H4).
  repeat split; [exact H1|exact H2|].
  intros f Hf Hfh. apply Hlog'; [|done]. by apply H4.
Qed.

Lemma fire_due_next_handle fuel limit w :
  next_handle (host (fire_due fuel limit w)) = next_handle (host w).
Proof.
  revert w. induction fuel as [|fuel IH]; intros w; simpl; [done|].
  destruct (next_due (timers (host w))) as [[i t]|]; [|done].
  destruct (due t <=? limit); [|done]. by rewrite IH.
Qed.

Lemma step_next_handle w e w' :
  step w e = Some w' ->
  (next_handle (host w) <= next_handle (host w'))%nat.
Proof.
  intros Hs. destruct e as [v delay|dt|]; simpl in Hs.
  - unfold useDebounce in Hs.
    destruct (inst w) as [|c|]; simpl in Hs; [| |done].
    + injection Hs as <-. simpl. lia.
    + case_bool_decide; simpl in Hs; injection Hs as <-; simpl; lia.
  - unfold elapse in Hs. destruct (dt <? 0); [done|]. injection Hs as <-.
    simpl. by rewrite fire_due_next_handle.
  - unfold unmount in Hs. destruct (inst w) as [|c|]; [done| |done].
    by injection Hs as <-.
Qed.

Lemma spent_step w e w' h :
  step w e = Some w' ->
  (h < next_handle (host w))%nat ->
  timers (host w) !! h = None ->
  (h < next_handle (host w'))%nat /\
  timers (host w') !! h = None /\
  forall f, f ∈ log w' -> fired_handle f = h -> f ∈ log w.
Proof.
  intros Hs Hlt Hh. destruct e as [v delay|dt|]; simpl in Hs.
  - unfold useDebounce in Hs.
    destruct (inst w) as [|c|]; simpl in Hs; [| |done].
    + injection Hs as <-. unfold run_effect. simpl. split; [lia|].
      split; [|done]. apply lookup_insert_None. split; [done|lia].
    + case_bool_decide; simpl in Hs; injection Hs as <-; [done|].
      unfold run_effect. simpl. split; [lia|]. split; [|done].
      apply lookup_insert_None. split; [|lia].
      apply lookup_delete_None. by right.
  - unfold elapse in Hs. destruct (dt <? 0); [done|]. injection Hs as <-.
    simpl.
    destruct (spent_fire_due (size (timers (host w))) (now (host w) + dt) w h Hh)
      as (H1 & H2 & H4).
    rewrite H2. done.
  - unfold unmount in Hs. destruct (inst w) as [|c|]; [done| |done].
    injection Hs as <-. simpl. split; [done|]. split; [|done].
    apply lookup_delete_None. by right.
Qed.

Lemma spent_run w es w' h :
  run w es = Some w' ->
  (h < next_handle (host w))%nat ->
  timers (host w) !! h = None ->
  forall f, f ∈ log w' -> fired_handle f = h -> f ∈ log w.
Proof.
  revert w. induction es as [|e es IH]; intros w; simpl.
  - by intros [= <-].
  - destruct (step w e) as [w1|] eqn:Hs; [|done].
    intros Hr Hlt Hh f Hf Hfh.
    destruct (spent_step w e w1 h Hs Hlt Hh) as (Hlt1 & Hh1 & Hl1).
    apply Hl1; [|done]. by apply (IH w1 Hr Hlt1 Hh1).
Qed.

Lemma discarded_step w e w' :
  inst w = Discarded -> timers (host w) = ∅ ->
  step w e = Some w' ->
  inst w' = Discarded /\ timers (host w') = ∅ /\ log w' = log w.
Proof.
  intros Hi Hm Hs. destruct e as [v delay|dt|]; simpl in Hs.
  - unfold useDebounce in Hs. by rewrite Hi in Hs.
  - unfold elapse in Hs. destruct (dt <? 0); [done|]. injection Hs as <-.
    rewrite Hm, map_size_empty. simpl. done.
  - unfold unmount in Hs. by rewrite Hi in Hs.
Qed.

Lemma discarded_run w es w' :
  inst w = Discarded -> timers (host w) = ∅ ->
  run w es = Some w' ->
  inst w' = Discarded /\ timers (host w') = ∅ /\ log w' = log w.
Proof.
  revert w. induction es as [|e es IH]; intros w Hi Hm; simpl.
  - by intros [= <-].
  - destruct (step w e) as [w1|] eqn:Hs; [|done]. intros Hr.
    destruct (discarded_step w e w1 Hi Hm Hs) as (Hi1 & Hm1 & Hl1).
    destruct (IH w1 Hi1 Hm1 Hr) as (? & ? & ?). rewrite <- Hl1. done.
Qed.
(** ** The log only grows, and the state is its last entry *)








Lemma last_default_or_elem (xs : list T) (d : T) :
  List.last xs d = d \/ List.last xs d ∈ xs.
Proof.
  induction xs as [|x xs IH]; [by left|].
  destruct xs as [|y xs]; [right; left|].
  change (List.last (x :: y :: xs) d) with (List.last (y :: xs) d).
  destruct IH as [IH|IH]; [by left|right; by right].
Qed.

(** ** Pending and settled trackers *)

Lemma mount_pending t0 h0 v delay :
  useDebounce v delay (init t0 h0) =
  Some (v, pending (default 500 delay) t0 t0 h0 v v []).
Proof. unfold useDebounce, run_effect, pending. simpl. by rewrite insert_empty. Qed.

Lemma elapse_pending d tn ts h v vd l dt :
  0 <= dt ->
  elapse dt (pending d tn ts h v vd l) =
  Some (if bool_decide (ts + Z.max 0 d <= tn + dt)
        then settled d (tn + dt) h v
               (l ++ [{| fired_at := Z.max tn (ts + Z.max 0 d);
                         fired_handle := h;
                         fired_value := v |}])
        else pending d (tn + dt) ts h v vd l).
Proof.
  intros Hdt. unfold elapse. destruct (Z.ltb_spec dt 0); [lia|].
  unfold pending at 1 2 3. simpl. rewrite map_size_singleton. simpl.
  rewrite next_due_singleton. simpl.
  case_bool_decide as Hd.
  - rewrite (proj2 (Z.leb_le _ _) Hd). unfold run_callback, settled. simpl.
    by rewrite delete_singleton_eq.
  - rewrite (proj2 (Z.leb_gt _ _)) by lia. reflexivity.
Qed.


Lemma render_pending d tn ts h v vd l v' delay :
  default 500 delay = d -> v <> v' ->
  useDebounce v' delay (pending d tn ts h v vd l) =
  Some (vd, pending d tn tn (S h) v' vd l).
Proof.
  intros <- Hne. unfold useDebounce, pending. simpl.
  rewrite bool_decide_eq_false_2 by congruence.
  unfold run_effect. simpl. by rewrite delete_singleton_eq, insert_empty.
Qed.


Lemma render_same_pending d tn ts h v vd l delay :
  default 500 delay = d ->
  useDebounce v delay (pending d tn ts h v vd l) =
  Some (vd, pending d tn ts h v vd l).
Proof.
  intros <-. unfold useDebounce, pending. simpl.
  by rewrite bool_decide_eq_true_2.
Qed.

Lemma run_app w es1 es2 :
  run w (es1 ++ es2) =
  match run w es1 with Some w' => run w' es2 | None => None end.
Proof.
  revert w. induction es1 as [|e es1 IH]; intros w; simpl; [done|].
  destruct (step w e); [apply IH|done].
Qed.

(** Changes that follow each other within the delay each replace the
    pending timer, and none of the replaced timers fires. *)
Lemma run_changes delay cs :
  let d := default 500 delay in
  forall tn h v vd l,
    Forall (fun c => 0 <= c.1 < Z.max 0 d) cs ->
    changing v (cs.*2) ->
    run (pending d tn tn h v vd l) (changes delay cs) =
    Some (pending d (tn + total_gap cs) (tn + total_gap cs)
            (h + length cs) (last_value v cs) vd l).
Proof.
  intros d. induction cs as [|[g v'] cs IH]; intros tn h v vd l Hg Hv.
  - simpl. by rewrite Z.add_0_r, Nat.add_0_r.
  - apply Forall_cons in Hg as [Hg Hgs]. simpl in Hg, Hv.
    destruct Hv as [Hne Hv].
    cbn [changes flat_map app run step fst snd].
    rewrite elapse_pending by lia.
    rewrite bool_decide_eq_false_2 by lia.
    cbn [step]. rewrite (render_pending d _ _ _ _ _ _ v' delay eq_refl Hne).
    cbn [fmap option_fmap option_map snd].
    fold (changes delay cs). rewrite IH by done.
    simpl. rewrite Z.add_assoc, Nat.add_succ_r. reflexivity.
Qed.

(** ** The first render *)

(** C10.  On its first invocation the hook returns the input value of
    that invocation: the debounced state starts as the initial input and
    no callback has run.  However much time then passes without a change
    of the input, a render with the same input still returns that value,
    and before the delay has elapsed no callback has run. *)
Theorem first_render_returns_input (t0 : Z) (h0 : nat) v (delay : option Z) :
  exists w,
    useDebounce v delay (init t0 h0) = Some (v, w) /\
    debouncedValue w = Some v /\
    log w = [] /\
    forall dt, 0 <= dt ->
      exists w',
        run w [Elapse dt] = Some w' /\
        useDebounce v delay w' = Some (v, w') /\
        (dt < Z.max 0 (default 500 delay) -> log w' = []).
Proof.
  rewrite mount_pending. eexists. split; [reflexivity|].
  split; [done|]. split; [done|]. intros dt Hdt.
  cbn [run step]. rewrite elapse_pending by done.
  case_bool_decide; eexists; (split; [reflexivity|]).
  - split; [|lia]. unfold useDebounce, settled. simpl.
    by rewrite bool_decide_eq_true_2.
  - split; [|done]. by apply render_same_pending.
Qed.

(** ** At most one pending timer *)

(** C6.  In every state a tracker can reach, at most one timer is
    pending.  On a render whose [value] or [delay] is not what it was,
    the cleanup leaves no timer pending before the effect schedules the
    new one, so afterwards the new timer is the only one and the handle
    of the previous one is not pending. *)
Theorem at_most_one_pending_timer w :
  reachable w ->
  (size (timers (host w)) <= 1)%nat /\
  forall c v delay,
    inst w = Mounted c ->
    effect_deps c <> (v, default 500 delay) ->
    timers (clearTimeout (effect_cleanup c) (host w)) = ∅ /\
    exists w',
      useDebounce v delay w = Some (cell_debouncedValue c, w') /\
      timers (host w') =
        {[ next_handle (host w) :=
             {| due := now (host w) + Z.max 0 (default 500 delay);
                captured := v |} ]} /\
      timers (host w') !! effect_cleanup c = None.
Proof.
  intros Hr. destruct (invariant_reachable w Hr) as (Hfresh & Hown & Hlog).
  split; [by apply owned_at_most_one|].
  intros c v delay Hi Hne.
  pose proof (owned_cleared w c Hi Hown) as Hclr.
  split; [exact Hclr|].
  unfold useDebounce. rewrite Hi. rewrite bool_decide_eq_false_2 by done.
  eexists. split; [reflexivity|]. unfold run_effect. simpl.
  rewrite Hclr, insert_empty. split; [done|].
  unfold timers_owned in Hown. rewrite Hi in Hown. destruct Hown as [Hlt _].
  apply lookup_singleton_ne. lia.
Qed.


(** ** Cancellation *)

(** C7.  Unmounting a tracker while a callback is pending cancels the
    callback: no timer is left, time can go on passing, and in whatever
    follows no callback runs (the log of callback executions stays as it
    was).  More generally, a callback that a render or the unmount
    cancelled never runs afterwards. *)
Theorem canceled_callback_never_fires w h (t : Timer T) :
  reachable w ->
  timers (host w) !! h = Some t ->
  (exists w',
     unmount w = Some w' /\
     timers (host w') = ∅ /\
     (forall dt, 0 <= dt -> is_Some (run w' [Elapse dt])) /\
     forall es w'', run w' es = Some w'' ->
       log w'' = log w /\ h ∉ fired_handles w'') /\
  (forall e w1,
     step w e = Some w1 ->
     (forall dt, e <> Elapse dt) ->
     timers (host w1) !! h = None ->
     forall es w2, run w1 es = Some w2 -> h ∉ fired_handles w2).
Proof.
  intros Hr Hh. destruct (invariant_reachable w Hr) as (Hfresh & Hown & Hlog).
  assert (Hnot : h ∉ fired_handles w).
  { unfold fired_handles. intros (f & -> & Hf)%list_elem_of_fmap.
    destruct (Hlog f Hf) as [_ Hn]. congruence. }
  split.
  - unfold unmount. unfold timers_owned in Hown.
    destruct (inst w) as [|c|] eqn:Hi;
      [rewrite Hown in Hh; by rewrite lookup_empty in Hh| |
       rewrite Hown in Hh; by rewrite lookup_empty in Hh].
    eexists. split; [reflexivity|].
    assert (Hclr : delete (effect_cleanup c) (timers (host w)) = ∅).
    { apply (owned_cleared w c Hi). unfold timers_owned. by rewrite Hi. }
    simpl. split; [exact Hclr|]. split.
    + intros dt Hdt. cbn [run step].
      destruct (elapse_total dt
        {| host := clearTimeout (effect_cleanup c) (host w);
           inst := Discarded; log := log w |} Hdt) as [w1 ->]. eauto.
    + intros es w'' Hrun.
      destruct (discarded_run
        {| host := clearTimeout (effect_cleanup c) (host w);
           inst := Discarded; log := log w |} es w'' eq_refl Hclr Hrun)
        as (_ & _ & Hl).
      simpl in Hl. split; [exact Hl|]. unfold fired_handles. by rewrite Hl.
  - intros e w1 Hs He Hgone es w2 Hrun.
    assert (Hlog1 : log w1 = log w).
    { destruct e as [v delay|dt|]; simpl in Hs.
      - unfold useDebounce in Hs.
        destruct (inst w) as [|c|]; simpl in Hs; [| |done].
        + by injection Hs as <-.
        + case_bool_decide; simpl in Hs; by injection Hs as <-.
      - by destruct (He dt).
      - unfold unmount in Hs. destruct (inst w); [done| |done].
        by injection Hs as <-. }
    pose proof (step_next_handle w e w1 Hs) as Hle.
    pose proof (Hfresh h t Hh) as Hlt.
    unfold fired_handles. intros (f & Hfh & Hf)%list_elem_of_fmap.
    apply Hnot. unfold fired_handles. apply list_elem_of_fmap.
    exists f. split; [done|]. rewrite <- Hlog1.
    apply (spent_run w1 es w2 h Hrun); [lia|done..].
Qed.


(** ** Settling *)

(** The first change of a burst: whatever timer was pending is cleared
    and the new one is the only one. *)
Lemma render_change w (c : Cells T) v delay :
  invariant w -> inst w = Mounted c ->
  effect_deps c <> (v, default 500 delay) ->
  useDebounce v delay w =
  Some (cell_debouncedValue c,
        pending (default 500 delay) (now (host w)) (now (host w))
          (next_handle (host w)) v (cell_debouncedValue c) (log w)).
Proof.
  intros (_ & Hown & _) Hi Hne. unfold useDebounce. rewrite Hi.
  rewrite bool_decide_eq_false_2 by done.
  unfold run_effect, pending, setTimeout, clearTimeout. simpl.
  by rewrite (owned_cleared w c Hi Hown), insert_empty.
Qed.

(** During the changes no callback runs and the hook goes on returning
    what it returned. *)
Lemma changes_prefix delay cs :
  let d := default 500 delay in
  forall tn h v vd l es1 es2 w1,
    Forall (fun g => 0 <= g.1 < Z.max 0 d) cs ->
    changing v (cs.*2) ->
    es1 ++ es2 = changes delay cs ->
    run (pending d tn tn h v vd l) es1 = Some w1 ->
    debouncedValue w1 = Some vd /\ log w1 = l.
Proof.
  intros d. induction cs as [|[g v'] cs IH];
    intros tn h v vd l es1 es2 w1 Hg Hv Hsplit Hrun.
  - apply app_eq_nil in Hsplit as [-> _]. by injection Hrun as <-.
  - apply Forall_cons in Hg as [Hg Hgs]. simpl in Hg, Hv.
    destruct Hv as [Hne Hv].
    change (changes delay ((g, v') :: cs))
      with (Elapse g :: Render v' delay :: changes delay cs) in Hsplit.
    destruct es1 as [|e1 es1]; [by injection Hrun as <-|].
    injection Hsplit as -> Hsplit.
    cbn [run step] in Hrun. rewrite elapse_pending in Hrun by lia.
    rewrite bool_decide_eq_false_2 in Hrun by lia.
    destruct es1 as [|e2 es1]; [by injection Hrun as <-|].
    injection Hsplit as -> Hsplit.
    cbn [run step] in Hrun.
    rewrite (render_pending d _ _ _ _ _ _ v' delay eq_refl Hne) in Hrun.
    cbn [fmap option_fmap option_map snd] in Hrun.
    by apply (IH (tn + g) (S h) v' vd l es1 es2 w1).
Qed.

(** C2.  In any state a mounted tracker can reach, whatever it returns
    there ([vd]) and whether or not a timer is pending: the input
    changes to [v1] and on through [cs], each change less than the delay
    after the one before it, and then [dt] passes.  The only callback
    that runs is that of the last change, exactly once, at the delay
    after the last change, if [dt] reaches that far; the timer that was
    pending at the start and the timers of the earlier changes never
    fire.  At the end the hook returns the last value if it has settled
    and [vd] if not; and at every point of the run it returns [vd] or
    the last value, never one in between. *)
Theorem only_last_value_settles (delay : option Z) w (c : Cells T)
    (v1 : T) (cs : list (Z * T)) (dt : Z) :
  let d := Z.max 0 (default 500 delay) in
  let vd := cell_debouncedValue c in
  let t_last := now (host w) + total_gap cs in
  let h_last := (next_handle (host w) + length cs)%nat in
  let v_last := last_value v1 cs in
  reachable w ->
  inst w = Mounted c ->
  effect_deps c <> (v1, default 500 delay) ->
  Forall (fun g => 0 <= g.1 < d) cs ->
  changing v1 (cs.*2) ->
  0 <= dt ->
  exists w',
    run w (Render v1 delay :: changes delay cs ++ [Elapse dt]) = Some w' /\
    log w' =
      log w ++
      (if bool_decide (d <= dt)
       then [{| fired_at := t_last + d;
                fired_handle := h_last;
                fired_value := v_last |}]
       else []) /\
    debouncedValue w' = Some (if bool_decide (d <= dt) then v_last else vd) /\
    forall es1 es2 w1,
      es1 ++ es2 = Render v1 delay :: changes delay cs ++ [Elapse dt] ->
      run w es1 = Some w1 ->
      debouncedValue w1 = Some vd \/ debouncedValue w1 = Some v_last.
Proof.
  intros d vd t_last h_last v_last Hr Hi Hne Hcs Hch Hdt.
  pose proof (render_change w c v1 delay (invariant_reachable w Hr) Hi Hne)
    as Hfirst. fold vd in Hfirst.
  set (w0 := pending (default 500 delay) (now (host w)) (now (host w))
               (next_handle (host w)) v1 vd (log w)) in Hfirst.
  assert (Hburst : run w0 (changes delay cs)
                   = Some (pending (default 500 delay) t_last t_last h_last
                             v_last vd (log w)))
    by (apply run_changes; done).
  assert (Hend : exists w',
    run w (Render v1 delay :: changes delay cs ++ [Elapse dt]) = Some w' /\
    log w' =
      log w ++
      (if bool_decide (d <= dt)
       then [{| fired_at := t_last + d;
                fired_handle := h_last;
                fired_value := v_last |}]
       else []) /\
    debouncedValue w' = Some (if bool_decide (d <= dt) then v_last else vd)).
  { cbn [run step]. rewrite Hfirst. cbn [fmap option_fmap option_map snd].
    rewrite run_app, Hburst. cbn [run step].
    rewrite elapse_pending by done. fold d.
    case_bool_decide; case_bool_decide; try lia;
      eexists; (split; [reflexivity|]).
    - simpl. by replace (Z.max _ _) with (t_last + d) by lia.
    - simpl. by rewrite app_nil_r. }
  destruct Hend as (w' & Hrun & Hlog & Hdv). exists w'.
  split; [exact Hrun|]. split; [exact Hlog|]. split; [exact Hdv|].
  intros es1 es2 w1 Hsplit Hrun1.
  destruct es1 as [|e es1].
  { injection Hrun1 as <-. left. unfold debouncedValue. by rewrite Hi. }
  injection Hsplit as -> Hsplit.
  cbn [run step] in Hrun1. rewrite Hfirst in Hrun1.
  cbn [fmap option_fmap option_map snd] in Hrun1.
  assert (Hprefix : (exists k, es1 ++ k = changes delay cs) \/
                    es1 = changes delay cs ++ [Elapse dt]).
  { apply app_eq_app in Hsplit as [k [[-> Hk]|[Hk _]]].
    - destruct k as [|e' k]; [left; exists []; by rewrite !app_nil_r|].
      injection Hk as <- Hk. symmetry in Hk.
      apply app_eq_nil in Hk as [-> _]. by right.
    - left. by exists k. }
  destruct Hprefix as [[k Hk]| ->].
  - left.
    apply (changes_prefix delay cs (now (host w)) (next_handle (host w))
             v1 vd (log w) es1 k w1 Hcs Hch Hk Hrun1).
  - assert (w1 = w') as ->.
    { cbn [run step] in Hrun. rewrite Hfirst in Hrun.
      cbn [fmap option_fmap option_map snd] in Hrun. congruence. }
    rewrite Hdv. case_bool_decide; [by right|by left].
Qed.


End DebounceFacts.

(** ** The sample session *)

Section DebounceExamples.
Import Debounce.

Lemma only_last_value_settles_witness :
  exists w',
    run typed (Render "abcd"%string None
                 :: changes None [(100, "abcde"%string)] ++ [Elapse 500])
    = Some w' /\
    log w' = [{| fired_at := 1000; fired_handle := 6;
                 fired_value := "abcde"%string |}] /\
    debouncedValue w' = Some "abcde"%string.
Proof.
  destruct (only_last_value_settles None typed
              {| cell_debouncedValue := ""%string;
                 effect_deps := ("abc"%string, 500);
                 effect_cleanup := 4 |}
              "abcd"%string [(100, "abcde"%string)] 500)
    as (w' & Hrun & Hlog & Hdv & _).
  - exists 0, 1%nat, typing_session. vm_compute. reflexivity.
  - reflexivity.
  - discriminate.
  - repeat constructor; simpl; lia.
  - simpl. split; [discriminate|exact I].
  - lia.
  - exists w'. split; [exact Hrun|]. split; [exact Hlog|exact Hdv].
Defined.

Lemma at_most_one_pending_timer_witness :
  (size (timers (host typed)) <= 1)%nat.
Proof.
  refine (proj1 (at_most_one_pending_timer typed _)).
  exists 0, 1%nat, typing_session. vm_compute. reflexivity.
Defined.

Lemma canceled_callback_never_fires_witness :
  exists w',
    unmount typed = Some w' /\
    timers (host w') = ∅ /\
    (forall dt, 0 <= dt -> is_Some (run w' [Elapse dt])) /\
    forall es w'', run w' es = Some w'' ->
      log w'' = log typed /\ 4%nat ∉ fired_handles w''.
Proof.
  refine (proj1 (canceled_callback_never_fires typed 4
                   {| due := 900; captured := "abc"%string |} _ _)).
  - exists 0, 1%nat, typing_session. vm_compute. reflexivity.
  - reflexivity.
Defined.

End DebounceExamples.

(** * More facts about [usePagination] and its callers *)

Section PaginationMore.
Import Js React Pagination PaginationRuns.

(** ** The result of a render depends on the props and the state only *)

Lemma useMemo_canonical f g d cell :
  f tt = g d ->
  (forall m, cell = Some m -> memo_ok g m) ->
  useMemo f d cell = {| memo_deps := d; memo_value := g d |}.
Proof.
  intros Hf Hc.
  pose proof (useMemo_deps f d cell) as Hd.
  pose proof (useMemo_value f g d cell Hf Hc) as Hv.
  destruct (useMemo f d cell) as [d' v']. simpl in Hd, Hv. by subst.
Qed.

Lemma cells_ok_proj (g : list Z -> Z) (proj : Hooks -> Memo) cells :
  cells_ok cells ->
  (forall h, hooks_ok h -> memo_ok g (proj h)) ->
  forall m, proj <$> cells = Some m -> memo_ok g m.
Proof.
  intros Hc Hg m Hm. destruct cells as [h|]; [|done].
  injection Hm as <-. by apply Hg, Hc.
Qed.

Lemma render_same_state p cells cells' :
  cells_ok cells -> cells_ok cells' ->
  useState (Math_max 1 (default 1 (initialPage p))) (cell_currentPage <$> cells)
  = useState (Math_max 1 (default 1 (initialPage p)))
      (cell_currentPage <$> cells') ->
  render p cells = render p cells'.
Proof.
  intros Hc Hc' Hs. unfold render, usePagination. cbv zeta. rewrite Hs.
  set (cp := useState _ (cell_currentPage <$> cells')).
  assert (Htp : forall cs, cells_ok cs ->
            forall m, cell_totalPages <$> cs = Some m ->
                      memo_ok calc_totalPages m).
  { intros cs H. apply (cells_ok_proj calc_totalPages cell_totalPages cs H).
    by intros ? (?&?&?&?). }
  assert (Hsi : forall cs, cells_ok cs ->
            forall m, cell_startIndex <$> cs = Some m ->
                      memo_ok calc_startIndex m).
  { intros cs H. apply (cells_ok_proj calc_startIndex cell_startIndex cs H).
    by intros ? (?&?&?&?). }
  assert (Hei : forall cs, cells_ok cs ->
            forall m, cell_endIndex <$> cs = Some m ->
                      memo_ok calc_endIndex m).
  { intros cs H. apply (cells_ok_proj calc_endIndex cell_endIndex cs H).
    by intros ? (?&?&?&?). }
  assert (Hic : forall cs, cells_ok cs ->
            forall m, cell_itemsOnCurrentPage <$> cs = Some m ->
                      memo_ok calc_itemsOnCurrentPage m).
  { intros cs H.
    apply (cells_ok_proj calc_itemsOnCurrentPage cell_itemsOnCurrentPage cs H).
    by intros ? (?&?&?&?). }
  rewrite (useMemo_canonical _ calc_totalPages _ (cell_totalPages <$> cells));
    [|reflexivity|by apply Htp].
  rewrite (useMemo_canonical _ calc_totalPages _ (cell_totalPages <$> cells'));
    [|reflexivity|by apply Htp].
  rewrite (useMemo_canonical _ calc_startIndex _ (cell_startIndex <$> cells));
    [|reflexivity|by apply Hsi].
  rewrite (useMemo_canonical _ calc_startIndex _ (cell_startIndex <$> cells'));
    [|reflexivity|by apply Hsi].
  cbn [memo_value].
  rewrite (useMemo_canonical _ calc_endIndex _ (cell_endIndex <$> cells));
    [|reflexivity|by apply Hei].
  rewrite (useMemo_canonical _ calc_endIndex _ (cell_endIndex <$> cells'));
    [|reflexivity|by apply Hei].
  cbn [memo_value].
  rewrite (useMemo_canonical _ calc_itemsOnCurrentPage _
             (cell_itemsOnCurrentPage <$> cells)); [|reflexivity|by apply Hic].
  rewrite (useMemo_canonical _ calc_itemsOnCurrentPage _
             (cell_itemsOnCurrentPage <$> cells')); [|reflexivity|by apply Hic].
  reflexivity.
Qed.

Lemma cells_ok_mount_set p page :
  cells_ok (Some (set_cell_currentPage (hooks (mount p)) page)).
Proof.
  apply cells_ok_Some, hooks_ok_set, rendered_hooks_ok, rendered_mount.
Qed.

Lemma rendered_at_page c :
  rendered c -> c = at_page (props c) (cell_currentPage (hooks c)).
Proof.
  intros Hc. rewrite <- (rendered_again c Hc) at 1. unfold at_page.
  apply render_same_state.
  - apply cells_ok_Some, rendered_hooks_ok, Hc.
  - apply cells_ok_mount_set.
  - reflexivity.
Qed.

(** X1.  Whatever handlers ran and whatever props were passed before,
    the component is the one a fresh caller with the present props shows
    at the present page: the hook cells included, nothing memoised
    depends on the history. *)
Theorem history_independent (p : UsePaginationProps) (es : list Event) :
  let c := run (mount p) es in
  c = at_page (props c) (currentPage (view c)).
Proof.
  intros c. pose proof (rendered_reachable p es) as Hc. fold c in Hc.
  rewrite (rendered_currentPage c Hc). by apply rendered_at_page.
Qed.

(** ** Bounds on the page along a run *)

Lemma invoke_at_most_one c calls :
  rendered c -> (length calls <= 1)%nat ->
  let cp := currentPage (view c) in
  let cp' := currentPage (view (handle c calls)) in
  (1 <= cp -> 1 <= cp') /\
  (cp <= totalPages (view c) -> cp' <= totalPages (view c)).
Proof.
  intros Hc Hlen cp cp'.
  destruct (rendered_view c Hc) as [Ecp Htp _ _ _ Hprev Hnext Hset Hn Hp].
  fold cp in Ecp. rewrite <- Ecp in *.
  assert (E : cp' = reduce_queue cp (flat_map (invoke (view c)) calls)).
  { unfold cp'. rewrite handle_currentPage. by rewrite <- Ecp. }
  assert (1 <= totalPages (view c)) by (unfold Math_max in Htp; lia).
  destruct calls as [|call [|call' calls]]; [| |simpl in Hlen; lia].
  - simpl in E. lia.
  - cbn [flat_map app] in E. rewrite app_nil_r in E.
    destruct call as [page| |]; cbn [invoke] in E.
    + rewrite Hset in E. simpl in E. unfold Math_max, Math_min in E. lia.
    + rewrite Hn in E. destruct (Z.ltb_spec cp (totalPages (view c)));
        simpl in E; lia.
    + rewrite Hp in E. destruct (Z.gtb_spec cp 1); simpl in E; lia.
Qed.

(** X2.  In a run on which the numbers are exact (at every render
    [totalItems >= 0], [itemsPerPage >= 1] and safe integers) and whose
    handlers each make at most one call, [currentPage] is at least 1 in
    every state; if moreover the props never change and [initialPage]
    is at most [totalPages], it is at most [totalPages] in every
    state. *)
Theorem page_stays_in_range (p : UsePaginationProps) (es : list Event) :
  exact_run (mount p) es ->
  one_call_each es ->
  let c := run (mount p) es in
  1 <= currentPage (view c) /\
  (fixed_props es ->
   default 1 (initialPage p) <= totalPages (view (mount p)) ->
   props c = p /\ currentPage (view c) <= totalPages (view c)).
Proof.
  intros _ Hone c. subst c.
  assert (Hgen : forall c0, rendered c0 -> 1 <= currentPage (view c0) ->
    1 <= currentPage (view (run c0 es)) /\
    (fixed_props es -> currentPage (view c0) <= totalPages (view c0) ->
     props (run c0 es) = props c0 /\
     currentPage (view (run c0 es)) <= totalPages (view (run c0 es)))).
  { induction Hone as [|e es He Hes IH]; intros c0 Hc0 H1; [done|].
    cbn [run foldl]. change (foldl step (step c0 e) es) with (run (step c0 e) es).
    pose proof (rendered_step c0 e Hc0) as Hc1.
    assert (H1' : 1 <= currentPage (view (step c0 e))).
    { destruct e as [calls|p']; simpl.
      - by apply (invoke_at_most_one c0 calls Hc0 He).
      - change (currentPage (view (update_props c0 p')))
          with (cell_currentPage (hooks c0)).
        by rewrite <- (rendered_currentPage c0 Hc0). }
    destruct (IH (step c0 e) Hc1 H1') as [IH1 IH2]. split; [exact IH1|].
    intros Hfix Hle. apply Forall_cons in Hfix as [Hfe Hfix].
    destruct e as [calls|p']; [|done].
    change (step c0 (Handler calls)) with (handle c0 calls) in *.
    destruct (IH2 Hfix) as [IHp IHle].
    + rewrite (handle_totalPages c0 calls Hc0).
      by apply (invoke_at_most_one c0 calls Hc0 He).
    + split; [by rewrite IHp|exact IHle]. }
  destruct (Hgen (mount p) (rendered_mount p)) as [G1 G2].
  { change (currentPage (view (mount p)))
      with (Z.max 1 (default 1 (initialPage p))). lia. }
  split; [exact G1|]. intros Hfix Hinit. apply (G2 Hfix).
  pose proof (d_totalPages _ _ _ (rendered_view _ (rendered_mount p))) as Htp.
  change (currentPage (view (mount p)))
    with (Z.max 1 (default 1 (initialPage p))).
  unfold Math_max in Htp. lia.
Qed.

(** ** Several calls in one handler, and calls that undo each other *)

Lemma reduce_queue_replicate (f : Z -> Z) (step_by : Z) n s :
  (forall x, f x = x + step_by) ->
  reduce_queue s (replicate n (SetUpdater f)) = s + Z.of_nat n * step_by.
Proof.
  intros Hf. revert s. induction n as [|n IH]; intros s; [simpl; lia|].
  cbn [replicate reduce_queue foldl apply_action].
  change (foldl apply_action (f s) (replicate n (SetUpdater f)))
    with (reduce_queue (f s) (replicate n (SetUpdater f))).
  rewrite IH, Hf. lia.
Qed.

Lemma flat_map_replicate_singleton {A B : Type} (g : A -> list B) a b n :
  g a = [b] -> flat_map g (replicate n a) = replicate n b.
Proof. intros Hg. induction n as [|n IH]; [done|]. simpl. by rewrite Hg, IH. Qed.

Lemma page_stays_in_range_witness :
  let c := run (mount demo)
             [Handler [CallNextPage]; Handler [CallSetPage 9]] in
  1 <= currentPage (view c) /\ currentPage (view c) <= totalPages (view c).
Proof.
  cbv zeta.
  destruct (page_stays_in_range demo
              [Handler [CallNextPage]; Handler [CallSetPage 9]])
    as [Hlow Hhigh].
  - exact_here.
  - repeat constructor.
  - split; [exact Hlow|]. apply Hhigh.
    + repeat constructor.
    + vm_compute. discriminate.
Defined.

(** X3.  The guards of [nextPage] and [prevPage] read the values of the
    last render, and their updates are relative to the previous state.
    While the numbers are exact (the run, with the handler, stays on
    exact props and safe integers): [n] calls of [nextPage] inside one
    handler, when [canNextPage] was true at the render, add [n] to
    [currentPage] whatever [totalPages] is, and [n] calls of [prevPage]
    subtract [n] when [canPrevPage] was true. *)
Theorem batched_calls_skip_the_guard
    (p : UsePaginationProps) (es : list Event) (n : nat) :
  let c := run (mount p) es in
  (exact_run (mount p) (es ++ [Handler (replicate n CallNextPage)]) ->
   canNextPage (view c) = true ->
   currentPage (view (handle c (replicate n CallNextPage)))
   = currentPage (view c) + Z.of_nat n) /\
  (exact_run (mount p) (es ++ [Handler (replicate n CallPrevPage)]) ->
   canPrevPage (view c) = true ->
   currentPage (view (handle c (replicate n CallPrevPage)))
   = currentPage (view c) - Z.of_nat n).
Proof.
  intros c. pose proof (rendered_reachable p es) as Hc. fold c in Hc.
  destruct (rendered_view c Hc) as [Ecp _ _ _ _ Hprev Hnext _ Hn Hp].
  rewrite <- Hnext in Hn. rewrite <- Hprev in Hp.
  split; intros _ Hcan; rewrite handle_currentPage, <- Ecp.
  - rewrite Hcan in Hn.
    rewrite (flat_map_replicate_singleton (invoke (view c)) CallNextPage
               _ n Hn).
    rewrite (reduce_queue_replicate _ 1) by done. lia.
  - rewrite Hcan in Hp.
    rewrite (flat_map_replicate_singleton (invoke (view c)) CallPrevPage
               _ n Hp).
    rewrite (reduce_queue_replicate _ (-1)) by (intros; lia). lia.
Qed.

Lemma batched_calls_skip_the_guard_witness :
  let c := run (mount demo) [Handler [CallSetPage 4]] in
  totalPages (view c) = 5 /\
  currentPage (view (handle c [CallNextPage; CallNextPage])) = 6.
Proof.
  cbv zeta. split; [reflexivity|].
  apply (proj1 (batched_calls_skip_the_guard
                  demo [Handler [CallSetPage 4]] 2)); [exact_here|].
  reflexivity.
Defined.

Lemma handle_rendered c calls : rendered c -> rendered (handle c calls).
Proof. intros Hc. exact (rendered_step c (Handler calls) Hc). Qed.

Lemma handle_one_update c call f :
  rendered c -> invoke (view c) call = [SetUpdater f] ->
  handle c [call] = at_page (props c) (f (currentPage (view c))).
Proof.
  intros Hc Hq.
  rewrite (rendered_at_page _ (handle_rendered c [call] Hc)).
  change (props (handle c [call])) with (props c). f_equal.
  rewrite <- (rendered_currentPage _ (handle_rendered c [call] Hc)).
  rewrite handle_currentPage. cbn [flat_map]. rewrite app_nil_r, Hq.
  by rewrite (rendered_currentPage c Hc).
Qed.

(** X4.  [nextPage] and [prevPage] undo each other.  In every state of
    a run on which the numbers are exact: from a page that is at least
    1 and has a next page, [nextPage()] and then [prevPage()] give back
    the component as it was, hook cells included; and from a page that
    is at most [totalPages] and has a previous page, so do [prevPage()]
    and then [nextPage()]. *)
Theorem nextPage_prevPage_round_trip
    (p : UsePaginationProps) (es : list Event) :
  let c := run (mount p) es in
  exact_run (mount p) es ->
  (canNextPage (view c) = true -> 1 <= currentPage (view c) ->
   handle (handle c [CallNextPage]) [CallPrevPage] = c) /\
  (canPrevPage (view c) = true ->
   currentPage (view c) <= totalPages (view c) ->
   handle (handle c [CallPrevPage]) [CallNextPage] = c).
Proof.
  intros c _. pose proof (rendered_reachable p es) as Hc. fold c in Hc.
  destruct (rendered_view c Hc) as [Ecp _ _ _ _ Hprev Hnext _ Hn Hp].
  rewrite <- Hnext in Hn. rewrite <- Hprev in Hp. rewrite <- Ecp in *.
  split; intros Hcan Hb.
  - rewrite Hcan in Hn.
    pose proof (handle_rendered c [CallNextPage] Hc) as Hc1.
    destruct (rendered_view _ Hc1) as [Ecp1 _ _ _ _ Hprev1 _ _ _ Hp1].
    rewrite <- Hprev1 in Hp1.
    assert (Ecur1 : currentPage (view (handle c [CallNextPage]))
                    = currentPage (view c) + 1).
    { rewrite handle_currentPage. cbn [flat_map invoke].
      rewrite app_nil_r, Hn.
      simpl. by rewrite (rendered_currentPage c Hc). }
    rewrite <- Ecp1, Ecur1 in Hprev1.
    rewrite Hprev1, (proj2 (Z.gtb_gt _ _)) in Hp1 by lia.
    rewrite (handle_one_update _ CallPrevPage _ Hc1 Hp1), Ecur1.
    change (props (handle c [CallNextPage])) with (props c).
    replace (currentPage (view c) + 1 - 1) with (currentPage (view c)) by lia.
    rewrite (rendered_currentPage c Hc). symmetry. by apply rendered_at_page.
  - rewrite Hcan in Hp.
    pose proof (handle_rendered c [CallPrevPage] Hc) as Hc1.
    destruct (rendered_view _ Hc1) as [Ecp1 _ _ _ _ _ Hnext1 _ Hn1 _].
    rewrite <- Hnext1 in Hn1.
    assert (Ecur1 : currentPage (view (handle c [CallPrevPage]))
                    = currentPage (view c) - 1).
    { rewrite handle_currentPage. cbn [flat_map invoke].
      rewrite app_nil_r, Hp.
      simpl. by rewrite (rendered_currentPage c Hc). }
    rewrite <- Ecp1, Ecur1, (handle_totalPages c _ Hc) in Hnext1.
    rewrite Hnext1, (proj2 (Z.ltb_lt _ _)) in Hn1 by lia.
    rewrite (handle_one_update _ CallNextPage _ Hc1 Hn1), Ecur1.
    change (props (handle c [CallPrevPage])) with (props c).
    replace (currentPage (view c) - 1 + 1) with (currentPage (view c)) by lia.
    rewrite (rendered_currentPage c Hc). symmetry. by apply rendered_at_page.
Qed.

Lemma nextPage_prevPage_round_trip_witness :
  handle (handle (mount demo) [CallNextPage]) [CallPrevPage] = mount demo.
Proof.
  apply (proj1 (nextPage_prevPage_round_trip demo [] ltac:(exact_here)));
    [reflexivity|].
  vm_compute. discriminate.
Defined.

(** ** Runs that stay exact *)





End PaginationMore.

(** * The pages of a list *)

Section Pages.
Import Js React Pagination PaginationScreen.
Context {A : Type}.
Implicit Types (items : list A).

Lemma slice_in_range items (s e : Z) :
  0 <= s <= e -> e <= Z.of_nat (length items) ->
  slice items s e = take (Z.to_nat (e - s)) (drop (Z.to_nat s) items).
Proof.
  intros Hs He. unfold slice, relative_index.
  destruct (Z.ltb_spec s 0); [lia|]. destruct (Z.ltb_spec e 0); [lia|].
  rewrite !Z.min_l by lia. by rewrite Z.max_l by lia.
Qed.

Lemma slice_length items (s e : Z) :
  0 <= s <= e -> e <= Z.of_nat (length items) ->
  Z.of_nat (length (slice items s e)) = e - s.
Proof.
  intros Hs He. rewrite slice_in_range by done.
  rewrite length_take, length_drop. lia.
Qed.

(** What the hook returns for a list of [totalItems] items at a valid
    page, in terms of the list. *)
Lemma valid_page_indices p es items :
  let c := run (mount p) es in
  let v := view c in
  Z.of_nat (length items) = totalItems (props c) ->
  1 <= ipp_of (props c) ->
  1 <= currentPage v <= totalPages v ->
  startIndex v = (currentPage v - 1) * ipp_of (props c) /\
  endIndex v = Z.min (startIndex v + ipp_of (props c)) (Z.of_nat (length items)) /\
  itemsOnCurrentPage v = endIndex v - startIndex v /\
  0 <= startIndex v <= Z.of_nat (length items) /\
  (items <> [] -> startIndex v < Z.of_nat (length items)) /\
  (currentPage v < totalPages v ->
   startIndex v + ipp_of (props c) < Z.of_nat (length items)) /\
  (currentPage v = totalPages v ->
   Z.of_nat (length items) <= startIndex v + ipp_of (props c)).
Proof.
  intros c v Hlen Hipp Hcp.
  destruct (rendered_view c (rendered_reachable p es))
    as [Ecp Htp Hsi Hei Hic _ _ _ _ _].
  fold c v in Ecp, Htp, Hsi, Hei, Hic. rewrite <- Ecp in Hsi.
  rewrite <- Hlen in Htp, Hei. unfold Math_min in Hei.
  set (ti := Z.of_nat (length items)) in *.
  set (ipp := ipp_of (props c)) in *.
  assert (0 <= ti) by (unfold ti; lia).
  pose proof (proj1 (totalPages_least ti ipp (totalPages v) ltac:(lia))
                ltac:(lia)) as [_ Hup].
  assert (Hlow : (totalPages v - 1) * ipp < ti \/ (totalPages v = 1 /\ ti = 0)).
  { destruct (Z_lt_le_dec ((totalPages v - 1) * ipp) ti) as [|Hge]; [by left|].
    right. destruct (Z.eq_dec (totalPages v) 1) as [E|Hne].
    - split; [done|]. rewrite E in Hge. lia.
    - pose proof (proj2 (totalPages_least ti ipp (totalPages v - 1)
                           ltac:(lia))
                    ltac:(unfold Math_max in Htp; lia)).
      lia. }
  repeat split; try assumption.
  - nia.
  - fold ti. destruct Hlow as [Hlow|[? ?]]; nia.
  - intros Hne. assert (0 < ti).
    { unfold ti. destruct items; [done|]. simpl. lia. }
    destruct Hlow as [Hlow|[_ ?]]; [nia|lia].
  - intros Hlt. destruct Hlow as [Hlow|[? _]]; [nia|lia].
  - intros E. rewrite Hsi, E. lia.
Qed.

(** X5.  For a list of [totalItems] items, [itemsPerPage >= 1] and a
    valid page, [items.slice(startIndex, endIndex)] has
    [itemsOnCurrentPage] items, its [i]-th item is item [startIndex + i]
    of the list, it is not empty unless the list is, and it has
    [itemsPerPage] items on every page but the last. *)
Theorem page_slice (p : UsePaginationProps) (es : list Event) items :
  let c := run (mount p) es in
  let v := view c in
  let page := slice items (startIndex v) (endIndex v) in
  Z.of_nat (length items) = totalItems (props c) ->
  1 <= ipp_of (props c) ->
  1 <= currentPage v <= totalPages v ->
  Z.of_nat (length page) = itemsOnCurrentPage v /\
  (forall i : nat,
     Z.of_nat i < itemsOnCurrentPage v ->
     page !! i = items !! (Z.to_nat (startIndex v) + i)%nat) /\
  (items <> [] -> page <> []) /\
  (currentPage v < totalPages v ->
   itemsOnCurrentPage v = ipp_of (props c)).
Proof.
  intros c v page Hlen Hipp Hcp.
  destruct (valid_page_indices p es items Hlen Hipp Hcp)
    as (Hsi & Hei & Hic & H0 & Hne & Hfull & _).
  fold c v in Hsi, Hei, Hic, H0, Hne, Hfull.
  assert (Hr : 0 <= startIndex v <= endIndex v) by lia.
  assert (Hr' : endIndex v <= Z.of_nat (length items)) by lia.
  assert (Hl : Z.of_nat (length page) = itemsOnCurrentPage v).
  { unfold page. rewrite slice_length by done. lia. }
  split; [exact Hl|]. split; [|split].
  - intros i Hi. unfold page. rewrite slice_in_range by done.
    rewrite lookup_take_lt by lia. apply lookup_drop.
  - intros Hitems Hnil. specialize (Hne Hitems).
    rewrite Hnil in Hl. simpl in Hl. lia.
  - intros Hlt. specialize (Hfull Hlt). lia.
Qed.

(** ** The pages together *)

Lemma take_min_length items (n : nat) :
  take (n `min` length items) items = take n items.
Proof.
  destruct (Nat.le_ge_cases n (length items)) as [Hle|Hge].
  - by rewrite Nat.min_l.
  - rewrite Nat.min_r by done. by rewrite !take_ge.
Qed.

Lemma chunks_concat items (n m : nat) :
  concat ((fun i => take n (drop (i * n) items)) <$> seq 0 m)
  = take (m * n) items.
Proof.
  induction m as [|m IH]; [done|].
  rewrite seq_S, fmap_app, concat_app, IH. cbn [fmap list_fmap concat].
  rewrite app_nil_r, take_take_drop. f_equal. lia.
Qed.

(** The page a page button leads to. *)
Lemma page_button p es (k : Z) :
  let c := run (mount p) es in
  let c' := run (mount p) (es ++ [Handler [CallSetPage k]]) in
  1 <= k <= totalPages (view c) ->
  c' = handle c [CallSetPage k] /\
  props c' = props c /\
  totalPages (view c') = totalPages (view c) /\
  currentPage (view c') = k.
Proof.
  intros c c' Hk. pose proof (rendered_reachable p es) as Hc. fold c in Hc.
  assert (E : c' = handle c [CallSetPage k]) by apply run_snoc.
  split; [exact E|]. rewrite E. split; [done|].
  split; [by apply handle_totalPages|].
  rewrite handle_currentPage. cbn [flat_map invoke]. rewrite app_nil_r.
  rewrite (d_setPage _ _ _ (rendered_view c Hc)). simpl.
  unfold Math_max, Math_min. lia.
Qed.

Lemma page_button_slice p es items (i : nat) :
  let c := run (mount p) es in
  let v' := view (handle c [CallSetPage (Z.of_nat i + 1)]) in
  Z.of_nat (length items) = totalItems (props c) ->
  1 <= ipp_of (props c) ->
  Z.of_nat i < totalPages (view c) ->
  slice items (startIndex v') (endIndex v')
  = take (Z.to_nat (ipp_of (props c)))
      (drop (i * Z.to_nat (ipp_of (props c))) items).
Proof.
  intros c v' Hlen Hipp Hi.
  destruct (page_button p es (Z.of_nat i + 1) ltac:(fold c; lia))
    as (E & Hp & Htp & Hcp).
  fold c in E, Hp, Htp, Hcp.
  assert (Hv : v' = view (run (mount p)
                   (es ++ [Handler [CallSetPage (Z.of_nat i + 1)]])))
    by (unfold v'; by rewrite E).
  destruct (valid_page_indices p
              (es ++ [Handler [CallSetPage (Z.of_nat i + 1)]]) items)
    as (Hsi & Hei & _ & H0 & _); rewrite ?Hp, ?Htp, ?Hcp; [done|done|lia|].
  rewrite <- Hv in Hsi, Hei, H0. rewrite Hp in Hsi, Hei.
  assert (Hcp' : currentPage v' = Z.of_nat i + 1) by (rewrite Hv; exact Hcp).
  rewrite Hcp' in Hsi.
  set (ipp := ipp_of (props c)) in *.
  rewrite slice_in_range by lia.
  replace (Z.to_nat (startIndex v')) with (i * Z.to_nat ipp)%nat by nia.
  replace (Z.to_nat (endIndex v' - startIndex v'))
    with (Z.to_nat ipp `min` length (drop (i * Z.to_nat ipp) items))%nat.
  - apply take_min_length.
  - rewrite length_drop. nia.
Qed.

(** X6.  The page buttons are numbered [Array.from({ length: totalPages
    }, (_, i) => i + 1)].  For a list of [totalItems] items and
    [itemsPerPage >= 1], the slices that [setPage] of each button shows,
    taken in the order of the buttons, make up the list: every item is on
    exactly one page, in order. *)
Theorem pages_partition (p : UsePaginationProps) (es : list Event) items :
  let c := run (mount p) es in
  let page := fun k : Z =>
    let v := view (handle c [CallSetPage k]) in
    slice items (startIndex v) (endIndex v) in
  Z.of_nat (length items) = totalItems (props c) ->
  1 <= ipp_of (props c) ->
  concat (page <$> Array_from (totalPages (view c)) (fun i => i + 1)) = items.
Proof.
  intros c page Hlen Hipp. unfold Array_from. rewrite <- list_fmap_compose.
  set (n := Z.to_nat (ipp_of (props c))).
  set (m := Z.to_nat (totalPages (view c))).
  rewrite (list_fmap_ext _ (fun i => take n (drop (i * n) items)) (seq 0 m)).
  - rewrite chunks_concat. apply take_ge.
    destruct (rendered_view c (rendered_reachable p es))
      as [_ Htp _ _ _ _ _ _ _ _].
    fold c in Htp. rewrite <- Hlen in Htp.
    pose proof (proj1 (totalPages_least (Z.of_nat (length items))
                         (ipp_of (props c)) (totalPages (view c))
                         ltac:(lia)) ltac:(lia)) as [_ Hup].
    unfold n, m. nia.
  - intros j i Hj. apply lookup_seq in Hj as [-> Hlt]. simpl.
    unfold page, n. apply page_button_slice; [done|done|].
    fold c. unfold m in Hlt. lia.
Qed.

(** X7.  In every state of a run on which the numbers are exact, with
    [totalPages] no more than the largest array length, the page
    buttons are the valid pages, each once: [k] is on a button exactly
    when [1 <= k <= totalPages]; clicking button [k] makes [k] the
    current page; and the button of the current page
    ([pageNum === currentPage]) exists, once, exactly when the current
    page is valid. *)
Theorem page_buttons (p : UsePaginationProps) (es : list Event) :
  let c := run (mount p) es in
  let v := view c in
  let pageNumbers := Array_from (totalPages v) (fun i => i + 1) in
  exact_run (mount p) es ->
  totalPages v <= MAX_ARRAY_LENGTH ->
  (forall k, k ∈ pageNumbers <-> 1 <= k <= totalPages v) /\
  NoDup pageNumbers /\
  (forall k, k ∈ pageNumbers ->
     currentPage (view (handle c [CallSetPage k])) = k) /\
  length (filter (fun k => k = currentPage v) pageNumbers)
  = (if bool_decide (1 <= currentPage v <= totalPages v)%Z
     then 1 else 0)%nat.
Proof.
  intros c v pageNumbers _ _.
  assert (Hin : forall k, k ∈ pageNumbers <-> 1 <= k <= totalPages v).
  { intros k. unfold pageNumbers, Array_from. rewrite list_elem_of_fmap.
    split.
    - intros (i & -> & Hi%elem_of_seq). lia.
    - intros Hk. exists (Z.to_nat (k - 1)). split; [lia|].
      apply elem_of_seq. lia. }
  assert (Hnd : NoDup pageNumbers).
  { unfold pageNumbers, Array_from.
    apply NoDup_fmap_2_strong; [|apply NoDup_seq]. intros i j _ _ Hij. lia. }
  split; [exact Hin|]. split; [exact Hnd|]. split.
  - intros k Hk%Hin.
    destruct (page_button p es k Hk) as (E & _ & _ & Hcp).
    fold c in E. by rewrite <- E.
  - case_bool_decide as Hv.
    + apply Hin in Hv.
      assert (Hp : filter (fun k => k = currentPage v) pageNumbers
                   ≡ₚ [currentPage v]).
      { apply NoDup_Permutation; [by apply NoDup_filter|apply NoDup_singleton|].
        intros k. rewrite list_elem_of_filter, list_elem_of_singleton.
        split; [by intros [-> _]|by intros ->]. }
      by rewrite Hp.
    + assert (Hnil : filter (fun k => k = currentPage v) pageNumbers = []).
      { destruct (filter _ pageNumbers) as [|k ks] eqn:Ef; [done|].
        assert (Hk : k ∈ filter (fun k => k = currentPage v) pageNumbers)
          by (rewrite Ef; left).
        apply list_elem_of_filter in Hk as [-> Hk]. by apply Hin in Hk. }
      by rewrite Hnil.
Qed.

End Pages.

Section PagesExamples.
Import Js React Pagination PaginationScreen.

Lemma page_slice_witness :
  let v := view (run (mount demo) [Handler [CallSetPage 5]]) in
  length (slice (seq 0 47) (startIndex v) (endIndex v)) = 7%nat /\
  slice (seq 0 47) (startIndex v) (endIndex v) !! 0%nat = Some 40%nat.
Proof.
  cbv zeta.
  destruct (page_slice (A:=nat) demo [Handler [CallSetPage 5]] (seq 0 47))
    as (Hl & Hi & _ & _);
    [reflexivity | cbn; lia
    | split; intros H; vm_compute in H; discriminate H |].
  split.
  - apply Nat2Z.inj. rewrite Hl. reflexivity.
  - rewrite (Hi 0%nat) by (vm_compute; reflexivity). reflexivity.
Defined.
Lemma pages_partition_witness :
  let c := run (mount demo) [] in
  concat
    ((fun k : Z =>
        let v := view (handle c [CallSetPage k]) in
        slice (seq 0 47) (startIndex v) (endIndex v))
       <$> Array_from (totalPages (view c)) (fun i => i + 1))
  = seq 0 47.
Proof.
  apply (pages_partition (A:=nat) demo [] (seq 0 47)); [reflexivity|cbn; lia].
Defined.

Lemma page_buttons_witness :
  let c := run (mount demo) [Handler [CallSetPage 3]] in
  Array_from (totalPages (view c)) (fun i => i + 1) = [1; 2; 3; 4; 5] /\
  currentPage (view (handle c [CallSetPage 4])) = 4.
Proof.
  cbv zeta. split; [reflexivity|].
  destruct (page_buttons demo [Handler [CallSetPage 3]])
    as (Hin & _ & Hclick & _).
  - exact_here.
  - vm_compute. discriminate.
  - apply Hclick, Hin. vm_compute. split; discriminate.
Defined.

End PagesExamples.

(** * The pagination screen *)

Section PaginationScreenFacts.
Import Js React Pagination PaginationScreen.

(** The five pages of the screen, by evaluation. *)
Lemma screen_at_pages (k : Z) :
  1 <= k <= 5 ->
  let s := screen (screen_at k) in
  let v := pagination s in
  currentPage v = k /\
  totalPages v = 5 /\
  pageNumbers s = [1; 2; 3; 4; 5] /\
  canPrevPage v = (k >? 1) /\
  canNextPage v = (k <? 5) /\
  startIndex v = (k - 1) * 10 /\
  endIndex v = Z.min (k * 10) 47 /\
  itemsOnCurrentPage v = endIndex v - startIndex v /\
  id <$> currentItems s
  = (fun i : nat => startIndex v + 1 + Z.of_nat i)
      <$> seq 0 (Z.to_nat (itemsOnCurrentPage v)).
Proof.
  intros Hk.
  assert (Hcases : k = 1 \/ k = 2 \/ k = 3 \/ k = 4 \/ k = 5) by lia.
  destruct Hcases as [->|[->|[->|[->| ->]]]]; vm_compute; repeat split.
Qed.

Lemma click_screen_at (k : Z) (b : Click) (m : Mounted) :
  1 <= k <= 5 ->
  click (screen_at k) b = Some m ->
  exists k', 1 <= k' <= 5 /\ m = screen_at k'.
Proof.
  intros Hk.
  assert (Hcases : k = 1 \/ k = 2 \/ k = 3 \/ k = 4 \/ k = 5) by lia.
  assert (Hpn : pageNumbers (screen (screen_at k)) = [1; 2; 3; 4; 5])
    by apply (screen_at_pages k Hk).
  destruct b as [| |pageNum].
  - intros Hm.
    destruct Hcases as [->|[->|[->|[->| ->]]]]; vm_compute in Hm;
      [done|injection Hm as <-..];
      [exists 1|exists 2|exists 3|exists 4]; (split; [lia|reflexivity]).
  - intros Hm.
    destruct Hcases as [->|[->|[->|[->| ->]]]]; vm_compute in Hm;
      [injection Hm as <-..|done];
      [exists 2|exists 3|exists 4|exists 5]; (split; [lia|reflexivity]).
  - unfold click. cbn [onClick]. rewrite Hpn.
    case_bool_decide as Hin; [|done].
    assert (Hp : pageNum = 1 \/ pageNum = 2 \/ pageNum = 3 \/ pageNum = 4
                 \/ pageNum = 5).
    { repeat (apply elem_of_cons in Hin as [->|Hin]; [tauto|]).
      by apply elem_of_nil in Hin. }
    clear Hin. intros Hm. exists pageNum. split; [lia|].
    destruct Hp as [->|[->|[->|[->| ->]]]];
      destruct Hcases as [->|[->|[->|[->| ->]]]];
      vm_compute in Hm; injection Hm as <-; reflexivity.
Qed.

Lemma clicks_screen_at (bs : list Click) (k : Z) (m : Mounted) :
  1 <= k <= 5 ->
  clicks (screen_at k) bs = Some m ->
  exists k', 1 <= k' <= 5 /\ m = screen_at k'.
Proof.
  revert k. induction bs as [|b bs IH]; intros k Hk; simpl.
  - intros [= <-]. by exists k.
  - destruct (click (screen_at k) b) as [m1|] eqn:Hb; [|done].
    destruct (click_screen_at k b m1 Hk Hb) as (k1 & Hk1 & ->).
    by apply IH.
Qed.

Lemma click_is_Some (m : Mounted) (b : Click) :
  is_Some (click m b) <-> is_Some (onClick (screen m) b).
Proof.
  unfold click. destruct (onClick (screen m) b) as [q|].
  - destruct (PaginationDemo _). split; eauto.
  - done.
Qed.

(** X8.  Whatever buttons are clicked on the pagination screen, it shows
    a page between 1 and 5 of 5, buttons for the pages 1 to 5, and
    between 1 and 10 items, which are the items whose [id] runs from
    [startIndex + 1] to [endIndex]; the Previous button delivers a click
    exactly when the page is above 1, the Next button exactly when it is
    below 5, and a page button exactly for the pages 1 to 5. *)
Theorem screen_shows_a_page (bs : list Click) (m : Mounted) :
  clicks mount_screen bs = Some m ->
  let s := screen m in
  let v := pagination s in
  1 <= currentPage v <= totalPages v /\
  totalPages v = 5 /\
  pageNumbers s = [1; 2; 3; 4; 5] /\
  startIndex v = (currentPage v - 1) * 10 /\
  1 <= itemsOnCurrentPage v <= 10 /\
  id <$> currentItems s
  = (fun i : nat => startIndex v + 1 + Z.of_nat i)
      <$> seq 0 (Z.to_nat (itemsOnCurrentPage v)) /\
  startIndex v + itemsOnCurrentPage v = endIndex v /\
  (is_Some (click m ClickPrevious) <-> 1 < currentPage v) /\
  (is_Some (click m ClickNext) <-> currentPage v < 5) /\
  (forall k, is_Some (click m (ClickPage k)) <-> 1 <= k <= 5).
Proof.
  intros Hm.
  assert (E1 : mount_screen = screen_at 1) by (vm_compute; reflexivity).
  rewrite E1 in Hm.
  destruct (clicks_screen_at bs 1 m ltac:(lia) Hm) as (k & Hk & ->).
  intros s v.
  destruct (screen_at_pages k Hk)
    as (Hcp & Htp & Hpn & Hprev & Hnext & Hsi & Hei & Hic & Hids).
  fold s v in Hcp, Htp, Hpn, Hprev, Hnext, Hsi, Hei, Hic, Hids.
  rewrite Hcp, Htp.
  repeat (split; [first [done | lia]|]).
  split; [|split].
  - rewrite click_is_Some. fold s. cbn [onClick]. fold v. rewrite Hprev.
    destruct (Z.gtb_spec k 1); split; intros Hx; try lia; eauto.
    by destruct Hx.
  - rewrite click_is_Some. fold s. cbn [onClick]. fold v. rewrite Hnext.
    destruct (Z.ltb_spec k 5); split; intros Hx; try lia; eauto.
    by destruct Hx.
  - intros k'. rewrite click_is_Some. fold s. cbn [onClick]. rewrite Hpn.
    case_bool_decide as Hin; split; intros Hx; eauto.
    + repeat (apply elem_of_cons in Hin as [->|Hin]; [lia|]).
      by apply elem_of_nil in Hin.
    + by destruct Hx.
    + exfalso. apply Hin.
      assert (Hc : k' = 1 \/ k' = 2 \/ k' = 3 \/ k' = 4 \/ k' = 5) by lia.
      rewrite !elem_of_cons. tauto.
Qed.

Lemma screen_shows_a_page_witness :
  let v := pagination (screen (screen_at 5)) in
  1 <= currentPage v <= totalPages v.
Proof.
  refine (proj1 (screen_shows_a_page [ClickNext; ClickPage 5] (screen_at 5) _)).
  vm_compute. reflexivity.
Defined.

End PaginationScreenFacts.

(** * More facts about [useDebounce] *)

Section DebounceMore.
Import Debounce DebounceRuns.
Context {T : Type} `{EqDecision T}.
Implicit Types (w : World T) (v : T) (es : list (Event T)).

(** ** Time passing with at most one timer *)

Lemma fire_due_none fuel limit w :
  timers (host w) = ∅ -> fire_due fuel limit w = w.
Proof.
  intros Hm. destruct fuel as [|fuel]; [done|]. simpl.
  unfold next_due. by rewrite Hm, map_to_list_empty.
Qed.

Lemma fire_due_one fuel limit w h (tm : Timer T) :
  timers (host w) = {[ h := tm ]} ->
  fire_due (S fuel) limit w
  = if due tm <=? limit then run_callback h tm w else w.
Proof.
  intros Hm. simpl. rewrite Hm, next_due_singleton.
  destruct (due tm <=? limit); [|done].
  apply fire_due_none. simpl. by rewrite Hm, delete_singleton_eq.
Qed.

Lemma elapse_none dt w :
  0 <= dt -> timers (host w) = ∅ ->
  elapse dt w
  = Some {| host := {| now := now (host w) + dt;
                       next_handle := next_handle (host w);
                       timers := ∅ |};
            inst := inst w; log := log w |}.
Proof.
  intros Hdt Hm. unfold elapse. destruct (Z.ltb_spec dt 0); [lia|].
  rewrite fire_due_none by done. by rewrite Hm.
Qed.

Lemma elapse_one dt w h (tm : Timer T) :
  0 <= dt -> timers (host w) = {[ h := tm ]} ->
  elapse dt w
  = Some (if due tm <=? now (host w) + dt
          then {| host := {| now := now (host w) + dt;
                             next_handle := next_handle (host w);
                             timers := ∅ |};
                  inst := inst (run_callback h tm w);
                  log := log (run_callback h tm w) |}
          else {| host := {| now := now (host w) + dt;
                             next_handle := next_handle (host w);
                             timers := {[ h := tm ]} |};
                  inst := inst w; log := log w |}).
Proof.
  intros Hdt Hm. unfold elapse. destruct (Z.ltb_spec dt 0); [lia|].
  rewrite Hm, map_size_singleton, (fire_due_one 0 _ w h tm Hm).
  destruct (due tm <=? now (host w) + dt); [|by rewrite Hm].
  simpl. by rewrite Hm, delete_singleton_eq.
Qed.

(** ** A quiet period lets the input settle *)

Lemma settling_step v d bound w e :
  settling v d bound w ->
  match e with
  | Render v' delay => v' = v /\ default 500 delay = d
  | Elapse dt => 0 <= dt
  | Unmount => False
  end ->
  exists w',
    step w e = Some w' /\
    settling v d bound w' /\
    now (host w') = now (host w) + elapsed [e] /\
    (forall dt, e = Elapse dt -> bound <= now (host w) + dt ->
       timers (host w') = ∅ /\ debouncedValue w' = Some v).
Proof.
  intros (c & Hi & Hd & Hst) He. destruct e as [v' delay|dt|]; [| |done].
  - destruct He as [-> <-]. exists w. simpl. unfold useDebounce.
    rewrite Hi. simpl. rewrite bool_decide_eq_true_2 by done. simpl.
    split; [done|]. split; [by exists c|]. split; [lia|done].
  - cbn [step elapsed foldr]. destruct Hst as [[Hm Hv]|(t & Hm & Ht)].
    + rewrite (elapse_none dt w He Hm). eexists. split; [reflexivity|].
      split; [|split; [simpl; lia|]].
      * exists c. simpl. split; [done|]. split; [done|]. by left.
      * intros _ _ _. simpl. split; [done|].
        unfold debouncedValue. simpl. by rewrite Hi, Hv.
    + rewrite (elapse_one dt w _ _ He Hm). cbn [due].
      destruct (Z.leb_spec t (now (host w) + dt)) as [Hle|Hgt].
      * eexists. split; [reflexivity|]. cbn [host now timers inst].
        unfold run_callback. cbn [inst log]. rewrite Hi. cbn [captured].
        split; [|split; [lia|]].
        -- eexists. split; [reflexivity|]. cbn. split; [done|]. by left.
        -- intros _ _ _. split; [done|]. reflexivity.
      * eexists. split; [reflexivity|]. cbn [host now timers inst].
        split; [|split; [lia|]].
        -- exists c. split; [done|]. split; [done|]. right.
           exists t. by split.
        -- intros dt' [= <-] Hb. lia.
Qed.

Lemma settling_run v d bound w es :
  settling v d bound w -> quiet v d es ->
  exists w',
    run w es = Some w' /\
    settling v d bound w' /\
    now (host w') = now (host w) + elapsed es.
Proof.
  intros Hw Hq. revert w Hw.
  induction Hq as [|e es He Hq IH]; intros w Hw.
  - exists w. simpl. split; [done|]. split; [done|lia].
  - destruct (settling_step v d bound w e Hw He) as (w1 & Hs & Hw1 & Hn & _).
    destruct (IH w1 Hw1) as (w' & Hr & Hw' & Hn').
    exists w'. cbn [run]. rewrite Hs. split; [done|]. split; [done|].
    rewrite Hn', Hn. destruct e; simpl; lia.
Qed.

Lemma in_step_step w e w' :
  invariant w -> in_step w -> step w e = Some w' -> in_step w'.
Proof.
  intros (Hfresh & Hown & Hlog) Hin Hs.
  unfold in_step, timers_owned in *.
  destruct e as [v delay|dt|]; simpl in Hs.
  - unfold useDebounce in Hs.
    destruct (inst w) as [|c|] eqn:Hi; simpl in Hs; [| |done].
    + injection Hs as <-. unfold run_effect. simpl. right.
      eexists. rewrite Hown, insert_empty. split; [reflexivity|lia].
    + case_bool_decide; simpl in Hs; injection Hs as <-.
      * by rewrite Hi.
      * unfold run_effect. simpl. right. eexists.
        rewrite (owned_cleared w c Hi), insert_empty;
          [|unfold timers_owned; by rewrite Hi].
        split; [reflexivity|lia].
  - destruct (Z.ltb_spec dt 0) as [Hneg|Hdt];
      [unfold elapse in Hs; by rewrite (proj2 (Z.ltb_lt _ _) Hneg) in Hs|].
    destruct (inst w) as [|c|] eqn:Hi.
    + rewrite (elapse_none dt w Hdt Hown) in Hs. injection Hs as <-.
      simpl. by rewrite Hi.
    + destruct Hin as [[Hm Hv]|(t & Hm & Ht)].
      * rewrite (elapse_none dt w Hdt Hm) in Hs. injection Hs as <-.
        simpl. rewrite Hi. by left.
      * rewrite (elapse_one dt w _ _ Hdt Hm) in Hs. cbn [due] in Hs.
        destruct (Z.leb_spec t (now (host w) + dt)); injection Hs as <-.
        -- unfold run_callback. cbn [inst host timers]. rewrite Hi.
           left. by split.
        -- cbn [inst host timers now]. rewrite Hi. right. exists t.
           split; [done|]. lia.
    + rewrite (elapse_none dt w Hdt Hown) in Hs. injection Hs as <-.
      simpl. by rewrite Hi.
  - unfold unmount in Hs. destruct (inst w) as [|c|]; [done| |done].
    by injection Hs as <-.
Qed.

Lemma in_step_run w es w' :
  invariant w -> in_step w -> run w es = Some w' -> in_step w'.
Proof.
  revert w. induction es as [|e es IH]; intros w Hinv Hin; simpl.
  - by intros [= <-].
  - destruct (step w e) as [w1|] eqn:Hs; [|done]. intros Hr.
    apply (IH w1); [by apply (invariant_step w e)| |done].
    by apply (in_step_step w e).
Qed.

Lemma in_step_reachable w : reachable w -> in_step w.
Proof.
  intros (t0 & h0 & es & Hr).
  apply (in_step_run _ es w (invariant_init t0 h0)); [done|exact Hr].
Qed.

(** X9.  From any state a mounted tracker can reach: if from then on the
    caller only renders again with the same value and delay while time
    passes, then once the delay has passed the timer has fired and the
    hook returns the input value.  The timer fires when time passes: not
    inside a render, also for the delay 0. *)
Theorem quiet_period_settles w (c : Cells T) es (dt : Z) :
  reachable w ->
  inst w = Mounted c ->
  quiet (effect_deps c).1 (effect_deps c).2 es ->
  0 <= dt ->
  Z.max 0 (effect_deps c).2 <= elapsed es + dt ->
  exists w',
    run w (es ++ [Elapse dt]) = Some w' /\
    debouncedValue w' = Some (effect_deps c).1 /\
    timers (host w') = ∅.
Proof.
  intros Hr Hi Hq Hdt Hlong.
  pose proof (in_step_reachable w Hr) as Hin.
  unfold in_step in Hin. rewrite Hi in Hin.
  set (v := (effect_deps c).1) in *. set (d := (effect_deps c).2) in *.
  assert (Hw : settling v d (now (host w) + Z.max 0 d) w).
  { exists c. split; [done|]. split; [by destruct (effect_deps c)|].
    destruct Hin as [?|(t & ? & ?)]; [by left|right; by exists t]. }
  destruct (settling_run v d _ w es Hw Hq) as (w1 & Hr1 & Hw1 & Hn1).
  destruct (settling_step v d _ w1 (Elapse dt) Hw1 Hdt)
    as (w' & Hs & _ & _ & Hfin).
  destruct (Hfin dt eq_refl ltac:(lia)) as [Hm Hv].
  exists w'. rewrite run_app, Hr1. cbn [run]. rewrite Hs. done.
Qed.

(** ** Every timer fires at most once *)

Lemma once_run_callback w i (tm : Timer T) :
  timers (host w) !! i = Some tm ->
  log_spent w -> NoDup (fired_handles w) ->
  NoDup (fired_handles (run_callback i tm w)).
Proof.
  intros Hi Hlog Hnd. unfold fired_handles, run_callback. cbn [log].
  rewrite fmap_app. apply NoDup_app. split; [done|]. split.
  - intros h (f & -> & Hf)%list_elem_of_fmap Hin.
    apply list_elem_of_singleton in Hin. simpl in Hin.
    destruct (Hlog f Hf) as [_ Hn]. congruence.
  - apply NoDup_singleton.
Qed.

Lemma once_fire_due fuel limit w :
  invariant w -> NoDup (fired_handles w) ->
  NoDup (fired_handles (fire_due fuel limit w)).
Proof.
  revert w. induction fuel as [|fuel IH]; intros w Hinv Hnd; simpl; [done|].
  destruct (next_due (timers (host w))) as [[i tm]|] eqn:Hn; [|done].
  destruct (due tm <=? limit); [|done].
  pose proof (next_due_Some _ _ _ Hn) as Hi.
  apply IH; [by apply invariant_run_callback|].
  apply once_run_callback; [done| |done]. apply Hinv.
Qed.

Lemma once_step w e w' :
  invariant w -> NoDup (fired_handles w) -> step w e = Some w' ->
  NoDup (fired_handles w').
Proof.
  intros Hinv Hnd Hs. destruct e as [v delay|dt|]; simpl in Hs.
  - unfold useDebounce in Hs.
    destruct (inst w) as [|c|]; simpl in Hs; [| |done].
    + by injection Hs as <-.
    + case_bool_decide; simpl in Hs; by injection Hs as <-.
  - unfold elapse in Hs. destruct (dt <? 0); [done|]. injection Hs as <-.
    by apply once_fire_due.
  - unfold unmount in Hs. destruct (inst w); [done| |done].
    by injection Hs as <-.
Qed.

Lemma accounted_fire_due h0 fuel limit w :
  accounted h0 w -> accounted h0 (fire_due fuel limit w).
Proof.
  revert w. induction fuel as [|fuel IH]; intros w Hacc; simpl; [done|].
  destruct (next_due (timers (host w))) as [[i tm]|] eqn:Hn; [|done].
  destruct (due tm <=? limit); [|done].
  apply IH. destruct Hacc as [Hle Hacc]. split; [done|].
  unfold run_callback. cbn [log host timers next_handle].
  pose proof (next_due_Some _ _ _ Hn) as Hi.
  rewrite length_app, map_size_delete_Some by eauto. simpl.
  assert (size (timers (host w)) <> 0)%nat.
  { apply map_size_non_empty_iff. intros Hm. rewrite Hm in Hi.
    by rewrite lookup_empty in Hi. }
  lia.
Qed.

Lemma accounted_step h0 w e w' :
  accounted h0 w -> step w e = Some w' ->
  accounted h0 w' /\
  (next_handle (host w') <= next_handle (host w) + renders [e])%nat.
Proof.
  intros [Hle Hacc] Hs.
  assert (Hins : forall (tm : gmap nat (Timer T)) i x,
            (size (<[i:=x]> tm) <= S (size tm))%nat).
  { intros tm i x. rewrite map_size_insert. destruct (tm !! i); simpl; lia. }
  assert (Hdel : forall (tm : gmap nat (Timer T)) i,
            (size (delete i tm) <= size tm)%nat).
  { intros tm i. rewrite map_size_delete. destruct (tm !! i); simpl; lia. }
  destruct e as [v delay|dt|]; simpl in Hs.
  - unfold useDebounce in Hs.
    destruct (inst w) as [|c|]; simpl in Hs; [| |done].
    + injection Hs as <-. unfold run_effect, accounted. simpl.
      pose proof (Hins (timers (host w)) (next_handle (host w))
                    {| due := now (host w) + Z.max 0 (default 500 delay);
                       captured := v |}).
      lia.
    + case_bool_decide; simpl in Hs; injection Hs as <-.
      * unfold accounted. simpl. lia.
      * unfold run_effect, accounted. simpl.
        pose proof (Hins (delete (effect_cleanup c) (timers (host w)))
                      (next_handle (host w))
                      {| due := now (host w) + Z.max 0 (default 500 delay);
                         captured := v |}).
        pose proof (Hdel (timers (host w)) (effect_cleanup c)). lia.
  - unfold elapse in Hs. destruct (dt <? 0); [done|]. injection Hs as <-.
    pose proof (accounted_fire_due h0 (size (timers (host w)))
                  (now (host w) + dt) w (conj Hle Hacc)) as [Hle' Hacc'].
    unfold accounted. simpl. rewrite fire_due_next_handle in *. simpl. lia.
  - unfold unmount in Hs. destruct (inst w) as [|c|]; [done| |done].
    injection Hs as <-. unfold accounted. simpl.
    pose proof (Hdel (timers (host w)) (effect_cleanup c)). lia.
Qed.

Lemma once_run h0 w es w' :
  invariant w -> NoDup (fired_handles w) -> accounted h0 w ->
  run w es = Some w' ->
  NoDup (fired_handles w') /\ accounted h0 w' /\
  (next_handle (host w') <= next_handle (host w) + renders es)%nat.
Proof.
  revert w. induction es as [|e es IH]; intros w Hinv Hnd Hacc; cbn [run].
  - intros [= <-]. split; [done|]. split; [done|simpl; lia].
  - destruct (step w e) as [w1|] eqn:Hs; [|done]. intros Hr.
    destruct (accounted_step h0 w e w1 Hacc Hs) as [Hacc1 Hn1].
    destruct (IH w1 (invariant_step w e w1 Hs Hinv)
                (once_step w e w1 Hinv Hnd Hs) Hacc1 Hr) as (? & ? & Hn).
    split; [done|]. split; [done|].
    destruct e; simpl in Hn1 |- *; lia.
Qed.

(** X10.  In every run of a tracker each timer fires at most once, and
    the state is written at most once per render: the callbacks that
    ran, together with the timer that may still wait, are no more than
    the renders of the run. *)
Theorem one_write_per_render (t0 : Z) (h0 : nat) es w :
  run (init t0 h0) es = Some w ->
  NoDup (fired_handles w) /\
  (length (log w) + size (timers (host w)) <= renders es)%nat.
Proof.
  intros Hr.
  destruct (once_run h0 (init t0 h0) es w (invariant_init t0 h0))
    as (Hnd & [_ Hacc] & Hn); [apply NoDup_nil_2| |done|].
  { unfold accounted. simpl. rewrite map_size_empty. lia. }
  split; [done|]. simpl in Hn. lia.
Qed.

End DebounceMore.

Section DebounceMoreExamples.
Import Debounce DebounceRuns.

Lemma quiet_period_settles_witness :
  exists w',
    run typed ([Render "abc"%string None; Elapse 100;
                Render "abc"%string (Some 500)] ++ [Elapse 400]) = Some w' /\
    debouncedValue w' = Some "abc"%string /\
    timers (host w') = ∅.
Proof.
  refine (quiet_period_settles typed
            {| cell_debouncedValue := ""%string;
               effect_deps := ("abc"%string, 500);
               effect_cleanup := 4 |}
            [Render "abc"%string None; Elapse 100;
             Render "abc"%string (Some 500)] 400 _ _ _ _ _).
  - exists 0, 1%nat, typing_session. vm_compute. reflexivity.
  - reflexivity.
  - repeat constructor; simpl; lia.
  - lia.
  - simpl. lia.
Defined.

Lemma one_write_per_render_witness :
  NoDup (fired_handles typed) /\
  (length (log typed) + size (timers (host typed))
   <= renders typing_session)%nat.
Proof.
  apply (one_write_per_render 0 1 typing_session typed).
  vm_compute. reflexivity.
Defined.

End DebounceMoreExamples.

(** * The search screen *)

Section SearchScreenFacts.
Import Debounce SearchScreen SearchRuns.
Implicit Types (w : World) (c : Cells) (t : Debounce.World string).
Implicit Types (m : gmap nat (Timer Callback)).

(** ** Rounds left *)

Lemma own_rounds_comm (j1 j2 : nat) (z1 z2 : Timer Callback) (y : nat) :
  (rounds_of z1 + (rounds_of z2 + y) = rounds_of z2 + (rounds_of z1 + y))%nat.
Proof. lia. Qed.

Lemma own_rounds_empty : own_rounds ∅ = 0%nat.
Proof. apply map_fold_empty. Qed.

Lemma own_rounds_delete m i x :
  m !! i = Some x ->
  own_rounds m = (rounds_of x + own_rounds (delete i m))%nat.
Proof.
  intros Hi. unfold own_rounds.
  apply (map_fold_delete_L (fun _ tm acc => rounds_of tm + acc)%nat); [|done].
  intros. apply own_rounds_comm; done.
Qed.

Lemma own_rounds_delete_le m i :
  (own_rounds (delete i m) <= own_rounds m)%nat.
Proof.
  destruct (m !! i) as [x|] eqn:Hi.
  - rewrite (own_rounds_delete m i x Hi). lia.
  - by rewrite delete_id.
Qed.

Lemma own_rounds_insert_le m i x :
  (own_rounds (<[i:=x]> m) <= rounds_of x + own_rounds m)%nat.
Proof.
  rewrite <- (insert_delete_eq m i x).
  assert (E : own_rounds (<[i:=x]> (delete i m))
              = (rounds_of x + own_rounds (delete i m))%nat).
  { unfold own_rounds.
    apply (map_fold_insert_L (fun _ tm acc => rounds_of tm + acc)%nat).
    - intros. apply own_rounds_comm; done.
    - apply lookup_delete_eq. }
  rewrite E. pose proof (own_rounds_delete_le m i). lia.
Qed.

Lemma own_rounds_size m : (own_rounds m <= 2 * size m)%nat.
Proof.
  induction m as [|i x m Hi IH] using map_ind.
  - rewrite own_rounds_empty. lia.
  - pose proof (own_rounds_insert_le m i x).
    rewrite map_size_insert_None by done.
    assert (rounds_of x <= 2)%nat by (unfold rounds_of; destruct (captured x); lia).
    lia.
Qed.

(** ** A render *)

Lemma useDebounce_mounted t (tc : Debounce.Cells string) (value : string) :
  inst t = Mounted tc ->
  exists t' tc',
    useDebounce value (Some 500) t = Some (cell_debouncedValue tc, t') /\
    inst t' = Mounted tc' /\
    cell_debouncedValue tc' = cell_debouncedValue tc /\
    effect_deps tc' = (value, 500) /\
    log t' = log t /\
    now (host t') = now (host t) /\
    (effect_deps tc = (value, 500) -> t' = t) /\
    (size (timers (host t')) <= S (size (timers (host t))))%nat.
Proof.
  intros Hi. unfold useDebounce. rewrite Hi. simpl.
  case_bool_decide as Hd.
  - exists t, tc. repeat split; try done. lia.
  - unfold run_effect. simpl. eexists _, _. repeat split; try done.
    simpl. rewrite map_size_insert.
    pose proof (map_size_delete (effect_cleanup tc) (timers (host t))) as Hs.
    destruct (delete _ _ !! _); destruct (timers (host t) !! _);
      simpl in *; lia.
Qed.

Lemma last_written (l : list string) :
  List.last l ""%string = ""%string \/ List.last l ""%string ∈ l.
Proof. apply last_default_or_elem. Qed.

Lemma pending_search_le w : (pending_search w <= 1)%nat.
Proof.
  unfold pending_search. destruct (cells w) as [c|]; [|lia].
  destruct (own w !! effect_timer c) as [[d [| |]]|]; lia.
Qed.

Lemma render_ok w c st n rs b :
  screen_pre w -> cells w = Some c ->
  0 <= n <= Z.of_nat (length (searches w)) ->
  exists w' c',
    DebounceSearchDemo st n rs b (Some (effect_term c, effect_timer c)) w
    = Some w' /\
    screen_ok w' /\
    cells w' = Some c' /\
    searchTerm c' = st /\ apiCallCount c' = n /\
    searchResults c' = rs /\ isSearching c' = b /\
    searches w' = searches w /\
    log (tracker w') = log (tracker w) /\
    clock w' = clock w /\
    (own_rounds (own w') <= own_rounds (own w) + 2 * unseen_write w)%nat /\
    (forall tc, inst (tracker w) = Mounted tc ->
       effect_deps tc = (st, 500) ->
       timers (host (tracker w')) = timers (host (tracker w))) /\
    (tracker_load w' <= S (tracker_load w))%nat.
Proof.
  intros Hpre Hc Hn.
  destruct (ok_mounted w Hpre c Hc) as [tc Hi].
  destruct (useDebounce_mounted (tracker w) tc st Hi)
    as (t' & tc' & Hu & Hi' & Hcell & Hdeps & Hlog & Hnow & Hsame & Hsize).
  pose proof (ok_written w Hpre tc Hi) as Hwr.
  unfold DebounceSearchDemo. rewrite Hu. cbn [own cells searches].
  assert (Hun : unseen_write w
                = if bool_decide (effect_term c = cell_debouncedValue tc)
                  then 0%nat else 1%nat).
  { unfold unseen_write. by rewrite Hc, Hi. }
  pose proof (ok_count w Hpre) as Hcount. rewrite Hun in Hcount.
  case_bool_decide as Hterm.
  - (* the effect of the screen does not run *)
    eexists _, _. split; [reflexivity|].
    split; [split|].
    + constructor; cbn [set_cells tracker own cells searches].
      * intros c0 _. by exists tc'.
      * done.
      * by rewrite Hi'.
      * intros tc0. rewrite Hi'. intros [= <-]. by rewrite Hcell, Hlog.
      * intros h tm term Hh Hcap.
        destruct (ok_pending w Hpre h tm term Hh Hcap) as (Htr & c0 & Hc0 & -> & ->).
        split; [done|]. rewrite Hc in Hc0. injection Hc0 as <-.
        eexists. split; [reflexivity|]. done.
      * intros c0 [= <-]. cbn. rewrite Hlog. by apply (ok_term w Hpre c).
      * intros ts term Hin. rewrite Hlog. by apply (ok_searches w Hpre ts).
      * rewrite Hlog.
        match goal with |- (_ + pending_search ?W + unseen_write ?W <= _)%nat =>
          assert (pending_search W = pending_search w) as ->;
            [|assert (unseen_write W = 0%nat) as ->]
        end.
        { unfold pending_search. cbn. by rewrite Hc. }
        { unfold unseen_write. cbn. rewrite Hi', Hcell.
          by rewrite bool_decide_eq_true_2. }
        lia.
      * intros c0 [= <-]. exact Hn.
    + intros c0 [= <-]. exists tc'. cbn. rewrite Hcell. done.
    + cbn. unfold clock. cbn. repeat split; try done.
      * lia.
      * intros tc0 Hi0 Hd0. rewrite Hi in Hi0. injection Hi0 as <-.
        by rewrite (Hsame Hd0).
      * unfold tracker_load. cbn. rewrite Hlog. lia.
  - (* the cleanup and the effect of the screen run *)
    set (debounced := cell_debouncedValue tc) in *.
    set (cb := if truthy debounced then StartSearch debounced
               else ClearResults).
    set (hnew := next_handle (host t')).
    assert (Heff : search_effect debounced
                     {| tracker := t'; own := delete (effect_timer c) (own w);
                        cells := cells w; searches := searches w |}
                   = (hnew,
                      {| tracker := with_host t' (now (host t')) (S hnew);
                         own := <[hnew := {| due := now (host t') + Z.max 0 0;
                                             captured := cb |}]>
                                  (delete (effect_timer c) (own w));
                         cells := cells w; searches := searches w |})).
    { unfold search_effect, cb. by destruct (truthy debounced). }
    cbn [tracker own cells searches]. rewrite Heff.
    eexists _, _. split; [reflexivity|].
    split; [split|].
    + constructor; cbn [set_cells tracker own cells searches with_host inst log].
      * intros c0 _. by exists tc'.
      * done.
      * by rewrite Hi'.
      * intros tc0. rewrite Hi'. intros [= <-]. by rewrite Hcell, Hlog.
      * intros h tm term Hh Hcap.
        apply lookup_insert_Some in Hh as [[<- <-]|[Hne Hh]].
        -- cbn in Hcap. unfold cb in Hcap.
           destruct (truthy debounced) eqn:Htr; [|done].
           injection Hcap as <-. split; [done|].
           eexists. split; [reflexivity|]. done.
        -- apply lookup_delete_Some in Hh as [Hne' Hh].
           destruct (ok_pending w Hpre h tm term Hh Hcap)
             as (_ & c0 & Hc0 & -> & _).
           rewrite Hc in Hc0. by injection Hc0 as <-.
      * intros c0 [= <-]. cbn [effect_term]. rewrite Hlog, Hwr.
        apply last_written.
      * intros ts term Hin. rewrite Hlog. by apply (ok_searches w Hpre ts).
      * rewrite Hlog.
        match goal with |- (_ + pending_search ?W + unseen_write ?W <= _)%nat =>
          pose proof (pending_search_le W);
          assert (unseen_write W = 0%nat) as ->
        end.
        { unfold unseen_write. cbn. rewrite Hi', Hcell.
          by rewrite bool_decide_eq_true_2. }
        lia.
      * intros c0 [= <-]. exact Hn.
    + intros c0 [= <-]. exists tc'. cbn. rewrite Hcell. done.
    + cbn. unfold clock. cbn. repeat split; try done.
      * pose proof (own_rounds_insert_le (delete (effect_timer c) (own w)) hnew
                      {| due := now (host t') + Z.max 0 0; captured := cb |}).
        pose proof (own_rounds_delete_le (own w) (effect_timer c)).
        assert (rounds_of {| due := now (host t') + Z.max 0 0;
                             captured := cb |} <= 2)%nat
          by (unfold rounds_of; cbn; destruct cb; lia).
        lia.
      * intros tc0 Hi0 Hd0. rewrite Hi in Hi0. injection Hi0 as <-.
        by rewrite (Hsame Hd0).
      * unfold tracker_load. cbn. rewrite Hlog. lia.
Qed.

Lemma update_ok w (f : Cells -> Cells) :
  screen_pre w ->
  (forall c, effect_term (f c) = effect_term c /\
             effect_timer (f c) = effect_timer c) ->
  (forall c, cells w = Some c ->
     0 <= apiCallCount (f c) <= Z.of_nat (length (searches w))) ->
  exists w',
    update f w = Some w' /\
    screen_ok w' /\
    searches w' = searches w /\
    log (tracker w') = log (tracker w) /\
    clock w' = clock w /\
    (own_rounds (own w') <= own_rounds (own w) + 2 * unseen_write w)%nat /\
    (forall c tc, cells w = Some c -> inst (tracker w) = Mounted tc ->
       effect_deps tc = (searchTerm (f c), 500) ->
       timers (host (tracker w')) = timers (host (tracker w))) /\
    (cells w = None -> w' = w) /\
    (forall c, cells w = Some c ->
       exists c', cells w' = Some c' /\
         searchTerm c' = searchTerm (f c) /\
         apiCallCount c' = apiCallCount (f c) /\
         searchResults c' = searchResults (f c) /\
         isSearching c' = isSearching (f c)).
Proof.
  intros Hpre Hf Hn. unfold update.
  destruct (cells w) as [c|] eqn:Hc.
  - unfold rerender. destruct (Hf c) as [-> ->].
    destruct (render_ok w c (searchTerm (f c)) (apiCallCount (f c))
                (searchResults (f c)) (isSearching (f c)) Hpre Hc (Hn c eq_refl))
      as (w' & c' & Hr & Hok & Hc' & H1 & H2 & H3 & H4 & Hs & Hl & Hk & Hrd & Ht
          & _).
    exists w'. split; [done|]. split; [done|]. split; [done|].
    split; [done|]. split; [done|]. split; [done|]. split; [|split; [done|]].
    + intros c0 tc [= <-]. apply Ht.
    + intros c0 [= <-]. by exists c'.
  - exists w. split; [done|]. split.
    { split; [done|]. intros c0 Hc0. congruence. }
    repeat split; try done. lia.
Qed.

(** ** A timer fires *)

Lemma fire_tracker_ok w h (tm : Timer string) :
  screen_ok w -> timers (host (tracker w)) !! h = Some tm ->
  exists w',
    fire_tracker h tm w = Some w' /\
    screen_ok w' /\
    (rounds w' < rounds w)%nat /\
    (tracker_load w' <= tracker_load w)%nat.
Proof.
  intros [Hpre Hsync] Hh. unfold fire_tracker.
  set (w1 := with_tracker w (run_callback h tm (tracker w))).
  assert (Hnm : inst (tracker w) <> NotMounted).
  { intros Hi. destruct (ok_tracker w Hpre Hi) as [_ Hm].
    rewrite Hm in Hh. by rewrite lookup_empty in Hh. }
  assert (Hun : cells w = None \/ exists c tc,
            cells w = Some c /\ inst (tracker w) = Mounted tc /\
            effect_deps tc = (searchTerm c, 500) /\
            effect_term c = cell_debouncedValue tc).
  { destruct (cells w) as [c|] eqn:Hc; [right|by left].
    destruct (Hsync c Hc) as (tc & ? & ? & ?). by exists c, tc. }
  assert (Hunseen : unseen_write w = 0%nat).
  { unfold unseen_write. destruct Hun as [->|(c & tc & -> & -> & _ & ->)];
      [done|]. by rewrite bool_decide_eq_true_2. }
  assert (Hpre1 : screen_pre w1).
  { pose proof (ok_count w Hpre) as Hcount. rewrite Hunseen in Hcount.
    constructor; unfold w1, with_tracker, run_callback;
      cbn [tracker own cells searches inst log host timers].
    - intros c Hc. destruct (ok_mounted w Hpre c Hc) as [tc ->]. eauto.
    - intros Hc tc. pose proof (ok_unmounted w Hpre Hc) as Hu.
      destruct (inst (tracker w)) as [|tc0|]; [done| |done].
      by destruct (Hu tc0).
    - destruct (inst (tracker w)); done.
    - intros tc1. destruct (inst (tracker w)) as [|tc|]; [done| |done].
      intros [= <-]. cbn. rewrite fmap_app. symmetry. apply last_last.
    - apply (ok_pending w Hpre).
    - intros c Hc. rewrite fmap_app.
      destruct (ok_term w Hpre c Hc) as [?|?]; [by left|right].
      apply elem_of_app. by left.
    - intros ts term Hin. rewrite fmap_app.
      destruct (ok_searches w Hpre ts term Hin). split; [done|].
      apply elem_of_app. by left.
    - rewrite length_app. cbn [length].
      assert (pending_search
                {| tracker := run_callback h tm (tracker w); own := own w;
                   cells := cells w; searches := searches w |}
              = pending_search w) as Hp by done.
      match goal with |- (_ + ?P + ?U <= _)%nat =>
        assert (P = pending_search w) as -> by done;
        assert (U <= 1)%nat
      end.
      { unfold unseen_write. cbn. destruct (cells w); [|lia].
        destruct (inst (tracker w)); try lia. case_bool_decide; lia. }
      lia.
    - apply (ok_api w Hpre). }
  destruct (update_ok w1 (fun c => c) Hpre1)
    as (w' & Hu & Hok & Hs & Hl & Hk & Hrd & Ht & Hnone & Hsome).
  { done. }
  { intros c Hc. by apply (ok_api w Hpre). }
  exists w'. split; [done|]. split; [done|].
  assert (Hsize : (size (timers (host (tracker w1)))
                   = pred (size (timers (host (tracker w)))))%nat).
  { unfold w1. cbn. apply map_size_delete_Some. eauto. }
  assert (size (timers (host (tracker w))) <> 0)%nat.
  { apply map_size_non_empty_iff. intros Hm. rewrite Hm in Hh.
    by rewrite lookup_empty in Hh. }
  assert (Htimers : timers (host (tracker w')) = timers (host (tracker w1))).
  { destruct Hun as [Hc|(c & tc & Hc & Hi & Hd & _)].
    - by rewrite (Hnone Hc).
    - apply (Ht c {| cell_debouncedValue := captured tm;
                     effect_deps := effect_deps tc;
                     effect_cleanup := effect_cleanup tc |}); [done| |done].
      unfold w1. cbn. by rewrite Hi. }
  assert (Hu1 : (unseen_write w1 <= 1)%nat).
  { unfold unseen_write. destruct (cells w1); [|lia].
    destruct (inst (tracker w1)); try lia. case_bool_decide; lia. }
  split.
  - unfold rounds. rewrite Htimers, Hsize.
    change (own w1) with (own w) in Hrd. lia.
  - unfold tracker_load. rewrite Hl, Htimers, Hsize.
    unfold w1, with_tracker, run_callback. cbn [tracker log].
    rewrite length_app. simpl. lia.
Qed.

Lemma unseen_write_synced w : in_sync w -> unseen_write w = 0%nat.
Proof.
  intros Hsync. unfold unseen_write.
  destruct (cells w) as [c|] eqn:Hc; [|done].
  destruct (Hsync c Hc) as (tc & -> & _ & ->).
  by rewrite bool_decide_eq_true_2.
Qed.

(** The world a timer of the screen leaves when it fires, before its
    callback runs, keeps what [w] kept, once the timer is off the count. *)
Lemma fired_own_pre w h (tm : Timer Callback) (t : Z) (next : nat)
    (m : gmap nat (Timer Callback)) (ss : list (Z * string)) :
  screen_ok w ->
  (forall h' tm' term, m !! h' = Some tm' -> captured tm' = StartSearch term ->
     h' <> h /\ own w !! h' = Some tm') ->
  (forall ts term, (ts, term) ∈ ss ->
     truthy term = true /\ term ∈ fired_value <$> log (tracker w)) ->
  (length ss + pending_search {| tracker := with_host (tracker w) t next;
                                 own := m; cells := cells w; searches := ss |}
   <= length (log (tracker w)))%nat ->
  (length (searches w) <= length ss)%nat ->
  screen_pre {| tracker := with_host (tracker w) t next; own := m;
                cells := cells w; searches := ss |}.
Proof.
  intros [Hpre Hsync] Hm Hss Hcount Hlen.
  constructor; cbn [tracker own cells searches with_host inst log host timers].
  - apply (ok_mounted w Hpre).
  - apply (ok_unmounted w Hpre).
  - apply (ok_tracker w Hpre).
  - apply (ok_written w Hpre).
  - intros h' tm' term Hh' Hcap. destruct (Hm h' tm' term Hh' Hcap) as [_ Ho].
    apply (ok_pending w Hpre h' tm' term Ho Hcap).
  - apply (ok_term w Hpre).
  - exact Hss.
  - match goal with |- (_ + _ + ?U <= _)%nat =>
      assert (U = 0%nat) as ->
    end.
    { rewrite <- (unseen_write_synced w Hsync). done. }
    lia.
  - intros c Hc. pose proof (ok_api w Hpre c Hc). lia.
Qed.

Lemma tracker_timers_kept w w' w1 (f : Cells -> Cells) :
  in_sync w ->
  cells w1 = cells w ->
  inst (tracker w1) = inst (tracker w) ->
  timers (host (tracker w1)) = timers (host (tracker w)) ->
  (forall c, searchTerm (f c) = searchTerm c) ->
  (forall c tc, cells w1 = Some c -> inst (tracker w1) = Mounted tc ->
     effect_deps tc = (searchTerm (f c), 500) ->
     timers (host (tracker w')) = timers (host (tracker w1))) ->
  (cells w1 = None -> w' = w1) ->
  timers (host (tracker w')) = timers (host (tracker w)).
Proof.
  intros Hsync Hc Hi Ht Hf Hsome Hnone.
  destruct (cells w) as [c|] eqn:Hcw.
  - destruct (Hsync c Hcw) as (tc & Hitc & Hd & _).
    rewrite (Hsome c tc); [done|done|by rewrite Hi|].
    by rewrite Hf.
  - by rewrite (Hnone Hc).
Qed.

Lemma fire_own_ok w h (tm : Timer Callback) :
  screen_ok w -> own w !! h = Some tm ->
  exists w',
    fire_own h tm w = Some w' /\
    screen_ok w' /\
    (rounds w' < rounds w)%nat /\
    (tracker_load w' <= tracker_load w)%nat.
Proof.
  intros Hok Hh. pose proof Hok as [Hpre Hsync].
  pose proof (unseen_write_synced w Hsync) as Hunseen.
  pose proof (ok_count w Hpre) as Hcount. rewrite Hunseen in Hcount.
  pose proof (own_rounds_delete (own w) h tm Hh) as Hrd.
  unfold fire_own.
  set (t := Z.max (clock w) (due tm)).
  set (next := next_handle (host (tracker w))).
  destruct (captured tm) as [term|results|] eqn:Hcap.
  - (* a search starts *)
    destruct (ok_pending w Hpre h tm term Hh Hcap) as (Htr & c & Hc & -> & ->).
    set (m := <[next := {| due := t + Z.max 0 300;
                           captured := ShowResults (mockResults (effect_term c)) |}]>
                (delete (effect_timer c) (own w))).
    set (ss := searches w ++ [(t, effect_term c)]).
    cbn [schedule tracker own cells searches with_host host next_handle].
    change (update _ _) with
      (update (fun c0 =>
                 {| searchTerm := searchTerm c0;
                    apiCallCount := apiCallCount c0 + 1;
                    searchResults := searchResults c0;
                    isSearching := true;
                    effect_term := effect_term c0;
                    effect_timer := effect_timer c0 |})
         {| tracker := with_host (tracker w) t (S next); own := m;
            cells := cells w; searches := ss |}).
    assert (Hp1 : pending_search w = 1%nat).
    { unfold pending_search. rewrite Hc, Hh.
      destruct tm as [d cb]. simpl in Hcap. by rewrite Hcap. }
    assert (Hp0 : pending_search
                    {| tracker := with_host (tracker w) t (S next); own := m;
                       cells := cells w; searches := ss |} = 0%nat).
    { unfold pending_search. cbn. rewrite Hc. unfold m.
      destruct (decide (next = effect_timer c)) as [<-|Hne].
      - by rewrite lookup_insert_eq.
      - by rewrite lookup_insert_ne, lookup_delete_eq. }
    assert (Hpre1 : screen_pre
                      {| tracker := with_host (tracker w) t (S next); own := m;
                         cells := cells w; searches := ss |}).
    { apply (fired_own_pre w (effect_timer c) tm); [done| | | |].
      - intros h' tm' term' Hh' Hcap'. unfold m in Hh'.
        apply lookup_insert_Some in Hh' as [[_ <-]|[_ Hh']]; [done|].
        apply lookup_delete_Some in Hh' as [Hne ?].
        split; [intros ->; by apply Hne|done].
      - intros ts term' Hin. unfold ss in Hin.
        apply elem_of_app in Hin as [Hin|Hin%list_elem_of_singleton].
        + by apply (ok_searches w Hpre ts).
        + injection Hin as -> ->. split; [done|].
          destruct (ok_term w Hpre c Hc) as [E|?]; [|done].
          rewrite E in Htr. done.
      - rewrite Hp0. unfold ss. rewrite length_app. simpl. lia.
      - unfold ss. rewrite length_app. lia. }
    destruct (update_ok _ (fun c0 =>
                 {| searchTerm := searchTerm c0;
                    apiCallCount := apiCallCount c0 + 1;
                    searchResults := searchResults c0;
                    isSearching := true;
                    effect_term := effect_term c0;
                    effect_timer := effect_timer c0 |}) Hpre1)
      as (w' & Hu & Hok' & _ & Hl' & _ & Hrd' & Ht & Hnone & _).
    { done. }
    { intros c0. cbn. intros Hc0. pose proof (ok_api w Hpre c0 Hc0).
      unfold ss. rewrite length_app. simpl. lia. }
    exists w'. split; [done|]. split; [done|].
    assert (Htimers : timers (host (tracker w')) = timers (host (tracker w))).
    { eapply (tracker_timers_kept w w' _ _ Hsync); [| | | |exact Ht|exact Hnone];
        done. }
    assert (Hu0 : unseen_write
                    {| tracker := with_host (tracker w) t (S next); own := m;
                       cells := cells w; searches := ss |} = 0%nat).
    { rewrite <- Hunseen. done. }
    rewrite Hu0 in Hrd'. cbn [own] in Hrd'.
    pose proof (own_rounds_insert_le (delete (effect_timer c) (own w)) next
                  {| due := t + Z.max 0 300;
                     captured := ShowResults (mockResults (effect_term c)) |})
      as Hins.
    fold m in Hins.
    assert (rounds_of tm = 2%nat) by (unfold rounds_of; by rewrite Hcap).
    split; [|unfold tracker_load; rewrite Hl', Htimers; cbn; lia].
    unfold rounds. rewrite Htimers. cbn in Hins. unfold rounds_of in Hins.
    cbn in Hins. lia.
  - (* the results arrive *)
    assert (Hpre1 : screen_pre
                      {| tracker := with_host (tracker w) t next;
                         own := delete h (own w);
                         cells := cells w; searches := searches w |}).
    { apply (fired_own_pre w h tm); [done| | | |done].
      - intros h' tm' term' Hh' _.
        apply lookup_delete_Some in Hh' as [Hne ?].
        split; [intros ->; by apply Hne|done].
      - apply (ok_searches w Hpre).
      - assert (pending_search
                  {| tracker := with_host (tracker w) t next;
                     own := delete h (own w);
                     cells := cells w; searches := searches w |}
                <= pending_search w)%nat; [|lia].
        unfold pending_search. cbn. destruct (cells w) as [c|]; [|lia].
        destruct (delete h (own w) !! effect_timer c) as [tm'|] eqn:Hd; [|lia].
        apply lookup_delete_Some in Hd as [_ ->]. done. }
    destruct (update_ok _ (fun c0 =>
                 {| searchTerm := searchTerm c0;
                    apiCallCount := apiCallCount c0;
                    searchResults := results;
                    isSearching := false;
                    effect_term := effect_term c0;
                    effect_timer := effect_timer c0 |}) Hpre1)
      as (w' & Hu & Hok' & _ & Hl' & _ & Hrd' & Ht & Hnone & _).
    { done. }
    { intros c0. cbn. intros Hc0. by apply (ok_api w Hpre c0 Hc0). }
    exists w'. split; [done|]. split; [done|].
    assert (Htimers : timers (host (tracker w')) = timers (host (tracker w))).
    { eapply (tracker_timers_kept w w' _ _ Hsync); [| | | |exact Ht|exact Hnone];
        done. }
    assert (Hu0 : unseen_write
                    {| tracker := with_host (tracker w) t next;
                       own := delete h (own w);
                       cells := cells w; searches := searches w |} = 0%nat).
    { rewrite <- Hunseen. done. }
    rewrite Hu0 in Hrd'. cbn [own] in Hrd'.
    assert (rounds_of tm = 1%nat) by (unfold rounds_of; by rewrite Hcap).
    split; [|unfold tracker_load; rewrite Hl', Htimers; cbn; lia].
    unfold rounds. rewrite Htimers. lia.
  - (* the results are cleared *)
    assert (Hpre1 : screen_pre
                      {| tracker := with_host (tracker w) t next;
                         own := delete h (own w);
                         cells := cells w; searches := searches w |}).
    { apply (fired_own_pre w h tm); [done| | | |done].
      - intros h' tm' term' Hh' _.
        apply lookup_delete_Some in Hh' as [Hne ?].
        split; [intros ->; by apply Hne|done].
      - apply (ok_searches w Hpre).
      - assert (pending_search
                  {| tracker := with_host (tracker w) t next;
                     own := delete h (own w);
                     cells := cells w; searches := searches w |}
                <= pending_search w)%nat; [|lia].
        unfold pending_search. cbn. destruct (cells w) as [c|]; [|lia].
        destruct (delete h (own w) !! effect_timer c) as [tm'|] eqn:Hd; [|lia].
        apply lookup_delete_Some in Hd as [_ ->]. done. }
    destruct (update_ok _ (fun c0 =>
                 {| searchTerm := searchTerm c0;
                    apiCallCount := apiCallCount c0;
                    searchResults := [];
                    isSearching := false;
                    effect_term := effect_term c0;
                    effect_timer := effect_timer c0 |}) Hpre1)
      as (w' & Hu & Hok' & _ & Hl' & _ & Hrd' & Ht & Hnone & _).
    { done. }
    { intros c0. cbn. intros Hc0. by apply (ok_api w Hpre c0 Hc0). }
    exists w'. split; [done|]. split; [done|].
    assert (Htimers : timers (host (tracker w')) = timers (host (tracker w))).
    { eapply (tracker_timers_kept w w' _ _ Hsync); [| | | |exact Ht|exact Hnone];
        done. }
    assert (Hu0 : unseen_write
                    {| tracker := with_host (tracker w) t next;
                       own := delete h (own w);
                       cells := cells w; searches := searches w |} = 0%nat).
    { rewrite <- Hunseen. done. }
    rewrite Hu0 in Hrd'. cbn [own] in Hrd'.
    assert (rounds_of tm = 1%nat) by (unfold rounds_of; by rewrite Hcap).
    split; [|unfold tracker_load; rewrite Hl', Htimers; cbn; lia].
    unfold rounds. rewrite Htimers. lia.
Qed.

(** ** Time passes *)

Lemma fire_next_cases limit w :
  match fire_next limit w with
  | None => none_due limit w
  | Some r =>
      (exists h tm, timers (host (tracker w)) !! h = Some tm /\
                    r = fire_tracker h tm w) \/
      (exists h tm, own w !! h = Some tm /\ r = fire_own h tm w)
  end.
Proof.
  unfold fire_next, none_due.
  destruct (next_due (timers (host (tracker w)))) as [[h tm]|] eqn:Ht;
    destruct (next_due (own w)) as [[h' tm']|] eqn:Ho.
  - pose proof (next_due_Some _ _ _ Ht) as Hh.
    pose proof (next_due_Some _ _ _ Ho) as Hh'.
    destruct ((due tm <? due tm') || ((due tm =? due tm') && (h <? h')%nat))
      eqn:Hfirst.
    + assert (due tm <= due tm').
      { apply orb_true_iff in Hfirst as [?%Z.ltb_lt|[?%Z.eqb_eq _]%andb_true_iff];
          lia. }
      destruct (Z.leb_spec (due tm) limit); [left; eauto|].
      split; intros j u Hj.
      * pose proof (next_due_least _ _ _ _ _ Ht Hj). lia.
      * pose proof (next_due_least _ _ _ _ _ Ho Hj). lia.
    + assert (due tm' <= due tm).
      { apply orb_false_iff in Hfirst as [?%Z.ltb_ge _]. lia. }
      destruct (Z.leb_spec (due tm') limit); [right; eauto|].
      split; intros j u Hj.
      * pose proof (next_due_least _ _ _ _ _ Ht Hj). lia.
      * pose proof (next_due_least _ _ _ _ _ Ho Hj). lia.
  - pose proof (next_due_Some _ _ _ Ht) as Hh.
    destruct (Z.leb_spec (due tm) limit); [left; eauto|].
    split; intros j u Hj.
    + pose proof (next_due_least _ _ _ _ _ Ht Hj). lia.
    + rewrite (next_due_None _ Ho) in Hj. by rewrite lookup_empty in Hj.
  - pose proof (next_due_Some _ _ _ Ho) as Hh'.
    destruct (Z.leb_spec (due tm') limit); [right; eauto|].
    split; intros j u Hj.
    + rewrite (next_due_None _ Ht) in Hj. by rewrite lookup_empty in Hj.
    + pose proof (next_due_least _ _ _ _ _ Ho Hj). lia.
  - split; intros j u Hj.
    + rewrite (next_due_None _ Ht) in Hj. by rewrite lookup_empty in Hj.
    + rewrite (next_due_None _ Ho) in Hj. by rewrite lookup_empty in Hj.
Qed.

Lemma fire_all_ok fuel limit w :
  screen_ok w -> (rounds w <= fuel)%nat ->
  exists w',
    fire_all fuel limit w = Some w' /\ screen_ok w' /\ none_due limit w' /\
    (tracker_load w' <= tracker_load w)%nat.
Proof.
  revert w. induction fuel as [|fuel IH]; intros w Hok Hr.
  - exists w. split; [done|]. split; [done|]. split; [|done].
    assert (Hs : size (timers (host (tracker w))) = 0%nat)
      by (unfold rounds in Hr; lia).
    assert (Ho : own w = ∅).
    { destruct (map_choose_or_empty (own w)) as [(i & x & Hi)|]; [|done].
      pose proof (own_rounds_delete (own w) i x Hi).
      unfold rounds in Hr. unfold rounds_of in *.
      destruct (captured x); lia. }
    apply map_size_empty_inv in Hs. split; intros j u Hj.
    + rewrite Hs in Hj. by rewrite lookup_empty in Hj.
    + rewrite Ho in Hj. by rewrite lookup_empty in Hj.
  - cbn [fire_all]. pose proof (fire_next_cases limit w) as Hcases.
    destruct (fire_next limit w) as [r|].
    + destruct Hcases as [(h & tm & Hh & ->)|(h & tm & Hh & ->)].
      * destruct (fire_tracker_ok w h tm Hok Hh) as (w1 & -> & Hok1 & Hr1 & Hl1).
        assert (Hf : (rounds w1 <= fuel)%nat) by lia.
        destruct (IH w1 Hok1 Hf) as (w' & Hw' & Hok' & Hnd' & Hl').
        exists w'. split; [done|]. split; [done|]. split; [done|]. lia.
      * destruct (fire_own_ok w h tm Hok Hh) as (w1 & -> & Hok1 & Hr1 & Hl1).
        assert (Hf : (rounds w1 <= fuel)%nat) by lia.
        destruct (IH w1 Hok1 Hf) as (w' & Hw' & Hok' & Hnd' & Hl').
        exists w'. split; [done|]. split; [done|]. split; [done|]. lia.
    + by exists w.
Qed.

Lemma screen_ok_clock w (time : Z) :
  screen_ok w ->
  screen_ok (with_tracker w
               (with_host (tracker w) time (next_handle (host (tracker w))))).
Proof.
  intros [Hpre Hsync]. split; [|exact Hsync].
  constructor; cbn [with_tracker with_host tracker own cells searches inst log
                    host timers]; apply Hpre.
Qed.

Lemma elapse_ok dt w :
  screen_ok w -> 0 <= dt ->
  exists w',
    elapse dt w = Some w' /\ screen_ok w' /\
    none_due (clock w') w' /\ clock w' = clock w + dt /\
    (tracker_load w' <= tracker_load w)%nat.
Proof.
  intros Hok Hdt. unfold elapse. destruct (Z.ltb_spec dt 0); [lia|].
  destruct (fire_all_ok
              (3 * size (timers (host (tracker w))) + 2 * size (own w))
              (clock w + dt) w Hok) as (w1 & -> & Hok1 & Hnd & Hl1).
  { unfold rounds. pose proof (own_rounds_size (own w)). lia. }
  eexists. split; [reflexivity|]. split; [by apply screen_ok_clock|].
  split; [exact Hnd|]. split; [reflexivity|]. exact Hl1.
Qed.

(** ** Every run keeps the screen in order *)

Lemma screen_ok_init (t0 : Z) (h0 : nat) : screen_ok (init t0 h0).
Proof.
  split; [|by intros c].
  constructor; cbn; try done.
  all: first [ intros h tm term Hh; by rewrite lookup_empty in Hh
             | intros ts term Hin; by apply elem_of_nil in Hin ].
Qed.

Lemma mount_ok w :
  screen_ok w -> cells w = None -> inst (tracker w) = NotMounted ->
  exists w', DebounceSearchDemo "" 0 [] false None w = Some w' /\ screen_ok w'.
Proof.
  intros [Hpre _] Hc Hi.
  destruct (ok_tracker w Hpre Hi) as [Hlog Htm].
  pose proof (ok_count w Hpre) as Hcount. rewrite Hlog in Hcount.
  unfold DebounceSearchDemo, useDebounce. rewrite Hi.
  cbn [default run_effect setTimeout search_effect truthy schedule
       tracker own cells searches host next_handle fst snd].
  eexists. split; [reflexivity|]. split.
  - constructor; cbn [set_cells tracker own cells searches with_host inst log
                      host timers].
    + intros c0 _. eauto.
    + done.
    + done.
    + intros tc [= <-]. cbn. by rewrite Hlog.
    + intros h tm term Hh Hcap.
      apply lookup_insert_Some in Hh as [[_ <-]|[_ Hh]]; [done|].
      destruct (ok_pending w Hpre h tm term Hh Hcap) as (_ & c0 & Hc0 & _).
      congruence.
    + intros c0 [= <-]. by left.
    + intros t term Hin. by apply (ok_searches w Hpre t).
    + rewrite Hlog. cbn [length] in *.
      match goal with |- (_ + ?P + ?U <= _)%nat =>
        assert (P = 0%nat) as ->; [|assert (U = 0%nat) as ->; [|lia]]
      end.
      * unfold pending_search. cbn. by rewrite lookup_insert_eq.
      * unfold unseen_write. cbn. done.
    + intros c0 [= <-]. cbn. lia.
  - intros c0 [= <-]. cbn. eexists. split; [reflexivity|]. done.
Qed.

Lemma step_ok w e w' : screen_ok w -> step w e = Some w' -> screen_ok w'.
Proof.
  intros Hok Hs. pose proof Hok as [Hpre Hsync].
  destruct e as [|value| |dt|]; unfold step in Hs.
  - destruct (cells w) as [c|] eqn:Hc; [done|].
    destruct (inst (tracker w)) eqn:Hi; [|done|done].
    destruct (mount_ok w Hok Hc Hi) as (w1 & Hm & Hok1).
    rewrite Hm in Hs. by injection Hs as <-.
  - destruct (cells w) as [c|] eqn:Hc; [|done]. unfold rerender in Hs.
    cbn [searchTerm apiCallCount searchResults isSearching effect_term
         effect_timer] in Hs.
    destruct (render_ok w c value (apiCallCount c) (searchResults c)
                (isSearching c) Hpre Hc (ok_api w Hpre c Hc))
      as (w1 & c1 & Hr & Hok1 & _).
    rewrite Hr in Hs. by injection Hs as <-.
  - destruct (cells w) as [c|] eqn:Hc; [|done]. unfold rerender in Hs.
    cbn [searchTerm apiCallCount searchResults isSearching effect_term
         effect_timer] in Hs.
    destruct (render_ok w c "" 0 [] false Hpre Hc ltac:(lia))
      as (w1 & c1 & Hr & Hok1 & _).
    rewrite Hr in Hs. by injection Hs as <-.
  - destruct (Z.ltb_spec dt 0) as [Hneg|Hdt].
    { assert (elapse dt w = None) as E
        by (unfold elapse; by rewrite (proj2 (Z.ltb_lt _ _) Hneg)).
      destruct (cells w); by rewrite E in Hs. }
    destruct (elapse_ok dt w Hok Hdt) as (w1 & He & Hok1 & _).
    destruct (cells w); rewrite He in Hs; by injection Hs as <-.
  - destruct (cells w) as [c|] eqn:Hc; [|done].
    destruct (ok_mounted w Hpre c Hc) as [tc Hi].
    unfold Debounce.unmount in Hs. rewrite Hi in Hs. injection Hs as <-.
    split; [|by intros c0].
    constructor; cbn [tracker own cells searches inst log host timers
                      clearTimeout]; try done.
    + intros h tm term Hh Hcap. apply lookup_delete_Some in Hh as [Hne Hh].
      destruct (ok_pending w Hpre h tm term Hh Hcap) as (_ & c0 & Hc0 & -> & _).
      rewrite Hc in Hc0. by injection Hc0 as <-.
    + apply (ok_searches w Hpre).
    + pose proof (ok_count w Hpre).
      match goal with |- (_ + ?P + ?U <= _)%nat =>
        assert (P = 0%nat) as -> by done;
        assert (U = 0%nat) as -> by done
      end.
      lia.
Qed.

Lemma run_ok w es w' : screen_ok w -> run w es = Some w' -> screen_ok w'.
Proof.
  revert w. induction es as [|e es IH]; intros w Hok; simpl.
  - by intros [= <-].
  - destruct (step w e) as [w1|] eqn:Hs; [|done].
    apply IH. by apply (step_ok w e).
Qed.

Lemma reachable_ok w : reachable w -> screen_ok w.
Proof.
  intros (t0 & h0 & es & Hr). apply (run_ok _ es w (screen_ok_init t0 h0) Hr).
Qed.

Lemma step_load w e w' :
  screen_ok w -> step w e = Some w' ->
  (tracker_load w' <= presses [e] + tracker_load w)%nat.
Proof.
  intros Hok Hs. pose proof Hok as [Hpre Hsync].
  destruct e as [|value| |dt|]; unfold step in Hs; cbn [presses foldr].
  - destruct (cells w) as [c|] eqn:Hc; [done|].
    destruct (inst (tracker w)) eqn:Hi; [|done|done].
    destruct (ok_tracker w Hpre Hi) as [Hlog Htm].
    unfold DebounceSearchDemo, useDebounce in Hs. rewrite Hi in Hs.
    cbn [default run_effect setTimeout search_effect truthy schedule
         tracker own cells searches host next_handle fst snd] in Hs.
    injection Hs as <-. unfold tracker_load.
    cbn [set_cells tracker with_host host timers log].
    rewrite Hlog, Htm, insert_empty, map_size_singleton,
      map_size_empty. simpl. lia.
  - destruct (cells w) as [c|] eqn:Hc; [|done]. unfold rerender in Hs.
    cbn [searchTerm apiCallCount searchResults isSearching effect_term
         effect_timer] in Hs.
    destruct (render_ok w c value (apiCallCount c) (searchResults c)
                (isSearching c) Hpre Hc (ok_api w Hpre c Hc))
      as (w1 & c1 & Hr & _ & _ & _ & _ & _ & _ & _ & _ & _ & _ & _ & Hl).
    rewrite Hr in Hs. injection Hs as <-. lia.
  - destruct (cells w) as [c|] eqn:Hc; [|done]. unfold rerender in Hs.
    cbn [searchTerm apiCallCount searchResults isSearching effect_term
         effect_timer] in Hs.
    destruct (render_ok w c "" 0 [] false Hpre Hc ltac:(lia))
      as (w1 & c1 & Hr & _ & _ & _ & _ & _ & _ & _ & _ & _ & _ & _ & Hl).
    rewrite Hr in Hs. injection Hs as <-. lia.
  - destruct (Z.ltb_spec dt 0) as [Hneg|Hdt].
    { assert (elapse dt w = None) as E
        by (unfold elapse; by rewrite (proj2 (Z.ltb_lt _ _) Hneg)).
      destruct (cells w); by rewrite E in Hs. }
    destruct (elapse_ok dt w Hok Hdt) as (w1 & He & _ & _ & _ & Hl).
    destruct (cells w); rewrite He in Hs; injection Hs as <-; lia.
  - destruct (cells w) as [c|] eqn:Hc; [|done].
    destruct (ok_mounted w Hpre c Hc) as [tc Hi].
    unfold Debounce.unmount in Hs. rewrite Hi in Hs. injection Hs as <-.
    unfold tracker_load. cbn [tracker log host timers clearTimeout].
    pose proof (map_subseteq_size _ _
                  (delete_subseteq (timers (host (tracker w)))
                     (effect_cleanup tc))) as Hle.
    lia.
Qed.

Lemma run_load w es w' :
  screen_ok w -> run w es = Some w' ->
  (tracker_load w' <= presses es + tracker_load w)%nat.
Proof.
  revert w. induction es as [|e es IH]; intros w Hok; simpl.
  - intros [= <-]. lia.
  - destruct (step w e) as [w1|] eqn:Hs; [|done]. intros Hr.
    pose proof (step_load w e w1 Hok Hs) as H1.
    pose proof (IH w1 (step_ok w e w1 Hok Hs) Hr) as H2.
    assert (presses (e :: es) = presses [e] + presses es)%nat as Hp
      by (destruct e; reflexivity).
    fold (presses es). change (foldr _ 0%nat es) with (presses es).
    destruct e; cbn [presses foldr] in H1 |- *; lia.
Qed.

(** X12.  In every run of the search screen a search is started only for
    a value that is not empty and that the tracker had written; the
    searches started are no more than the writes of the tracker, which
    are no more than the mount, keystrokes and resets of the run; and the
    counter on the screen is between 0 and the number of searches
    started. *)
Theorem searches_follow_writes (t0 : Z) (h0 : nat) (es : list Event) w :
  run (init t0 h0) es = Some w ->
  (forall ts term, (ts, term) ∈ searches w ->
     term <> ""%string /\ term ∈ fired_value <$> log (tracker w)) /\
  (length (searches w) <= length (log (tracker w)) <= presses es)%nat /\
  (forall c, cells w = Some c ->
     0 <= apiCallCount c <= Z.of_nat (length (searches w))).
Proof.
  intros Hr.
  pose proof (run_ok _ es w (screen_ok_init t0 h0) Hr) as [Hpre _].
  pose proof (run_load _ es w (screen_ok_init t0 h0) Hr) as Hload.
  split; [|split].
  - intros ts term Hin. destruct (ok_searches w Hpre ts term Hin) as [Ht Hw].
    split; [|done]. by intros ->.
  - pose proof (ok_count w Hpre). unfold tracker_load in Hload.
    cbn in Hload. rewrite map_size_empty in Hload. lia.
  - apply (ok_api w Hpre).
Qed.

(** X13.  From every state a run of the search screen reaches, any time
    [dt >= 0] can pass: all the callbacks due by then run, also those that
    callbacks set on the way (the tracker's write starts the 0 ms timer of
    the effect, which sets the 300 ms timer), no timer due is left
    waiting, and the clock has advanced by [dt]. *)
Theorem time_passes (t0 : Z) (h0 : nat) (es : list Event) w (dt : Z) :
  run (init t0 h0) es = Some w ->
  0 <= dt ->
  exists w',
    run (init t0 h0) (es ++ [Elapse dt]) = Some w' /\
    none_due (clock w') w' /\
    clock w' = clock w + dt.
Proof.
  intros Hr Hdt.
  pose proof (run_ok _ es w (screen_ok_init t0 h0) Hr) as Hok.
  destruct (elapse_ok dt w Hok Hdt) as (w' & He & _ & Hnd & Hclock & _).
  exists w'. split; [|done].
  assert (Happ : forall w0 es1 es2,
    run w0 (es1 ++ es2) =
    match run w0 es1 with Some w1 => run w1 es2 | None => None end).
  { intros w0 es1 es2. revert w0.
    induction es1 as [|e es1 IH]; intros w0; simpl; [done|].
    destruct (step w0 e); [apply IH|done]. }
  rewrite Happ, Hr. cbn [run step]. by rewrite He.
Qed.

End SearchScreenFacts.

Section SearchScreenExamples.
Import Debounce SearchScreen SearchRuns.

Lemma searches_follow_writes_witness :
  let es := [Mount; Elapse 100; Type_ "r"; Elapse 100; Type_ "re";
             Elapse 900]%string in
  let w := default (init 0 1) (run (init 0 1) es) in
  (length (searches w) <= length (log (tracker w)) <= presses es)%nat.
Proof.
  cbv zeta.
  refine (proj1 (proj2 (searches_follow_writes 0 1 _ _ _))).
  vm_compute. reflexivity.
Defined.

Lemma time_passes_witness :
  exists w',
    run (init 0 1) ([Mount; Elapse 100; Type_ "r"%string] ++ [Elapse 500])
    = Some w' /\
    none_due (clock w') w' /\
    clock w' = clock (default (init 0 1)
                        (run (init 0 1)
                           [Mount; Elapse 100; Type_ "r"%string])) + 500.
Proof.
  refine (time_passes 0 1 [Mount; Elapse 100; Type_ "r"%string] _ 500 _ _).
  - vm_compute. reflexivity.
  - lia.
Defined.

End SearchScreenExamples.

(** * Facts about a typing session on the search screen *)

Section SearchSceneFacts.
Import Debounce SearchScreen SearchRuns SearchScenes.

Lemma next_due_empty {T : Type} : next_due (∅ : gmap nat (Timer T)) = None.
Proof. unfold next_due. by rewrite map_to_list_empty. Qed.

Ltac timers_eval :=
  rewrite ?insert_empty, ?delete_singleton_eq, ?delete_empty,
    ?map_size_singleton, ?map_size_empty, ?next_due_singleton,
    ?next_due_empty.

Ltac cmp :=
  repeat match goal with
  | |- context [Z.max ?a ?b] =>
      first [rewrite (Z.max_l a b) by lia | rewrite (Z.max_r a b) by lia]
  | |- context [?a <? ?b] =>
      first [rewrite (proj2 (Z.ltb_lt a b)) by lia
            |rewrite (proj2 (Z.ltb_ge a b)) by lia]
  | |- context [?a <=? ?b] =>
      first [rewrite (proj2 (Z.leb_le a b)) by lia
            |rewrite (proj2 (Z.leb_gt a b)) by lia]
  | |- context [?a =? ?b] =>
      first [rewrite (proj2 (Z.eqb_eq a b)) by lia
            |rewrite (proj2 (Z.eqb_neq a b)) by lia]
  | |- context [bool_decide ?P] =>
      first [rewrite (bool_decide_eq_true_2 P) by done
            |rewrite (bool_decide_eq_false_2 P) by congruence]
  end;
  cbn [orb andb].

(** Evaluate what is decided, then unfold one layer, innermost first. *)
Ltac settle :=
  cbn [tracker own cells searches host inst log now next_handle timers
       due captured searchTerm apiCallCount searchResults isSearching
       effect_term effect_timer cell_debouncedValue effect_deps
       effect_cleanup fst snd default from_option id truthy
       fire_all Nat.mul Nat.add];
  timers_eval; cmp.

Ltac scene :=
  repeat progress
    (settle;
     unfold setTimeout, clearTimeout, run_effect, run_callback, clock,
       with_host, with_tracker, set_cells, schedule, search_effect,
       useDebounce, Debounce.unmount, DebounceSearchDemo, rerender, update,
       fire_tracker, fire_own, step;
     settle).

(** The next timer of the two tables fires, or none is due. *)
Ltac fire := unfold fire_next at 1; scene.

Lemma mount_calm (t0 g : Z) (h0 : nat) :
  0 <= g ->
  exists tt l,
    run (init t0 h0) [Mount; Elapse g]
    = Some (calm (t0 + g) (S (S h0)) tt h0 (S h0) "" l) /\
    delete h0 tt = ∅.
Proof.
  intros Hg. cbn [run]. unfold init, Debounce.init. scene. timers_eval.
  unfold elapse. scene. timers_eval. cmp. cbn [Nat.mul Nat.add fire_all].
  fire.
  destruct (Z.leb_spec (t0 + 500) (t0 + g)).
  - fire. fire.
    eexists _, _. split; [reflexivity|]. apply delete_empty.
  - fire. eexists _, _. split; [reflexivity|]. apply delete_singleton_eq.
Qed.

Lemma calm_type (tn : Z) (next h et : nat) tt (v v' : string)
    (l : list (Fired string)) :
  v' <> v -> delete h tt = ∅ ->
  step (calm tn next tt h et v l) (Type_ v')
  = Some (calm tn (S next) {[ next := {| due := tn + 500; captured := v' |} ]}
            next et v' l).
Proof.
  intros Hv Htt. unfold calm. scene. cmp. scene. rewrite Htt. scene.
  reflexivity.
Qed.

Lemma calm_wait (tn ts g : Z) (next h et : nat) (v : string)
    (l : list (Fired string)) :
  0 <= g -> tn + g < ts + 500 ->
  step (calm tn next {[ h := {| due := ts + 500; captured := v |} ]}
          h et v l) (Elapse g)
  = Some (calm (tn + g) next {[ h := {| due := ts + 500; captured := v |} ]}
            h et v l).
Proof.
  intros Hg Hlt. unfold calm. scene. unfold elapse. scene.
  fire. reflexivity.
Qed.

Lemma calm_search (tn ts dt : Z) (next h et : nat) (v : string)
    (l : list (Fired string)) :
  v <> ""%string -> tn <= ts + 500 -> ts + 500 <= tn + dt ->
  tn + dt < ts + 800 ->
  step (calm tn next {[ h := {| due := ts + 500; captured := v |} ]}
          h et v l) (Elapse dt)
  = Some (searching (tn + dt) (ts + 500) (S (S next)) h next (S next) v
            (l ++ [{| fired_at := ts + 500; fired_handle := h;
                      fired_value := v |}])).
Proof.
  intros Hv Hle Hdue Hlt. destruct v as [|a v]; [done|].
  unfold calm. scene. unfold elapse. scene.
  fire. fire. fire.
  reflexivity.
Qed.

Lemma calm_shown (tn ts dt : Z) (next h et : nat) (v : string)
    (l : list (Fired string)) :
  v <> ""%string -> tn <= ts + 500 -> ts + 800 <= tn + dt ->
  step (calm tn next {[ h := {| due := ts + 500; captured := v |} ]}
          h et v l) (Elapse dt)
  = Some (shown (tn + dt) (ts + 500) (S (S next)) h next v
            (l ++ [{| fired_at := ts + 500; fired_handle := h;
                      fired_value := v |}])).
Proof.
  intros Hv Hle Hdue. destruct v as [|a v]; [done|].
  unfold calm. scene. unfold elapse. scene.
  fire. fire. fire.
  reflexivity.
Qed.

Lemma screen_run_app (w : World) es1 es2 :
  run w (es1 ++ es2) =
  match run w es1 with Some w' => run w' es2 | None => None end.
Proof.
  revert w. induction es1 as [|e es1 IH]; intros w; simpl; [done|].
  destruct (step w e); [apply IH|done].
Qed.

Lemma screen_run_one (w : World) e : run w [e] = step w e.
Proof. simpl. by destruct (step w e). Qed.

Lemma calm_typing (cs : list (Z * string)) (ts : Z) (next h et : nat)
    (v : string) (l : list (Fired string)) :
  Forall (fun c => 0 <= c.1 < 500) cs ->
  changing v (cs.*2) ->
  exists next' h',
    run (calm ts next {[ h := {| due := ts + 500; captured := v |} ]}
           h et v l) (typing cs)
    = Some (calm (ts + total_gap cs) next'
              {[ h' := {| due := ts + total_gap cs + 500;
                          captured := last_value v cs |} ]}
              h' et (last_value v cs) l).
Proof.
  revert ts next h v.
  induction cs as [|[g v'] cs IH]; intros ts next h v Hg Hch.
  - exists next, h. simpl. by rewrite Z.add_0_r.
  - apply Forall_cons in Hg as [Hg Hgs]. destruct Hch as [Hv Hch].
    simpl in Hg.
    change (typing ((g, v') :: cs)) with (Elapse g :: Type_ v' :: typing cs).
    cbn [run]. rewrite calm_wait by lia.
    rewrite calm_type by (done || apply delete_singleton_eq).
    destruct (IH (ts + g) (S next) next v' Hgs Hch) as (next' & h' & Hr).
    exists next', h'. rewrite Hr. cbn [total_gap foldr last_value fst snd].
    fold (total_gap cs). by rewrite !Z.add_assoc.
Qed.

Lemma session_calm (t0 g1 : Z) (h0 : nat) (v1 : string)
    (cs : list (Z * string)) :
  0 <= g1 ->
  Forall (fun c => 0 <= c.1 < 500) cs ->
  changing ""%string (v1 :: cs.*2) ->
  exists next h et l,
    let ts := t0 + g1 + total_gap cs in
    run (init t0 h0) (Mount :: typing ((g1, v1) :: cs))
    = Some (calm ts next
              {[ h := {| due := ts + 500; captured := last_value v1 cs |} ]}
              h et (last_value v1 cs) l).
Proof.
  intros Hg Hgs [Hv Hch].
  destruct (mount_calm t0 g1 h0 Hg) as (tt & l & Hm & Htt).
  change (Mount :: typing ((g1, v1) :: cs))
    with ([Mount; Elapse g1] ++ Type_ v1 :: typing cs).
  rewrite screen_run_app, Hm. cbn [run].
  rewrite calm_type by done.
  destruct (calm_typing cs (t0 + g1) (S (S (S h0))) (S (S h0)) (S h0) v1 l
              Hgs Hch) as (next & h & Hr).
  exists next, h, (S h0), l. exact Hr.
Qed.

Lemma searching_reset (tn T e : Z) (next h hs hr : nat) (v : string)
    (l : list (Fired string)) :
  v <> ""%string -> T <= tn -> 0 <= e -> T + 300 <= tn + e -> e < 500 ->
  exists w,
    run (searching tn T next h hs hr v l) [Reset; Elapse e] = Some w /\
    cells w = Some {| searchTerm := "";
                      apiCallCount := 0;
                      searchResults := mockResults v;
                      isSearching := false;
                      effect_term := v;
                      effect_timer := hs |} /\
    searches w = [(T, v)].
Proof.
  intros Hv HT He Hdue Hlt. cbn [run]. unfold searching. scene.
  unfold elapse. scene. fire. fire.
  eexists. split; [reflexivity|]. split; reflexivity.
Qed.

Lemma searching_unmount (tn T e : Z) (next h hs hr : nat) (v : string)
    (l : list (Fired string)) :
  hs <> hr -> 0 <= e ->
  exists w,
    run (searching tn T next h hs hr v l) [Unmount; Elapse e] = Some w /\
    cells w = None /\
    timers (host (tracker w)) = ∅ /\
    length (log (tracker w)) = length l /\
    own w = (if tn + e <? T + 300 then
               {[ hr := {| due := T + 300;
                           captured := ShowResults (mockResults v) |} ]}
             else ∅).
Proof.
  intros Hne He. cbn [run]. unfold searching. scene.
  rewrite delete_singleton_ne by done.
  unfold elapse. scene.
  destruct (Z.ltb_spec (tn + e) (T + 300)).
  - fire. eexists. repeat split; reflexivity.
  - fire. fire. eexists. repeat split; reflexivity.
Qed.

Lemma shown_reset (tn T e : Z) (next h hs : nat) (v : string)
    (l : list (Fired string)) :
  v <> ""%string -> 500 <= e ->
  exists w c,
    run (shown tn T next h hs v l) [Reset; Elapse e] = Some w /\
    cells w = Some c /\
    (searchTerm c, apiCallCount c, searchResults c, isSearching c)
    = (""%string, 0, [], false) /\
    searches w = [(T, v)] /\
    timers (host (tracker w)) = ∅ /\
    own w = ∅.
Proof.
  intros Hv He. cbn [run]. unfold shown. scene.
  unfold elapse. scene. fire. fire. fire.
  eexists _, _. repeat split; reflexivity.
Qed.

(** X14.  The screen mounts, the user types [v1] at any time after that
    and goes on through [cs], each keystroke less than 500 ms after the
    one before it and changing the input, ending on a term that is not
    empty; then [dt] passes.  No search starts before 500 ms have passed
    since the last keystroke; exactly one starts then, for the last term;
    the counter reads 1 from then on, the loading flag is set until 300 ms
    later, and from then on the five results for the last term are
    shown. *)
Theorem typing_burst_searches_once (t0 : Z) (h0 : nat) (g1 : Z)
    (v1 : string) (cs : list (Z * string)) (dt : Z) :
  let started := t0 + g1 + total_gap cs + 500 in
  let term := last_value v1 cs in
  0 <= g1 ->
  Forall (fun c => 0 <= c.1 < 500) cs ->
  changing ""%string (v1 :: cs.*2) ->
  term <> ""%string ->
  0 <= dt ->
  exists w c,
    run (init t0 h0) (Mount :: typing ((g1, v1) :: cs) ++ [Elapse dt])
    = Some w /\
    cells w = Some c /\
    searchTerm c = term /\
    searches w = (if dt <? 500 then [] else [(started, term)]) /\
    apiCallCount c = (if dt <? 500 then 0 else 1) /\
    isSearching c = (500 <=? dt) && (dt <? 800) /\
    searchResults c = (if dt <? 800 then [] else mockResults term).
Proof.
  intros started term Hg Hgs Hch Hterm Hdt.
  destruct (session_calm t0 g1 h0 v1 cs Hg Hgs Hch)
    as (next & h & et & l & Hr). cbv zeta in Hr.
  rewrite app_comm_cons, screen_run_app, Hr. cbn [run].
  fold term. set (ts := t0 + g1 + total_gap cs).
  destruct (Z.ltb_spec dt 500) as [Hlt|Hge].
  - rewrite calm_wait by lia. eexists _, _. split; [reflexivity|].
    cmp. by repeat split.
  - destruct (Z.ltb_spec dt 800) as [Hlt|Hge'].
    + rewrite calm_search by (done || lia). eexists _, _.
      split; [reflexivity|]. cmp. by repeat split.
    + rewrite calm_shown by (done || lia). eexists _, _.
      split; [reflexivity|]. cmp. by repeat split.
Qed.

(** X15.  [handleReset] does not stop a search that has started.  After
    a burst of keystrokes, each less than 500 ms after the one before it
    and ending on a term that is not empty, the search starts; the user
    presses Reset [d] after the last keystroke, before the results are
    due ([500 <= d < 800]); when the results are due, less than 500 ms
    after the Reset, the input is empty and the counter reads 0, and the
    screen shows the five results for the term that was reset. *)
Theorem results_arrive_after_reset (t0 : Z) (h0 : nat) (g1 : Z)
    (v1 : string) (cs : list (Z * string)) (d e : Z) :
  let term := last_value v1 cs in
  0 <= g1 ->
  Forall (fun c => 0 <= c.1 < 500) cs ->
  changing ""%string (v1 :: cs.*2) ->
  term <> ""%string ->
  500 <= d < 800 ->
  800 <= d + e ->
  e < 500 ->
  exists w c,
    run (init t0 h0)
      (Mount :: typing ((g1, v1) :: cs) ++ [Elapse d; Reset; Elapse e])
    = Some w /\
    cells w = Some c /\
    searchTerm c = ""%string /\
    apiCallCount c = 0 /\
    isSearching c = false /\
    searchResults c = mockResults term.
Proof.
  intros term Hg Hgs Hch Hterm Hd Hde He.
  destruct (session_calm t0 g1 h0 v1 cs Hg Hgs Hch)
    as (next & h & et & l & Hr). cbv zeta in Hr.
  rewrite app_comm_cons, screen_run_app, Hr.
  fold term. set (ts := t0 + g1 + total_gap cs).
  change [Elapse d; Reset; Elapse e] with ([Elapse d] ++ [Reset; Elapse e]).
  rewrite screen_run_app, screen_run_one.
  rewrite calm_search by (done || lia).
  destruct (searching_reset (ts + d) (ts + 500) e (S (S next)) h next
              (S next) term
              (l ++ [{| fired_at := ts + 500; fired_handle := h;
                        fired_value := term |}]))
    as (w & Hw & Hc & _); try done; try lia.
  exists w. eexists. split; [exact Hw|]. split; [exact Hc|]. done.
Qed.

(** X16.  The cleanup of the effect clears the 0 ms timer only.  When
    the screen is unmounted while a search is under way, the tracker's
    timers are gone and it writes no more, but the 300 ms timer of the
    search stays in the host until it is due, and then runs with no
    component left. *)
Theorem unmount_leaves_the_result_timer (t0 : Z) (h0 : nat) (g1 : Z)
    (v1 : string) (cs : list (Z * string)) (d e : Z) :
  let started := t0 + g1 + total_gap cs + 500 in
  let term := last_value v1 cs in
  0 <= g1 ->
  Forall (fun c => 0 <= c.1 < 500) cs ->
  changing ""%string (v1 :: cs.*2) ->
  term <> ""%string ->
  500 <= d < 800 ->
  0 <= e ->
  exists w,
    run (init t0 h0)
      (Mount :: typing ((g1, v1) :: cs) ++ [Elapse d; Unmount; Elapse e])
    = Some w /\
    cells w = None /\
    timers (host (tracker w)) = ∅ /\
    (d + e < 800 ->
     exists hr, own w = {[ hr := {| due := started + 300;
                                    captured :=
                                      ShowResults (mockResults term) |} ]}) /\
    (800 <= d + e -> own w = ∅).
Proof.
  intros started term Hg Hgs Hch Hterm Hd He.
  destruct (session_calm t0 g1 h0 v1 cs Hg Hgs Hch)
    as (next & h & et & l & Hr). cbv zeta in Hr.
  rewrite app_comm_cons, screen_run_app, Hr.
  fold term. set (ts := t0 + g1 + total_gap cs).
  change [Elapse d; Unmount; Elapse e]
    with ([Elapse d] ++ [Unmount; Elapse e]).
  rewrite screen_run_app, screen_run_one.
  rewrite calm_search by (done || lia).
  destruct (searching_unmount (ts + d) (ts + 500) e (S (S next)) h next
              (S next) term
              (l ++ [{| fired_at := ts + 500; fired_handle := h;
                        fired_value := term |}]))
    as (w & Hw & Hc & Htm & _ & Hown); [lia|done|].
  exists w. split; [exact Hw|]. split; [exact Hc|]. split; [exact Htm|].
  rewrite Hown. split; intros Hcase.
  - exists (S next). rewrite (proj2 (Z.ltb_lt _ _)) by lia. done.
  - by rewrite (proj2 (Z.ltb_ge _ _)) by lia.
Qed.

(** X17.  A Reset starts no search.  After a burst of keystrokes, each
    less than 500 ms after the one before it and ending on a term that is
    not empty, whose results are on the screen, the user presses Reset
    and at least 500 ms pass: the tracker writes the empty string, the
    effect runs its other branch, and the screen is as it was after the
    mount (empty input, counter 0, no results, not loading), with no
    timer left and still the one search started. *)
Theorem reset_starts_no_search (t0 : Z) (h0 : nat) (g1 : Z)
    (v1 : string) (cs : list (Z * string)) (d e : Z) :
  let started := t0 + g1 + total_gap cs + 500 in
  let term := last_value v1 cs in
  0 <= g1 ->
  Forall (fun c => 0 <= c.1 < 500) cs ->
  changing ""%string (v1 :: cs.*2) ->
  term <> ""%string ->
  800 <= d ->
  500 <= e ->
  exists w c,
    run (init t0 h0)
      (Mount :: typing ((g1, v1) :: cs) ++ [Elapse d; Reset; Elapse e])
    = Some w /\
    cells w = Some c /\
    (searchTerm c, apiCallCount c, searchResults c, isSearching c)
    = (""%string, 0, [], false) /\
    searches w = [(started, term)] /\
    timers (host (tracker w)) = ∅ /\
    own w = ∅.
Proof.
  intros started term Hg Hgs Hch Hterm Hd He.
  destruct (session_calm t0 g1 h0 v1 cs Hg Hgs Hch)
    as (next & h & et & l & Hr). cbv zeta in Hr.
  rewrite app_comm_cons, screen_run_app, Hr.
  fold term. set (ts := t0 + g1 + total_gap cs).
  change [Elapse d; Reset; Elapse e] with ([Elapse d] ++ [Reset; Elapse e]).
  rewrite screen_run_app, screen_run_one.
  rewrite calm_shown by (done || lia).
  apply shown_reset; [done|lia].
Qed.

End SearchSceneFacts.

Section SearchSceneExamples.
Import Debounce SearchScreen SearchRuns SearchScenes.

Lemma typing_burst_searches_once_witness :
  exists w c,
    run (init 0 1)
      (Mount :: typing [(200, "r"); (100, "re"); (100, "rea")]%string
         ++ [Elapse 600])
    = Some w /\
    cells w = Some c /\
    searchTerm c = "rea"%string /\
    searches w = [(900, "rea"%string)] /\
    apiCallCount c = 1 /\
    isSearching c = true /\
    searchResults c = [].
Proof.
  refine (typing_burst_searches_once 0 1 200 "r"
            [(100, "re"); (100, "rea")]%string 600 _ _ _ _ _).
  - lia.
  - repeat constructor; simpl; lia.
  - repeat split; discriminate.
  - discriminate.
  - lia.
Defined.

Lemma results_arrive_after_reset_witness :
  exists w c,
    run (init 0 1)
      (Mount :: typing [(200, "r"); (100, "re")]%string
         ++ [Elapse 600; Reset; Elapse 200])
    = Some w /\
    cells w = Some c /\
    searchTerm c = ""%string /\
    apiCallCount c = 0 /\
    isSearching c = false /\
    searchResults c = mockResults "re".
Proof.
  refine (results_arrive_after_reset 0 1 200 "r" [(100, "re")]%string
            600 200 _ _ _ _ _ _ _).
  - lia.
  - repeat constructor; simpl; lia.
  - repeat split; discriminate.
  - discriminate.
  - lia.
  - lia.
  - lia.
Defined.

Lemma unmount_leaves_the_result_timer_witness :
  exists w,
    run (init 0 1)
      (Mount :: typing [(200, "r"); (100, "re")]%string
         ++ [Elapse 600; Unmount; Elapse 100])
    = Some w /\
    cells w = None /\
    timers (host (tracker w)) = ∅ /\
    (600 + 100 < 800 ->
     exists hr, own w = {[ hr := {| due := 0 + 200 + 100 + 500 + 300;
                                    captured :=
                                      ShowResults (mockResults "re") |} ]}) /\
    (800 <= 600 + 100 -> own w = ∅).
Proof.
  refine (unmount_leaves_the_result_timer 0 1 200 "r" [(100, "re")]%string
            600 100 _ _ _ _ _ _).
  - lia.
  - repeat constructor; simpl; lia.
  - repeat split; discriminate.
  - discriminate.
  - lia.
  - lia.
Defined.

Lemma reset_starts_no_search_witness :
  exists w c,
    run (init 0 1)
      (Mount :: typing [(200, "r"); (100, "re")]%string
         ++ [Elapse 1000; Reset; Elapse 500])
    = Some w /\
    cells w = Some c /\
    (searchTerm c, apiCallCount c, searchResults c, isSearching c)
    = (""%string, 0, [], false) /\
    searches w = [(0 + 200 + 100 + 500, "re"%string)] /\
    timers (host (tracker w)) = ∅ /\
    own w = ∅.
Proof.
  refine (reset_starts_no_search 0 1 200 "r" [(100, "re")]%string
            1000 500 _ _ _ _ _ _).
  - lia.
  - repeat constructor; simpl; lia.
  - repeat split; discriminate.
  - discriminate.
  - lia.
  - lia.
Defined.

End SearchSceneExamples.
